(** * GotoBank_v2: the polling scheduler, its dedup store and its forwarder

    A shallow embedding of [MB_fastAPI_webhook_like_v2/schedule_module.py]
    and of [mb_actions.log_in_v2], and the properties of the specification
    that are about them; then of what they call in [API_service_woo],
    [API_service_lark], [driver] and [cleaner], with the properties the code
    itself shows.

    Conventions.
    - A Python [str] is a [string] holding its UTF-8 bytes; dictionary keys
      are compared byte for byte, which is code point for code point.
    - A value read by [json.load] is a [Py.value]; JSON floats are left out
      (no function below does arithmetic on a value it has read).
    - A Python call either returns or raises: [Py.res]. [SystemExit] is kept
      apart from [Exception], because [except Exception] does not catch it.
    - Collaborators (the chat channel, the order system, the browser) are
      oracles in a [world] record; time is a fake clock in milliseconds that
      only [time.sleep] advances. *)

From Stdlib Require Import ZArith String Ascii List Lia Bool.
From stdpp Require Import base option gmap strings list.

Set Warnings "-register-all".
Local Open Scope string_scope.
Local Open Scope Z_scope.
Local Open Scope list_scope.

(** ** Python values and results *)

Module Py.

Inductive value : Type :=
| VNone
| VBool (b : bool)
| VInt (z : Z)
| VStr (s : string)
| VList (l : list value)
| VDict (d : gmap string value).

Abbreviation dict := (gmap string value).

Inductive exn : Type :=
| Exception
| SystemExit (code : Z).

Inductive res (A : Type) : Type :=
| Ok (a : A)
| Err (e : exn).
Arguments Ok {A} a.
Arguments Err {A} e.

Definition Raise {A : Type} : res A := Err Exception.

(** [d.get(key, default)] *)
Definition get (d : dict) (key : string) (default : value) : value :=
  match d !! key with
  | Some v => v
  | None => default
  end.

Definition bytes (l : list nat) : string :=
  fold_right (fun n s => String (ascii_of_nat n) s) EmptyString l.

(** The code points for which [str.isspace] holds, UTF-8 encoded:
    U+0009..U+000D, U+001C..U+0020, U+0085, U+00A0, U+1680,
    U+2000..U+200A, U+2028, U+2029, U+202F, U+205F, U+3000. *)
Definition whitespace : list string :=
  map bytes
    [ [9]; [10]; [11]; [12]; [13]; [28]; [29]; [30]; [31]; [32];
      [194; 133]; [194; 160]; [225; 154; 128];
      [226; 128; 128]; [226; 128; 129]; [226; 128; 130]; [226; 128; 131];
      [226; 128; 132]; [226; 128; 133]; [226; 128; 134]; [226; 128; 135];
      [226; 128; 136]; [226; 128; 137]; [226; 128; 138];
      [226; 128; 168]; [226; 128; 169]; [226; 128; 175];
      [226; 129; 159]; [227; 128; 128] ]%nat.

Fixpoint skip (n : nat) (s : string) : string :=
  match n, s with
  | S n', String _ s' => skip n' s'
  | _, _ => s
  end.

Fixpoint drop_one (ws : list string) (s : string) : option string :=
  match ws with
  | [] => None
  | w :: ws' =>
      if String.prefix w s then Some (skip (String.length w) s)
      else drop_one ws' s
  end.

Fixpoint lstrip_with (ws : list string) (fuel : nat) (s : string) : string :=
  match fuel with
  | O => s
  | S fuel' =>
      match drop_one ws s with
      | Some s' => lstrip_with ws fuel' s'
      | None => s
      end
  end.

Definition lstrip (s : string) : string :=
  lstrip_with whitespace (String.length s) s.

Definition rstrip (s : string) : string :=
  String.rev
    (lstrip_with (map String.rev whitespace) (String.length s) (String.rev s)).

(** [s.strip()] *)
Definition strip (s : string) : string := rstrip (lstrip s).

(** [v.strip()]: only a [str] has the method; anything else raises
    [AttributeError]. *)
Definition str_strip (v : value) : res string :=
  match v with
  | VStr s => Ok (strip s)
  | _ => Raise
  end.

(** [needle in hay] *)
Fixpoint contains (needle hay : string) : bool :=
  String.prefix needle hay ||
  match hay with
  | EmptyString => false
  | String _ hay' => contains needle hay'
  end.

(** Truth value of a [str]. *)
Definition nonempty (s : string) : bool :=
  match s with
  | EmptyString => false
  | String _ _ => true
  end.

(** [v != s] for a string literal [s]: a value that is not a [str] is
    different from every [str]. *)
Definition ne_str (v : value) (s : string) : bool :=
  match v with
  | VStr s' => negb (String.eqb s' s)
  | _ => true
  end.

(** [v == 0]: Python compares numbers by value, and [False == 0]. *)
Definition eq_zero (v : value) : bool :=
  match v with
  | VInt z => Z.eqb z 0
  | VBool b => negb b
  | _ => false
  end.

End Py.

Import Py.

(** ** The batch files of the dedup store *)

Module Dedup.

(** The dedup key of a transaction, and the batch key. *)
Definition SO_BUT_TOAN : string := "SỐ BÚT TOÁN".
Definition TRANSACTIONS : string := "transactions".

(** A file matched by [glob("data/mb_biz_transactions_*.json")]: its path,
    its [os.path.getmtime] and what [json.load] makes of it ([None] when
    opening or parsing raises). *)
Record file : Type := File {
  path : string;
  mtime : Z;
  file_data : option value
}.

(** [max(transaction_files, key=os.path.getmtime)]: the first file, in glob
    order, among those with the largest modification time. *)
Fixpoint max_by_mtime (best : file) (files : list file) : file :=
  match files with
  | [] => best
  | f :: files' =>
      max_by_mtime (if Z.ltb (mtime best) (mtime f) then f else best) files'
  end.

Definition newest_of (transaction_files : list file) : option file :=
  match transaction_files with
  | [] => None
  | f :: files' => Some (max_by_mtime f files')
  end.

(** [[f for f in transaction_files if f != newest_file]] *)
Definition old_files_of (transaction_files : list file) (newest_file : file)
  : list file :=
  filter (fun f => path f ≠ path newest_file) transaction_files.

(** [txn.get("SỐ BÚT TOÁN", "").strip()] *)
Definition txn_id_of (txn : dict) : res string :=
  str_strip (get txn SO_BUT_TOAN (VStr "")).

(** [data.get("transactions", [])], unwrapped once more when it is itself a
    dictionary. *)
Definition transactions_of (file_data : dict) : value :=
  match get file_data TRANSACTIONS (VList []) with
  | VDict d => get d TRANSACTIONS (VList [])
  | v => v
  end.

(** The inner loop over one old file. The identifiers are appended to the
    shared list as they are met, so those met before an exception stay. *)
Fixpoint collect_ids (transactions : list value) (ids : list string)
  : list string :=
  match transactions with
  | [] => ids
  | VDict txn :: rest =>
      match txn_id_of txn with
      | Ok txn_id =>
          collect_ids rest (if nonempty txn_id then ids ++ [txn_id] else ids)
      | Err _ => ids
      end
  | _ :: rest => collect_ids rest ids
  end.

(** The body of [for file_path in old_files], under its [try]. Iterating a
    [str] or a [dict] yields strings, which are not dictionaries, and
    iterating anything else raises; in each case nothing is appended. *)
Definition collect_file (f : file) (ids : list string) : list string :=
  match file_data f with
  | Some (VDict d) =>
      match transactions_of d with
      | VList transactions => collect_ids transactions ids
      | _ => ids
      end
  | _ => ids
  end.

Definition old_transaction_ids_of (old_files : list file) : list string :=
  fold_left (fun ids f => collect_file f ids) old_files [].

(** The loop that builds [unique_transactions]; an identifier that is not a
    [str] raises out of the loop. *)
Fixpoint unique_loop (old_transaction_ids : list string)
  (new_transactions : list value) (unique_transactions : list dict)
  : res (list dict) :=
  match new_transactions with
  | [] => Ok unique_transactions
  | VDict txn :: rest =>
      match txn_id_of txn with
      | Ok txn_id =>
          if negb (nonempty txn_id)
             || bool_decide (txn_id ∈ old_transaction_ids)
          then unique_loop old_transaction_ids rest unique_transactions
          else unique_loop old_transaction_ids rest
                 (unique_transactions ++ [txn])
      | Err e => Err e
      end
  | _ :: rest => unique_loop old_transaction_ids rest unique_transactions
  end.

(** What the first half of [find_unique_transactions_v2] computes: [None]
    where the function has already returned [False]. *)
Definition unique_transactions_of (transaction_files : list file)
  : option (file * list dict) :=
  match newest_of transaction_files with
  | None => None
  | Some newest_file =>
      let old_files := old_files_of transaction_files newest_file in
      let old_transaction_ids := old_transaction_ids_of old_files in
      match file_data newest_file with
      | Some (VDict newest_data) =>
          match transactions_of newest_data with
          | VList new_transactions =>
              match unique_loop old_transaction_ids new_transactions [] with
              | Ok unique => Some (newest_file, unique)
              | Err _ => None
              end
          | _ => None
          end
      | _ => None
      end
  end.

(** A transaction as the fetcher builds it: column header to cell text. *)
Abbreviation transaction := (gmap string string).

Definition encode_txn (t : transaction) : dict := VStr <$> t.

(** A batch file: both [save_transactions_to_file] and the empty marker of
    [fetch_transactions_with_active_session_v2] write a dictionary whose
    ["transactions"] entry is the list of the transactions. *)
Definition holds_batch (f : file) (txs : list transaction) : Prop :=
  ∃ d : dict,
    file_data f = Some (VDict d) ∧
    d !! TRANSACTIONS = Some (VList ((VDict ∘ encode_txn) <$> txs)).

(** The identifier of a transaction, as the specification has it: the
    ["SỐ BÚT TOÁN"] cell, stripped; empty when the cell is missing. *)
Definition ident (t : transaction) : string :=
  strip (default "" (t !! SO_BUT_TOAN)).

(** The identifiers of a set of batches. *)
Definition idents (batches : list (list transaction)) : list string :=
  ident <$> concat batches.

(** [find_new_transactions] as the specification words it: the transactions
    of the newest batch whose identifier is not empty and does not occur in
    an older batch. *)
Definition new_transactions_spec (B1 : list (list transaction))
  (B2 : list transaction) : list transaction :=
  filter (fun t => ident t ≠ "" ∧ ident t ∉ idents B1) B2.

End Dedup.

(** ** The standard library the program calls *)

Module Host.

(** Dates and JSON output are the work of [datetime], [pytz] and [json]; the
    program is modelled over any behaviour of theirs. A time is a number of
    seconds on the Vietnam wall clock, counted from 1970-01-01 00:00:00; an
    instant is a number of seconds of UTC. *)
Record lib : Type := Lib {
  (** [datetime.strptime(text, format)], [None] when it raises *)
  strptime : string → string → option Z;
  (** [datetime.fromisoformat(text)]: the wall clock read and the UTC offset
      when the text has one; [None] when it raises *)
  fromisoformat : string → option (Z * option Z);
  (** [d.strftime(format)] *)
  strftime : Z → string → string;
  (** the instant of [VIETNAM_TZ.localize(d)] *)
  localize : Z → Z;
  (** the wall clock of [d.astimezone(VIETNAM_TZ)], from the instant of [d] *)
  astimezone : Z → Z;
  (** the pieces [json.dump(data, f, ensure_ascii=False, indent=2)] writes *)
  json_dump : value → list string
}.

End Host.

Import Host.

(** ** The watermark: [get_from_date_for_fetch] *)

Module Watermark.

Import Dedup.

Definition TIMESTAMP : string := "timestamp".
Definition NGAY_GIAO_DICH : string := "NGÀY GIAO DỊCH".

(** Truth value of a Python value. *)
Definition truthy (v : value) : bool :=
  match v with
  | VNone => false
  | VBool b => b
  | VInt z => negb (z =? 0)
  | VStr s => nonempty s
  | VList l => match l with [] => false | _ => true end
  | VDict d => negb (bool_decide (d = ∅))
  end.

(** [text.replace('Z', '+00:00')] *)
Fixpoint replace_Z (text : string) : string :=
  match text with
  | EmptyString => EmptyString
  | String c rest =>
      if Ascii.eqb c "Z" then "+00:00" +:+ replace_Z rest
      else String c (replace_Z rest)
  end.

(** [text.split()[0]] on a text that does not start with a blank. *)
Fixpoint first_word (text : string) : string :=
  match text with
  | EmptyString => EmptyString
  | String c rest =>
      match drop_one whitespace text with
      | Some _ => EmptyString
      | None => String c (first_word rest)
      end
  end.

(** The fetch timestamp of an empty batch: with an offset or a [Z] it is
    read as ISO text and brought to the Vietnam wall clock, else it is read
    as ["%Y-%m-%d %H:%M:%S"]. [None] where the [try] catches. *)
Definition parse_fetch_timestamp (L : lib) (timestamp_str : string)
  : option Z :=
  if contains "+" timestamp_str || contains "Z" timestamp_str
  then
    match fromisoformat L (replace_Z timestamp_str) with
    | Some (wall, None) => Some wall
    | Some (wall, Some offset) => Some (astimezone L (wall - offset))
    | None => None
    end
  else strptime L timestamp_str "%Y-%m-%d %H:%M:%S".

(** The time of a transaction, from its stripped, non-empty date cell. A
    date without a time counts as the last second of its day. *)
Definition parse_transaction_time (L : lib) (trans_date_time : string)
  : option Z :=
  if contains ":" trans_date_time then
    match strptime L trans_date_time "%d/%m/%Y %H:%M:%S" with
    | Some t => Some t
    | None =>
        match strptime L trans_date_time "%d/%m/%Y %H:%M" with
        | Some t => Some t
        | None =>
            match strptime L (first_word trans_date_time) "%d/%m/%Y" with
            | Some t => Some (t + 86399)
            | None => None
            end
        end
    end
  else
    match strptime L trans_date_time "%d/%m/%Y" with
    | Some t => Some (t + 86399)
    | None => None
    end.

(** The loop over the transactions of the newest batch. Two localized times
    are compared as instants. An entry that is no dictionary, or a date cell
    that is no [str], raises out of the loop. *)
Fixpoint latest_loop (L : lib) (transactions : list value)
  (latest_transaction_time : option Z) : res (option Z) :=
  match transactions with
  | [] => Ok latest_transaction_time
  | VDict txn :: rest =>
      match str_strip (get txn NGAY_GIAO_DICH (VStr "")) with
      | Ok trans_date_time =>
          if nonempty trans_date_time then
            match parse_transaction_time L trans_date_time with
            | Some transaction_dt =>
                match latest_transaction_time with
                | None => latest_loop L rest (Some transaction_dt)
                | Some latest =>
                    if localize L latest <? localize L transaction_dt
                    then latest_loop L rest (Some transaction_dt)
                    else latest_loop L rest (Some latest)
                end
            | None => latest_loop L rest latest_transaction_time
            end
          else latest_loop L rest latest_transaction_time
      | Err e => Err e
      end
  | _ :: _ => Raise
  end.

(** [get_last_fetch_time_from_json]; [now] is [get_vietnam_time()]. *)
Definition get_last_fetch_time_from_json (L : lib)
  (transaction_files : list file) (now : Z) : option Z :=
  match newest_of transaction_files with
  | None => None
  | Some newest_file =>
      match file_data newest_file with
      | Some (VDict data) =>
          let transactions := get data TRANSACTIONS (VList []) in
          let timestamp_str := get data TIMESTAMP VNone in
          if negb (truthy transactions) then
            if truthy timestamp_str then
              match timestamp_str with
              | VStr text =>
                  match parse_fetch_timestamp L text with
                  | Some timestamp_dt => Some timestamp_dt
                  | None => Some now
                  end
              | _ => Some now
              end
            else None
          else
            match transactions with
            | VList txns =>
                match latest_loop L txns None with
                | Ok (Some latest_transaction_time) =>
                    Some latest_transaction_time
                | Ok None =>
                    if truthy timestamp_str then
                      match timestamp_str with
                      | VStr text =>
                          match strptime L text "%Y-%m-%d %H:%M:%S" with
                          | Some timestamp_dt => Some timestamp_dt
                          | None => Some now
                          end
                      | _ => Some now
                      end
                    else None
                | Err _ => None
                end
            | _ => None
            end
      | _ => None
      end
  end.

(** [get_from_date_for_fetch] *)
Definition get_from_date_for_fetch (L : lib) (transaction_files : list file)
  (now : Z) : string :=
  match get_last_fetch_time_from_json L transaction_files now with
  | Some last_transaction_time =>
      let buffered_time := last_transaction_time - 2 * 60 in
      strftime L buffered_time "%d/%m/%Y %H:%M"
  | None =>
      let start_of_day := now - now mod 86400 in
      strftime L start_of_day "%d/%m/%Y %H:%M"
  end.

(** The date cell of a transaction, stripped. *)
Definition date_cell (t : transaction) : string :=
  strip (default "" (t !! NGAY_GIAO_DICH)).

(** The times read from the transactions of a batch. *)
Definition times_of (L : lib) (txs : list transaction) : list Z :=
  omap (fun t => if nonempty (date_cell t)
                 then parse_transaction_time L (date_cell t) else None) txs.

(** The format of the watermark: minutes, no seconds. *)
Definition FORMAT : string := "%d/%m/%Y %H:%M".

(** The latest of a list of times: [T] is one of them, and none is a later
    instant. *)
Definition latest_of (L : lib) (times : list Z) (T : Z) : Prop :=
  T ∈ times ∧ ∀ t, t ∈ times → localize L t ≤ localize L T.

(** A batch file with its fetch timestamp. *)
Definition holds_stamped (f : file) (timestamp_str : string)
  (txs : list transaction) : Prop :=
  ∃ d : dict,
    file_data f = Some (VDict d) ∧
    d !! TIMESTAMP = Some (VStr timestamp_str) ∧
    d !! TRANSACTIONS = Some (VList ((VDict ∘ encode_txn) <$> txs)).

End Watermark.

(** ** Persisting a batch: [save_transactions_to_file] and the empty marker *)

Module Store.

Import Watermark.

(** The files of the data directory, path to content. *)
Abbreviation fs := (gmap string string).

(** The calls that change the file system. Writing is piecewise: a content
    reaches its file one piece after the other. *)
Inductive fs_op : Type :=
| Makedirs (dir : string)
| OpenW (path : string)
| WriteChunk (path chunk : string)
| Rename (src dst : string)
| RemoveFile (path : string).

Definition apply_op (files : fs) (op : fs_op) : fs :=
  match op with
  | Makedirs _ => files
  | OpenW path => <[path := ""]> files
  | WriteChunk path chunk =>
      match files !! path with
      | Some written => <[path := written +:+ chunk]> files
      | None => files
      end
  | Rename src dst =>
      match files !! src with
      | Some content => <[dst := content]> (delete src files)
      | None => files
      end
  | RemoveFile path => delete path files
  end.

(** The file system after the operations, from left to right. A crash, or an
    operation that raises, leaves it after a prefix of them. *)
Definition run_ops (ops : list fs_op) (files : fs) : fs :=
  foldl apply_op files ops.

(** The whole content [json.dump] writes. *)
Definition dumped (L : lib) (data : value) : string :=
  foldr String.app "" (json_dump L data).

(** [with open(path, "w") as f: json.dump(data, f, ...)] *)
Definition write_json (L : lib) (path : string) (data : value)
  : list fs_op :=
  OpenW path :: (WriteChunk path <$> json_dump L data).

(** [os.path.join(data_dir, name)] *)
Definition join (data_dir name : string) : string :=
  data_dir +:+ "/" +:+ name.

Definition batch_filename (L : lib) (data_dir : string) (now : Z) : string :=
  join data_dir
    ("mb_biz_transactions_" +:+ strftime L now "%Y%m%d_%H%M%S" +:+ ".json").

Definition temp_of (filename : string) : string := filename +:+ ".tmp".

Definition test_file (data_dir : string) : string :=
  join data_dir ".write_test".

(** The code points of a UTF-8 text: the bytes that do not continue a
    character. *)
Fixpoint code_points (text : string) : Z :=
  match text with
  | EmptyString => 0
  | String c rest =>
      (if (128 <=? nat_of_ascii c)%nat && (nat_of_ascii c <? 192)%nat
       then 0 else 1) + code_points rest
  end.

(** [len(v)]; [None] when it raises [TypeError]. *)
Definition len (v : value) : option Z :=
  match v with
  | VStr text => Some (code_points text)
  | VList l => Some (Z.of_nat (length l))
  | VDict d => Some (Z.of_nat (size d))
  | _ => None
  end.

Definition account_info (L : lib) (now : Z) : value :=
  VDict {[ "last_updated" := VStr (strftime L now "%d-%m-%Y %H:%M:%S") ]}.

(** [data_to_save] *)
Definition data_to_save (L : lib) (now count : Z) (transactions_list : value)
  : value :=
  VDict {[ TIMESTAMP := VStr (strftime L now "%Y-%m-%d %H:%M:%S");
           "timestamp_utc" :=
             VStr (strftime L (localize L now) "%Y-%m-%d %H:%M:%S");
           "timezone" := VStr "Asia/Ho_Chi_Minh";
           "timezone_offset" := VStr "+07:00";
           "status" := VStr "success";
           "account_info" := account_info L now;
           "count" := VInt count;
           Dedup.TRANSACTIONS := transactions_list ]}.

(** [empty_data] *)
Definition empty_data (L : lib) (now : Z) : value :=
  VDict {[ TIMESTAMP := VStr (strftime L now "%Y-%m-%d %H:%M:%S");
           "status" := VStr "no_transactions";
           "account_info" := account_info L now;
           "count" := VInt 0;
           Dedup.TRANSACTIONS := VList [] ]}.

(** The file operations of [save_transactions_to_file] on the files
    [files]. When [len] raises, the function has only probed the
    directory. *)
Definition save_transactions_to_file (L : lib) (data_dir : string) (now : Z)
  (files : fs) (transactions_list : value) : list fs_op :=
  if negb (truthy transactions_list) then []
  else
    let probe :=
      [Makedirs data_dir; OpenW (test_file data_dir);
       WriteChunk (test_file data_dir) "test";
       RemoveFile (test_file data_dir)] in
    let filename := batch_filename L data_dir now in
    match len transactions_list with
    | None => probe
    | Some count =>
        let temp_filename := temp_of filename in
        probe
        ++ write_json L temp_filename
             (data_to_save L now count transactions_list)
        ++ (if bool_decide (is_Some (files !! filename))
            then [RemoveFile filename] else [])
        ++ [Rename temp_filename filename]
    end.

(** The file operations of the empty marker. *)
Definition save_empty_marker (L : lib) (data_dir : string) (now : Z)
  : list fs_op :=
  let filename := batch_filename L data_dir now in
  Makedirs data_dir
  :: write_json L (temp_of filename) (empty_data L now)
  ++ [Rename (temp_of filename) filename].

(** The file operations of [fetch_transactions_with_active_session_v2] once
    the fetcher has returned [transaction_data]. *)
Definition record_batch (L : lib) (data_dir : string) (now : Z) (files : fs)
  (transaction_data : value) : list fs_op :=
  if negb (truthy transaction_data)
     || match transaction_data with
        | VDict d => negb (truthy (get d Dedup.TRANSACTIONS VNone))
        | _ => false
        end
  then save_empty_marker L data_dir now
  else
    match transaction_data with
    | VDict d =>
        save_transactions_to_file L data_dir now files
          (get d Dedup.TRANSACTIONS (VList []))
    | _ => []
    end.

(** What is written under the name of the batch, when something is. *)
Definition batch_content (L : lib) (now : Z) (transaction_data : value)
  : string :=
  match transaction_data with
  | VDict d =>
      let transactions_list := get d Dedup.TRANSACTIONS (VList []) in
      if truthy transactions_list then
        dumped L (data_to_save L now (default 0 (len transactions_list))
                    transactions_list)
      else dumped L (empty_data L now)
  | _ => dumped L (empty_data L now)
  end.

(** An operation that leaves the file [p] alone. *)
Definition leaves (p : string) (op : fs_op) : Prop :=
  match op with
  | Makedirs _ => True
  | OpenW q | WriteChunk q _ | RemoveFile q => q ≠ p
  | Rename src dst => src ≠ p ∧ dst ≠ p
  end.

(** The file an operation writes into. *)
Definition written (op : fs_op) : option string :=
  match op with
  | OpenW q | WriteChunk q _ => Some q
  | _ => None
  end.

(** The operations that stage a content [content] in [tmp] and then put it
    under the name [final]: [final] is never written into, the last
    operation is the rename, and [tmp] holds the whole content by then. *)
Definition staged_then_renamed (ops : list fs_op) (files : fs)
  (tmp final content : string) : Prop :=
  ∃ staged : list fs_op,
    ops = staged ++ [Rename tmp final] ∧
    Forall (fun op => written op ≠ Some final) staged ∧
    Forall (fun op => ∀ src dst, op ≠ Rename src dst) staged ∧
    run_ops staged files !! tmp = Some content ∧
    run_ops ops files !! final = Some content.

End Store.

(** ** Effects: a trace of calls to the collaborators *)

Module Eff.

(** The text pushed to the chat channel. The three f-string templates of
    [push_transactions_to_lark_v2] are kept with the values they interpolate;
    the alerts of the scheduler are literal texts. *)
Inductive content : Type :=
| Credit (credit_amount trans_date description trans_ref : value)
| Debit (debit_amount trans_date description trans_ref : value)
| Other (trans_date description trans_ref : value)
| Text (s : string)
| RecoveryFailedAt (clock : Z).

(** What the portal does on one login attempt, as [log_in_v2] sees it. *)
Inductive page : Type :=
| Unreachable      (* a browser call outside every [try] raises *)
| NoCaptcha        (* neither locator finds the captcha element *)
| NoImage          (* the image has no source, or one that is no data URL *)
| CaptchaFails     (* decoding the image or reading it raises *)
| FormFails        (* filling the form or clicking raises *)
| SignedIn         (* one of the success indicators holds *)
| ErrorDialog (text : string)
                   (* the text of the error element that is looked at *)
| NoErrorDialog    (* no success indicator and no error element *)
| CheckFails.      (* looking at the result raises *)

(** How [docker-compose down] run by [subprocess.run] ends. *)
Inductive docker_result : Type :=
| DockerOk
| DockerFailed
| DockerRaises.

Inductive event : Type :=
| LarkPush (c : content) (r : res value)
| WooProcess (txn : dict) (r : res value)
| Sleep (ms : Z)
| Remove (path : string)
| LoginStart
| Navigate (p : page)
| ReadCaptcha
| SignIn
| CheckSession (session_id : option string)
| LogOut
| CloseDriver
| InitDriver (ok : bool)
| DockerDown (r : docker_result)
| DockerDownFallback
| FetchCycle (r : res unit)
| Heartbeat.

(** The collaborators. Their answer may depend on everything that happened
    before the call; a call that raises (an [Exception]) answers [None]. *)
Record world : Type := World {
  getenv : string → option string;
  push_to_Lark_Channel : list event → content → option value;
  process_woo_transaction : list event → dict → option value;
  portal : list event → page;
  check_session : list event → option string;
  init_driver : list event → bool;
  docker_compose_down : list event → docker_result;
  fetch_cycle : list event → option unit;
  boot_time : Z
}.

(** A computation reads the trace so far, extends it, and returns or
    raises. *)
Definition M (A : Type) : Type := list event → res A * list event.

Definition ret {A : Type} (a : A) : M A := fun tr => (Ok a, tr).

Definition bind {A B : Type} (m : M A) (k : A → M B) : M B :=
  fun tr =>
    match m tr with
    | (Ok a, tr') => k a tr'
    | (Err e, tr') => (Err e, tr')
    end.

Definition raise {A : Type} (e : exn) : M A := fun tr => (Err e, tr).

Definition lift {A : Type} (r : res A) : M A := fun tr => (r, tr).

(** [try: m except Exception: handler]; [SystemExit] passes through. *)
Definition try_except {A : Type} (m : M A) (handler : M A) : M A :=
  fun tr =>
    match m tr with
    | (Err Exception, tr') => handler tr'
    | r => r
    end.

(** [try: m finally: f] *)
Definition try_finally {A : Type} (m : M A) (f : M unit) : M A :=
  fun tr =>
    match m tr with
    | (r, tr') =>
        match f tr' with
        | (Ok _, tr'') => (r, tr'')
        | (Err e, tr'') => (Err e, tr'')
        end
    end.

Definition sleep (ms : Z) : M unit := fun tr => (Ok tt, tr ++ [Sleep ms]).

(** [for _ in range(n): time.sleep(ms)] *)
Fixpoint sleeps (n : nat) (ms : Z) : M unit :=
  match n with
  | O => ret tt
  | S n' => bind (sleep ms) (fun _ => sleeps n' ms)
  end.

Definition emit (e : event) : M unit := fun tr => (Ok tt, tr ++ [e]).

Definition remove (path : string) : M unit := emit (Remove path).

(** The result of a call to a collaborator. *)
Definition answer {A : Type} (o : option A) : res A :=
  match o with
  | Some a => Ok a
  | None => Raise
  end.

Definition call_lark (w : world) (c : content) : M value :=
  fun tr =>
    let r := answer (push_to_Lark_Channel w tr c) in
    (r, tr ++ [LarkPush c r]).

Definition call_woo (w : world) (txn : dict) : M value :=
  fun tr =>
    let r := answer (process_woo_transaction w tr txn) in
    (r, tr ++ [WooProcess txn r]).

(** The pushes of a trace, in the order they were made. *)
Definition pushes (tr : list event) : list content :=
  omap (fun e => match e with LarkPush c _ => Some c | _ => None end) tr.

(** The order-system calls of a trace. *)
Definition woo_calls (tr : list event) : list dict :=
  omap (fun e => match e with WooProcess t _ => Some t | _ => None end) tr.

(** The time slept in a trace, in milliseconds. *)
Definition elapsed (tr : list event) : Z :=
  foldr (fun e acc => match e with Sleep ms => ms + acc | _ => acc end) 0 tr.

(** Truth value of what [os.getenv] returns. *)
Definition env_set (w : world) (name : string) : bool :=
  match getenv w name with
  | Some s => nonempty s
  | None => false
  end.

End Eff.

Import Eff.

#[global] Instance M_ret : MRet M := @ret.
#[global] Instance M_bind : MBind M := fun A B k m => bind m k.

(** ** The forwarder *)

Module Forwarder.

Definition NGAY_GIAO_DICH : string := "NGÀY GIAO DỊCH".
Definition PHAT_SINH_CO : string := "PHÁT SINH CÓ".
Definition PHAT_SINH_NO : string := "PHÁT SINH NỢ".
Definition NOI_DUNG : string := "NỘI DUNG".

(** The message of one transaction. *)
Definition content_of (txn : dict) : content :=
  let trans_date := get txn NGAY_GIAO_DICH (VStr "N/A") in
  let credit_amount := get txn PHAT_SINH_CO (VStr "0") in
  let debit_amount := get txn PHAT_SINH_NO (VStr "0") in
  let trans_ref := get txn Dedup.SO_BUT_TOAN (VStr "N/A") in
  let description := get txn NOI_DUNG (VStr "N/A") in
  if ne_str credit_amount "0" then
    Credit credit_amount trans_date description trans_ref
  else if ne_str debit_amount "0" then
    Debit debit_amount trans_date description trans_ref
  else Other trans_date description trans_ref.

(** [result and isinstance(result, dict) and result.get("code") == 0] *)
Definition pushed (result : value) : bool :=
  match result with
  | VDict d => eq_zero (get d "code" VNone)
  | _ => false
  end.

(** The loop of [push_transactions_to_lark_v2]: the call to the channel is
    not under a [try], so an exception it raises leaves the loop. *)
Fixpoint push_loop (w : world) (transactions : list dict)
  (success_count : nat) : M nat :=
  match transactions with
  | [] => ret success_count
  | txn :: rest =>
      result ← call_lark w (content_of txn);
      sleep 500;;
      push_loop w rest
        (if pushed result then S success_count else success_count)
  end.

(** [push_transactions_to_lark_v2]. [transactions.reverse()] reverses the
    caller's list in place: the second component is that list after the
    call. *)
Definition push_transactions_to_lark_v2 (w : world) (transactions : list dict)
  : M (bool * list dict) :=
  match transactions with
  | [] => ret (true, transactions)
  | _ =>
      let transactions := rev transactions in
      success_count ← push_loop w transactions 0;
      ret (Nat.ltb 0 success_count, transactions)
  end.

(** The loop of [process_woocommerce_transactions]: each call is under its
    own [try]. *)
Fixpoint woo_loop (w : world) (transactions : list dict) : M unit :=
  match transactions with
  | [] => ret tt
  | txn :: rest =>
      (if ne_str (get txn PHAT_SINH_CO (VStr "0")) "0" then
         try_except (call_woo w txn;; ret tt) (ret tt)
       else ret tt);;
      woo_loop w rest
  end.

Definition process_woocommerce_transactions (w : world)
  (transactions : list dict) : M unit :=
  match transactions with
  | [] => ret tt
  | _ =>
      if negb (env_set w "WOO_CONSUMER_KEY")
         || negb (env_set w "WOO_CONSUMER_SECRET")
      then ret tt
      else woo_loop w transactions
  end.

(** [cleanup_data_directory(except_files=[newest_file])]: every matched file
    but the newest is removed; a failing [os.remove] is logged and skipped. *)
Fixpoint cleanup_data_directory (files_to_delete : list Dedup.file) : M unit :=
  match files_to_delete with
  | [] => ret tt
  | f :: rest => remove (Dedup.path f);; cleanup_data_directory rest
  end.

(** The second half of [find_unique_transactions_v2], under its [try]. *)
Definition process_newest (w : world) (old_files : list Dedup.file)
  (old_transaction_ids : list string) (newest_file : Dedup.file) : M bool :=
  match Dedup.file_data newest_file with
  | None => raise Exception
  | Some (VDict newest_data) =>
      match Dedup.transactions_of newest_data with
      | VList new_transactions =>
          unique_transactions ←
            lift (Dedup.unique_loop old_transaction_ids new_transactions []);
          match unique_transactions with
          | [] => ret tt
          | _ =>
              r ← push_transactions_to_lark_v2 w unique_transactions;
              if (r : bool * list dict).1
              then process_woocommerce_transactions w r.2
              else ret tt
          end;;
          cleanup_data_directory old_files;;
          ret true
      | _ => ret false
      end
  | Some _ => ret false
  end.

Definition find_unique_transactions_v2 (w : world)
  (transaction_files : list Dedup.file) : M bool :=
  match Dedup.newest_of transaction_files with
  | None => ret false
  | Some newest_file =>
      let old_files := Dedup.old_files_of transaction_files newest_file in
      let old_transaction_ids := Dedup.old_transaction_ids_of old_files in
      try_except
        (process_newest w old_files old_transaction_ids newest_file)
        (ret false)
  end.

(** The channel answers every push: it returns a result, which may well say
    that the push failed, and does not raise. *)
Definition lark_returns (w : world) : Prop :=
  ∀ tr c, ∃ v, push_to_Lark_Channel w tr c = Some v.

(** An event that is a push the channel accepted. *)
Definition push_ok (e : event) : Prop :=
  ∃ c v, e = LarkPush c (Ok v) ∧ pushed v = true.

(** The transactions the order loop hands to the order system. *)
Definition is_credit (txn : dict) : Prop :=
  ne_str (get txn PHAT_SINH_CO (VStr "0")) "0" = true.

End Forwarder.

(** ** Login: [mb_actions.log_in_v2] *)

Module Login.

Definition is_digit (c : ascii) : bool :=
  (48 <=? nat_of_ascii c)%nat && (nat_of_ascii c <=? 57)%nat.

(** The digits of a decimal literal; one underscore may separate two
    digits. *)
Fixpoint parse_digits (s : string) (acc : Z) (after_digit : bool)
  : option Z :=
  match s with
  | EmptyString => if after_digit then Some acc else None
  | String c s' =>
      if is_digit c then
        parse_digits s' (10 * acc + Z.of_nat (nat_of_ascii c - 48)) true
      else if Ascii.eqb c "_" && after_digit then parse_digits s' acc false
      else None
  end.

(** [int(s)] on a [str]: blanks around, a sign, decimal digits; anything
    else raises [ValueError]. Digits outside ASCII are not modelled. *)
Definition int (s : string) : res Z :=
  let body (t : string) (sign : Z) : res Z :=
    match parse_digits t 0 false with
    | Some n => Ok (sign * n)
    | None => Raise
    end in
  match strip s with
  | String "-" t => body t (-1)
  | String "+" t => body t 1
  | t => body t 1
  end.

(** [int(os.getenv("MB_LOGIN_MAX_ATTEMPTS", "3"))] *)
Definition max_attempts_of (w : world) : res Z :=
  int (default "3" (getenv w "MB_LOGIN_MAX_ATTEMPTS")).

(** How one pass through the body of the [for] loop ends. *)
Inductive step : Type :=
| Continue
| Return (b : bool).

(** The decision on the text of the error dialog. *)
Definition decide_on (error_text : string) : step :=
  if contains "GW715" error_text then Continue
  else if contains "GW18" error_text then Return false
  else Return false.

Definition navigate (w : world) : M page :=
  fun tr => let p := portal w tr in (Ok p, tr ++ [Navigate p]).

(** One attempt: the page is loaded anew, the captcha shown on it is read,
    the form is sent, the outcome is looked at. The pauses inside an attempt
    are left out. *)
Definition attempt_body (w : world) (max_attempts attempt : Z) : M step :=
  p ← navigate w;
  match p with
  | Unreachable => raise Exception
  | NoCaptcha =>
      ret (if attempt >=? max_attempts - 1 then Return false else Continue)
  | NoImage => ret Continue
  | CaptchaFails => emit ReadCaptcha;; ret Continue
  | FormFails => emit ReadCaptcha;; ret Continue
  | SignedIn => emit ReadCaptcha;; emit SignIn;; ret (Return true)
  | ErrorDialog text =>
      emit ReadCaptcha;; emit SignIn;;
      let error_text := strip text in
      ret (if nonempty error_text then decide_on error_text else Continue)
  | NoErrorDialog => emit ReadCaptcha;; emit SignIn;; ret Continue
  | CheckFails => emit ReadCaptcha;; emit SignIn;; ret Continue
  end.

(** [for attempt in range(max_attempts)], then [return False]. *)
Fixpoint login_loop (w : world) (max_attempts : Z) (remaining : nat)
  (attempt : Z) : M bool :=
  match remaining with
  | O => ret false
  | S remaining' =>
      s ← attempt_body w max_attempts attempt;
      match s with
      | Continue => login_loop w max_attempts remaining' (attempt + 1)
      | Return b => ret b
      end
  end.

Definition log_in_v2 (w : world) : M bool :=
  max_attempts ← lift (max_attempts_of w);
  emit LoginStart;;
  login_loop w max_attempts (Z.to_nat max_attempts) 0.

(** The events of an attempt on which the portal shows [p]. *)
Definition attempt_events (p : page) : list event :=
  match p with
  | Unreachable | NoCaptcha | NoImage => [Navigate p]
  | CaptchaFails | FormFails => [Navigate p; ReadCaptcha]
  | _ => [Navigate p; ReadCaptcha; SignIn]
  end.





(** The attempts, the captcha readings and the login calls of a trace. *)
Definition navigations (tr : list event) : list page :=
  omap (fun e => match e with Navigate p => Some p | _ => None end) tr.

Definition attempts (tr : list event) : nat := length (navigations tr).


Definition logins (tr : list event) : nat :=
  length (omap (fun e => match e with LoginStart => Some tt | _ => None end)
            tr).

End Login.

(** ** The scheduler loop: [run_scheduler] *)

Module Scheduler.

(** The module-level variables of [schedule_module] and the local variables
    of [run_scheduler]. Times are in milliseconds on the fake clock; the two
    intervals are in seconds, as in the source. *)
Record sched : Type := Sched {
  webdriver_instance : bool;
  last_transaction_fetch_time : option Z;
  processing_transactions : bool;
  recovery_in_progress : bool;
  transaction_interval : Z;
  session_restart_interval : Z;
  start_time : Z;
  session_start_time : Z;
  last_health_check : Z;
  heartbeat_counter : nat
}.

Definition set_webdriver (b : bool) (s : sched) : sched :=
  Sched b (last_transaction_fetch_time s) (processing_transactions s)
    (recovery_in_progress s) (transaction_interval s)
    (session_restart_interval s) (start_time s) (session_start_time s)
    (last_health_check s) (heartbeat_counter s).

Definition set_last_fetch (t : option Z) (s : sched) : sched :=
  Sched (webdriver_instance s) t (processing_transactions s)
    (recovery_in_progress s) (transaction_interval s)
    (session_restart_interval s) (start_time s) (session_start_time s)
    (last_health_check s) (heartbeat_counter s).

Definition set_processing (b : bool) (s : sched) : sched :=
  Sched (webdriver_instance s) (last_transaction_fetch_time s) b
    (recovery_in_progress s) (transaction_interval s)
    (session_restart_interval s) (start_time s) (session_start_time s)
    (last_health_check s) (heartbeat_counter s).

Definition set_recovery (b : bool) (s : sched) : sched :=
  Sched (webdriver_instance s) (last_transaction_fetch_time s)
    (processing_transactions s) b (transaction_interval s)
    (session_restart_interval s) (start_time s) (session_start_time s)
    (last_health_check s) (heartbeat_counter s).

Definition set_session_start (t : Z) (s : sched) : sched :=
  Sched (webdriver_instance s) (last_transaction_fetch_time s)
    (processing_transactions s) (recovery_in_progress s)
    (transaction_interval s) (session_restart_interval s) (start_time s) t
    (last_health_check s) (heartbeat_counter s).

Definition set_last_health_check (t : Z) (s : sched) : sched :=
  Sched (webdriver_instance s) (last_transaction_fetch_time s)
    (processing_transactions s) (recovery_in_progress s)
    (transaction_interval s) (session_restart_interval s) (start_time s)
    (session_start_time s) t (heartbeat_counter s).

Definition bump_heartbeat (s : sched) : sched :=
  Sched (webdriver_instance s) (last_transaction_fetch_time s)
    (processing_transactions s) (recovery_in_progress s)
    (transaction_interval s) (session_restart_interval s) (start_time s)
    (session_start_time s) (last_health_check s) (S (heartbeat_counter s)).

(** A computation of the scheduler: the variables survive an exception. *)
Definition SM (A : Type) : Type :=
  sched → list event → res A * sched * list event.

Definition sm_ret {A : Type} (a : A) : SM A := fun s tr => (Ok a, s, tr).

Definition sm_bind {A B : Type} (m : SM A) (k : A → SM B) : SM B :=
  fun s tr =>
    match m s tr with
    | (Ok a, s', tr') => k a s' tr'
    | (Err e, s', tr') => (Err e, s', tr')
    end.

#[global] Instance SM_ret : MRet SM := @sm_ret.
#[global] Instance SM_bind : MBind SM := fun A B k m => sm_bind m k.

Definition run {A : Type} (m : M A) : SM A :=
  fun s tr => let (r, tr') := m tr in (r, s, tr').

Definition get_vars : SM sched := fun s tr => (Ok s, s, tr).

Definition update (f : sched → sched) : SM unit :=
  fun s tr => (Ok tt, f s, tr).

(** [sys.exit(code)] *)
Definition exit {A : Type} (code : Z) : SM A :=
  fun s tr => (Err (SystemExit code), s, tr).

(** [time.time()]: the fake clock, started at [boot_time] and advanced by
    the pauses only. *)
Definition clock (w : world) (tr : list event) : Z := boot_time w + elapsed tr.

Definition now (w : world) : SM Z := fun s tr => (Ok (clock w tr), s, tr).

(** [try: m except Exception: handler] *)
Definition try_except {A : Type} (m handler : SM A) : SM A :=
  fun s tr =>
    match m s tr with
    | (Err Exception, s', tr') => handler s' tr'
    | r => r
    end.

(** [try: m except: pass], which catches [SystemExit] too. *)
Definition try_pass (m : SM unit) : SM unit :=
  fun s tr =>
    match m s tr with
    | (_, s', tr') => (Ok tt, s', tr')
    end.

(** [try: m finally: f] *)
Definition try_finally {A : Type} (m : SM A) (f : SM unit) : SM A :=
  fun s tr =>
    match m s tr with
    | (r, s', tr') =>
        match f s' tr' with
        | (Ok _, s'', tr'') => (r, s'', tr'')
        | (Err e, s'', tr'') => (Err e, s'', tr'')
        end
    end.

(** [os.getenv] of the three variables [validate_environment] requires. *)
Definition validate_environment (w : world) : SM unit :=
  if env_set w "MB_USERNAME" && env_set w "MB_PASSWORD"
     && env_set w "MB_CORP_ID"
  then sm_ret tt
  else exit 1.

(** [driver.init_driver()]: a driver object, or [None]. *)
Definition call_init_driver (w : world) : SM bool :=
  fun s tr =>
    (Ok (init_driver w tr), s, tr ++ [InitDriver (init_driver w tr)]).

Definition initialize_driver (w : world) : SM unit :=
  ok ← call_init_driver w;
  update (set_webdriver ok);;
  if ok : bool then sm_ret tt else exit 1.

(** [driver.close_driver()] catches what [quit] raises. *)
Definition close_driver : SM unit := run (emit CloseDriver).

(** [mb_actions.log_out] only logs. *)
Definition log_out : SM unit := run (emit LogOut).

Definition alert (w : world) (c : content) : SM value := run (call_lark w c).

Definition call_docker_down (w : world) : SM docker_result :=
  fun s tr =>
    (Ok (docker_compose_down w tr), s,
     tr ++ [DockerDown (docker_compose_down w tr)]).

(** [docker-compose down], with [os.system] as the fallback. *)
Definition docker_down (w : world) : SM unit :=
  r ← call_docker_down w;
  match r : docker_result with
  | DockerOk => sm_ret tt
  | _ => run (emit DockerDownFallback)
  end.

Definition shutdown_environment (w : world) (force_docker_shutdown : bool)
  : SM unit :=
  s ← get_vars;
  (if webdriver_instance s then
     log_out;; close_driver;; update (set_webdriver false)
   else sm_ret tt);;
  if force_docker_shutdown then docker_down w else sm_ret tt.

Definition truthy_id (session_id : option string) : bool :=
  match session_id with
  | Some id => nonempty id
  | None => false
  end.

Definition call_check_session (w : world) : SM (option string) :=
  fun s tr => (Ok (check_session w tr), s,
               tr ++ [CheckSession (check_session w tr)]).

(** [restart_session()], always called without a delay. *)
Definition restart_session (w : world) : SM bool :=
  s ← get_vars;
  (if webdriver_instance s then log_out;; close_driver else sm_ret tt);;
  update (set_webdriver false);;
  initialize_driver w;;
  login_success ← run (Login.log_in_v2 w);
  if login_success : bool then
    session_id ← call_check_session w;
    sm_ret (truthy_id session_id)
  else
    alert w (Text "Session restart failed - log_in_v2 refused login");;
    sm_ret false.

(** The recovery, under its [try]: the session held is given up, *)
Definition recovery_teardown : SM unit :=
  s ← get_vars;
  if webdriver_instance s then
    try_pass (log_out;; run (sleep 2000));;
    close_driver;;
    update (set_webdriver false)
  else sm_ret tt.

(** a refused login is reported, the environment is shut down and the
    process exits, *)
Definition recovery_failed (w : world) : SM unit :=
  t ← now w;
  try_except (alert w (RecoveryFailedAt t);; sm_ret tt) (sm_ret tt);;
  shutdown_environment w true;;
  exit 1.

(** and between the two there is one call of [log_in_v2]. *)
Definition recovery_attempt (w : world) : SM unit :=
  recovery_teardown;;
  run (sleep 5000);;
  initialize_driver w;;
  recovery_success ← run (Login.log_in_v2 w);
  if recovery_success : bool then
    t ← now w;
    update (set_session_start t)
  else recovery_failed w.

(** The health check of one pass of the loop. *)
Definition health_check_block (w : world) (current_time : Z) : SM unit :=
  s ← get_vars;
  if (10000 <=? current_time - last_health_check s)
     && negb (recovery_in_progress s)
  then
    update (set_last_health_check current_time);;
    session_id ← call_check_session w;
    if truthy_id session_id then sm_ret tt
    else
      update (set_recovery true);;
      run (sleeps 3 60000);;
      try_finally
        (try_except (recovery_attempt w)
           (shutdown_environment w true;; exit 1))
        (update (set_recovery false);; run (sleep 10000))
  else sm_ret tt.

Definition call_fetch_cycle (w : world) : SM unit :=
  fun s tr =>
    let r := answer (fetch_cycle w tr) in (r, s, tr ++ [FetchCycle r]).

(** The fetch of one pass of the loop. The two calls of the cycle,
    [fetch_transactions_with_active_session_v2] and
    [find_unique_transactions_v2], are one call to the world here. *)
Definition fetch_block (w : world) (current_time : Z) : SM unit :=
  session_id ← call_check_session w;
  s ← get_vars;
  let fetch_due :=
    match last_transaction_fetch_time s with
    | None => true
    | Some last => transaction_interval s * 1000 <=? current_time - last
    end in
  if match session_id with Some _ => true | None => false end
     && fetch_due && negb (processing_transactions s)
     && negb (recovery_in_progress s)
  then
    t ← now w;
    update (set_last_fetch (Some t));;
    update (set_processing true);;
    try_finally
      (try_except (call_fetch_cycle w)
         (t' ← now w;
          update (set_last_fetch
                    (Some (t' - (transaction_interval s - 5) * 1000)))))
      (update (set_processing false))
  else sm_ret tt.

(** The body of [while True], under its [try]. *)
Definition iteration (w : world) : SM unit :=
  current_time ← now w;
  s ← get_vars;
  let elapsed_time := Z.quot (current_time - start_time s) 1000 in
  let session_elapsed_time :=
    Z.quot (current_time - session_start_time s) 1000 in
  (if (Z.rem elapsed_time 300 =? 0) && (0 <? elapsed_time)
   then update bump_heartbeat;; run (emit Heartbeat)
   else sm_ret tt);;
  (if session_restart_interval s <=? session_elapsed_time
   then
     restarted ← restart_session w;
     if restarted : bool then
       t ← now w;
       update (set_session_start t)
     else shutdown_environment w true;; exit 1
   else sm_ret tt);;
  health_check_block w current_time;;
  fetch_block w current_time;;
  run (sleep 500).

(** [except Exception as loop_error] *)
Definition loop_error_handler (w : world) : SM unit :=
  run (sleeps 3 60000);;
  s ← get_vars;
  if negb (recovery_in_progress s) then
    restarted ← restart_session w;
    if restarted : bool then
      t ← now w;
      update (set_session_start t)
    else shutdown_environment w true;; exit 1
  else sm_ret tt.

(** The first [n] passes of [while True]. *)
Fixpoint passes (w : world) (n : nat) : SM unit :=
  match n with
  | O => sm_ret tt
  | S n' => try_except (iteration w) (loop_error_handler w);; passes w n'
  end.

(** What precedes the loop. *)
Definition startup (w : world) : SM unit :=
  validate_environment w;;
  transaction_interval ←
    run (lift (Login.int (default "20" (getenv w "TRANSACTION_FETCH_INTERVAL"))));
  restart_interval_minutes ←
    run (lift (Login.int (default "10" (getenv w "SESSION_RESTART_MINUTES"))));
  initialize_driver w;;
  login_success ← run (Login.log_in_v2 w);
  if login_success : bool then
    t ← now w;
    update (fun s =>
              Sched (webdriver_instance s) (last_transaction_fetch_time s)
                (processing_transactions s) (recovery_in_progress s)
                transaction_interval (restart_interval_minutes * 60) t t 0 0)
  else
    alert w (Text "INITIAL LOGIN FAILED - STOPPING PROCESS");;
    shutdown_environment w true;;
    exit 1.

(** [run_scheduler], observed after [n] passes of its loop: the loop is left
    by an exception only, and the outer handlers run then. *)
Definition run_scheduler (w : world) (n : nat) : SM unit :=
  fun s tr =>
    match (startup w;; passes w n) s tr with
    | (Ok tt, s', tr') => (Ok tt, s', tr')
    | (Err e, s', tr') =>
        try_finally
          (try_except (fun s tr => (Err e, s, tr))
             (shutdown_environment w true;; exit 1))
          (shutdown_environment w false) s' tr'
    end.

(** The state of the module when it is loaded. *)
Definition initial : sched :=
  Sched false None false false 0 0 0 0 0 0.

(** The events of the teardown that opens a recovery. *)
Definition teardown_events (s : sched) : list event :=
  if webdriver_instance s then [LogOut; Sleep 2000; CloseDriver] else [].

(** The events of [shutdown_environment(force_docker_shutdown=True)]. *)
Definition shutdown_events (w : world) (held : bool) (tr : list event)
  : list event :=
  let closing := if held then [LogOut; CloseDriver] else [] in
  let d := docker_compose_down w (tr ++ closing) in
  closing ++ DockerDown d
    :: match d with DockerOk => [] | _ => [DockerDownFallback] end.

(** The variables once the session held has been given up. *)
Definition given_up (s : sched) : sched :=
  if webdriver_instance s then set_webdriver false s else s.

(** The alert of a failed recovery, pushed after the trace [tr]. *)
Definition failure_alert (w : world) (tr : list event) : event :=
  LarkPush (RecoveryFailedAt (clock w tr))
    (answer (push_to_Lark_Channel w tr (RecoveryFailedAt (clock w tr)))).

(** The health checks of a trace. *)
Definition health_checks (tr : list event) : list (option string) :=
  omap (fun e => match e with CheckSession r => Some r | _ => None end) tr.

End Scheduler.

(** ** Sample data *)

Module Samples.

Import Dedup Forwarder.

(** *** Batches *)

Definition tx (id credit : string) : transaction :=
  {[ SO_BUT_TOAN := id; PHAT_SINH_CO := credit ]}.

Definition batch_file (p : string) (m : Z) (txs : list transaction) : file :=
  File p m
    (Some (VDict {[ "status" := VStr "success";
                    TRANSACTIONS := VList ((VDict ∘ encode_txn) <$> txs) ]})).

Definition older : list transaction := [tx "FT001" "1,000"; tx "" "5"].
Definition newest : list transaction :=
  [tx "FT003" "0"; tx " FT001 " "1,000"; tx "FT002" "2,000"; tx "" "7";
   tx "FT002" "2,000"].

Definition store : list file :=
  [batch_file "mb_biz_transactions_1.json" 10 older;
   batch_file "mb_biz_transactions_2.json" 20 newest].

Definition first_store : list file :=
  [batch_file "mb_biz_transactions_1.json" 10 older].

(** *** A strict instance of the host library

    Texts of fixed width with ASCII digits, and the fixed offset +07:00 that
    Asia/Ho_Chi_Minh has had since 1975. *)

Definition digit_at (text : string) (i : nat) : option Z :=
  match String.get i text with
  | Some c => if Login.is_digit c then Some (Z.of_nat (nat_of_ascii c - 48))
              else None
  | None => None
  end.

Definition number_at (text : string) (i width : nat) : option Z :=
  foldl (fun acc j =>
           match acc, digit_at text (i + j) with
           | Some n, Some d => Some (10 * n + d)
           | _, _ => None
           end) (Some 0) (seq 0 width).

Definition char_at (text : string) (i : nat) (c : ascii) : bool :=
  match String.get i text with
  | Some c' => Ascii.eqb c c'
  | None => false
  end.

Definition leap (y : Z) : bool :=
  (y mod 4 =? 0) && (negb (y mod 100 =? 0) || (y mod 400 =? 0)).

Definition days_in_month (y m : Z) : Z :=
  if m =? 2 then (if leap y then 29 else 28)
  else if (m =? 4) || (m =? 6) || (m =? 9) || (m =? 11) then 30 else 31.

(** Days from 1970-01-01 to the civil date. *)
Definition days_from_civil (y m d : Z) : Z :=
  let y' := if m <=? 2 then y - 1 else y in
  let era := y' / 400 in
  let yoe := y' - era * 400 in
  let doy := (153 * (if 2 <? m then m - 3 else m + 9) + 2) / 5 + d - 1 in
  let doe := yoe * 365 + yoe / 4 - yoe / 100 + doy in
  era * 146097 + doe - 719468.

(** The civil date and the time of day of a time. *)
Definition civil (t : Z) : Z * Z * Z * (Z * Z * Z) :=
  let days := t / 86400 in
  let secs := t mod 86400 in
  let z := days + 719468 in
  let era := z / 146097 in
  let doe := z - era * 146097 in
  let yoe := (doe - doe / 1460 + doe / 36524 - doe / 146096) / 365 in
  let doy := doe - (365 * yoe + yoe / 4 - yoe / 100) in
  let mp := (5 * doy + 2) / 153 in
  let d := doy - (153 * mp + 2) / 5 + 1 in
  let m := if mp <? 10 then mp + 3 else mp - 9 in
  let y := yoe + era * 400 + (if m <=? 2 then 1 else 0) in
  (y, m, d, (secs / 3600, secs mod 3600 / 60, secs mod 60)).

Definition timestamp_of (y m d hh mm ss : option Z) : option Z :=
  match y, m, d, hh, mm, ss with
  | Some y, Some m, Some d, Some hh, Some mm, Some ss =>
      if (1 <=? m) && (m <=? 12) && (1 <=? d) && (d <=? days_in_month y m)
         && (hh <? 24) && (mm <? 60) && (ss <? 60) && (1 <=? y)
      then Some (days_from_civil y m d * 86400 + hh * 3600 + mm * 60 + ss)
      else None
  | _, _, _, _, _, _ => None
  end.

Definition strict_strptime (text format : string) : option Z :=
  if String.eqb format "%Y-%m-%d %H:%M:%S" then
    if (String.length text =? 19)%nat && char_at text 4 "-"
       && char_at text 7 "-" && char_at text 10 " " && char_at text 13 ":"
       && char_at text 16 ":"
    then timestamp_of (number_at text 0 4) (number_at text 5 2)
           (number_at text 8 2) (number_at text 11 2) (number_at text 14 2)
           (number_at text 17 2)
    else None
  else if String.eqb format "%d/%m/%Y %H:%M:%S" then
    if (String.length text =? 19)%nat && char_at text 2 "/"
       && char_at text 5 "/" && char_at text 10 " " && char_at text 13 ":"
       && char_at text 16 ":"
    then timestamp_of (number_at text 6 4) (number_at text 3 2)
           (number_at text 0 2) (number_at text 11 2) (number_at text 14 2)
           (number_at text 17 2)
    else None
  else if String.eqb format "%d/%m/%Y %H:%M" then
    if (String.length text =? 16)%nat && char_at text 2 "/"
       && char_at text 5 "/" && char_at text 10 " " && char_at text 13 ":"
    then timestamp_of (number_at text 6 4) (number_at text 3 2)
           (number_at text 0 2) (number_at text 11 2) (number_at text 14 2)
           (Some 0)
    else None
  else if String.eqb format "%d/%m/%Y" then
    if (String.length text =? 10)%nat && char_at text 2 "/"
       && char_at text 5 "/"
    then timestamp_of (number_at text 6 4) (number_at text 3 2)
           (number_at text 0 2) (Some 0) (Some 0) (Some 0)
    else None
  else None.

Definition digit_char (n : Z) : string :=
  String (ascii_of_nat (48 + Z.to_nat (n mod 10))) EmptyString.

Definition two (n : Z) : string := digit_char (n / 10) +:+ digit_char n.

Definition four (n : Z) : string := two (n / 100) +:+ two (n mod 100).

Definition strict_strftime (t : Z) (format : string) : string :=
  match civil t with
  | (y, m, d, (hh, mm, ss)) =>
      if String.eqb format "%d/%m/%Y %H:%M" then
        two d +:+ "/" +:+ two m +:+ "/" +:+ four y +:+ " " +:+ two hh
          +:+ ":" +:+ two mm
      else if String.eqb format "%Y-%m-%d %H:%M:%S" then
        four y +:+ "-" +:+ two m +:+ "-" +:+ two d +:+ " " +:+ two hh
          +:+ ":" +:+ two mm +:+ ":" +:+ two ss
      else if String.eqb format "%d-%m-%Y %H:%M:%S" then
        two d +:+ "-" +:+ two m +:+ "-" +:+ four y +:+ " " +:+ two hh
          +:+ ":" +:+ two mm +:+ ":" +:+ two ss
      else if String.eqb format "%Y%m%d_%H%M%S" then
        four y +:+ two m +:+ two d +:+ "_" +:+ two hh +:+ two mm +:+ two ss
      else ""
  end.

(** Its [json.dump] writes one piece per entry of a list, which is enough
    to tell a whole file from a part of it. *)
Definition strict_dump (data : value) : list string :=
  match data with
  | VDict d =>
      match d !! Dedup.TRANSACTIONS with
      | Some (VList l) => "{" :: ((fun _ => "txn,") <$> l) ++ ["}"]
      | _ => ["{"; "}"]
      end
  | _ => ["null"]
  end.

Definition strict : lib :=
  Lib strict_strptime (fun _ => None) strict_strftime
    (fun wall => wall - 25200) (fun instant => instant + 25200) strict_dump.

(** A batch file as [save_transactions_to_file] and the empty marker write
    it, as far as the watermark reads it. *)
Definition stamped_file (p : string) (m : Z) (timestamp_str : string)
  (txs : list transaction) : file :=
  File p m
    (Some (VDict {[ Watermark.TIMESTAMP := VStr timestamp_str;
                    TRANSACTIONS := VList ((VDict ∘ encode_txn) <$> txs) ]})).

Definition dated (id date : string) : transaction :=
  {[ SO_BUT_TOAN := id; Watermark.NGAY_GIAO_DICH := date ]}.

Definition accepted : value := VDict {[ "code" := VInt 0 ]}.
Definition refused : value := VDict {[ "code" := VInt 230002 ]}.

(** *** Worlds

    A world with the given channel: no variable is set, so no order system
    is configured; the portal signs in and the session stays alive. *)
Definition with_channel (lark : list event → content → option value)
  : world :=
  World (fun _ => None) lark (fun _ _ => Some VNone)
    (fun _ => SignedIn) (fun _ => Some "session") (fun _ => true)
    (fun _ => DockerOk) (fun _ => Some tt) 1793674800000.

(** A channel that accepts every push. *)
Definition calm : world := with_channel (fun _ _ => Some accepted).

(** A channel whose second call raises (a connection error). *)
Definition second_push_raises : world :=
  with_channel
    (fun tr _ => if decide (length (pushes tr) = 1%nat) then None
                 else Some accepted).

(** A channel that refuses the second push: it returns an error code. *)
Definition second_push_refused : world :=
  with_channel
    (fun tr _ => if decide (length (pushes tr) = 1%nat) then Some refused
                 else Some accepted).


(** A portal that reports a locked account on the first attempt. *)
Definition locked : world :=
  World (fun _ => None) (fun _ _ => Some accepted) (fun _ _ => Some VNone)
    (fun _ => ErrorDialog "GW18 - Tài khoản tạm khóa")
    (fun _ => Some "session") (fun _ => true)
    (fun _ => DockerOk) (fun _ => Some tt) 1793674800000.

(** The session is found dead and the portal refuses the recovery login:
    the account is locked. *)
Definition dead_and_locked : world :=
  World (fun _ => None) (fun _ _ => Some accepted) (fun _ _ => Some VNone)
    (fun _ => ErrorDialog "GW18 - Tài khoản tạm khóa")
    (fun _ => None) (fun _ => true)
    (fun _ => DockerOk) (fun _ => Some tt) 1793674800000.

(** The scheduler in the middle of a run: a session is held, the last
    health check is more than ten seconds old. *)
Definition running : Scheduler.sched :=
  Scheduler.Sched true (Some 1793674800000) false false 20 600
    1793674800000 1793674800000 1793674800000 0.

(** A whole run: the variables are set, the first login goes through, the
    session is lost twelve seconds later and the account is locked then. *)
Definition lost_after_12s : world :=
  World
    (fun name =>
       if decide (name ∈ ["MB_USERNAME"; "MB_PASSWORD"; "MB_CORP_ID"])
       then Some "set" else None)
    (fun _ _ => Some accepted)
    (fun _ _ => Some VNone)
    (fun tr => if decide (elapsed tr < 12000) then SignedIn
               else ErrorDialog "GW18 - Tài khoản tạm khóa")
    (fun tr => if decide (elapsed tr < 12000) then Some "session" else None)
    (fun _ => true) (fun _ => DockerOk) (fun _ => Some tt) 1793674800000.

(** The store one cycle after the push of [newest] was cut short: nothing
    was pruned, and the next fetch has returned the same transactions. *)
Definition store_after_failure : list file :=
  store ++ [batch_file "mb_biz_transactions_3.json" 30 newest].

Definition three : list dict :=
  encode_txn <$> [tx "FT003" "3"; tx "FT002" "2"; tx "FT001" "1"].

End Samples.

(** ** What the store holds for the forwarder, as a filter *)

Module Filtering.

Import Dedup.

(** The dictionary entries of a list. *)
Definition dicts (l : list value) : list dict :=
  omap (fun v => match v with VDict d => Some d | _ => None end) l.

(** An entry the loop of [find_unique_transactions_v2] keeps. *)
Definition kept (old_transaction_ids : list string) (txn : dict) : bool :=
  match txn_id_of txn with
  | Ok txn_id =>
      nonempty txn_id && negb (bool_decide (txn_id ∈ old_transaction_ids))
  | Err _ => false
  end.

(** An entry whose identifier can be read. *)
Definition readable (txn : dict) : bool :=
  match txn_id_of txn with
  | Ok _ => true
  | Err _ => false
  end.

End Filtering.

(** ** What a run of the forwarder removes *)

Module Pruning.

Import Dedup.

(** The files removed in a trace, in the order they were removed. *)
Definition removals (tr : list event) : list string :=
  omap (fun e => match e with Remove p => Some p | _ => None end) tr.

(** The files [find_unique_transactions_v2] may prune. *)
Definition prunable (transaction_files : list file) : list file :=
  match newest_of transaction_files with
  | Some newest_file => old_files_of transaction_files newest_file
  | None => []
  end.

(** The order system is configured. *)
Definition woo_configured (w : world) : bool :=
  env_set w "WOO_CONSUMER_KEY" && env_set w "WOO_CONSUMER_SECRET".

End Pruning.

(** ** Postconditions of the scheduler's computations *)

Module Triples.

Import Scheduler.

(** What a computation of the scheduler establishes from the variables [s]
    and the trace [tr]: [Q] of its result and the variables when it returns,
    [E] of the exception and the variables when it raises. *)
Definition wp {A : Type} (m : SM A) (Q : A → sched → Prop)
  (E : exn → sched → Prop) (s : sched) (tr : list event) : Prop :=
  match m s tr with
  | (Ok a, s', _) => Q a s'
  | (Err e, s', _) => E e s'
  end.

(** A computation over the trace that never ends the process. *)
Definition no_exit {A : Type} (m : M A) : Prop :=
  ∀ tr code, (m tr).1 ≠ Err (SystemExit code).

(** A computation over the trace that always returns. *)
Definition returns {A : Type} (m : M A) : Prop :=
  ∀ tr, ∃ a, (m tr).1 = Ok a.

(** The two guard flags of the scheduler are the same in both states. *)
Definition same_flags (s s' : sched) : Prop :=
  processing_transactions s' = processing_transactions s ∧
  recovery_in_progress s' = recovery_in_progress s.

(** An exception of the scheduler: an [Exception], or the exit status 1. *)
Definition failure (e : exn) : Prop := e = Exception ∨ e = SystemExit 1.

End Triples.

(** ** The pattern of the batch files *)

Module Glob.

(** [s.endswith(suffix)] *)
Fixpoint ends_with (suffix s : string) : bool :=
  String.eqb s suffix ||
  match s with
  | EmptyString => false
  | String _ s' => ends_with suffix s'
  end.

(** A file name matched by ["mb_biz_transactions_*.json"], the pattern both
    readers and the pruning give to [glob.glob]: the name starts with the
    text before the star, and what follows ends with the text after it. *)
Definition matches_batch_pattern (name : string) : bool :=
  String.prefix "mb_biz_transactions_" name
  && ends_with ".json" (skip 20 name).

End Glob.

(** ** Validation of a transaction: [is_valid_transaction] *)

Module Validity.

Import Dedup.

Definition SO_BUT_TOAN_ALT : string := "Số BÚT TOÁN".

Definition don_vi_fields : list string :=
  ["ĐƠN VỊ THỤ HƯỞNG/ĐƠN VỊ CHUYỂN"; "ĐƠN VỊ THỤ HƯỞNG"; "ĐƠN VỊ CHUYỂN"].

Definition amount_fields : list string :=
  ["PHÁT SINH CÓ"; "PHÁT SINH NỢ"; "AMOUNT"; "CREDIT"; "DEBIT"].

(** The [for ... break] over the entity fields and the [any(...)] over the
    amount fields: the fields are looked at in order until one holds a text
    that is not blank; a field that holds no [str] raises when it is
    reached. *)
Fixpoint any_field (transaction : dict) (fields : list string) : res bool :=
  match fields with
  | [] => Ok false
  | field :: rest =>
      match str_strip (get transaction field (VStr "")) with
      | Ok text => if nonempty text then Ok true else any_field transaction rest
      | Err e => Err e
      end
  end.

(** [is_valid_transaction] *)
Definition is_valid_transaction (transaction : dict) : res bool :=
  if bool_decide (transaction = ∅) then Ok false
  else
    match str_strip (get transaction SO_BUT_TOAN (VStr "")) with
    | Err e => Err e
    | Ok so_but_toan =>
        match str_strip (get transaction SO_BUT_TOAN_ALT (VStr "")) with
        | Err e => Err e
        | Ok so_but_toan_alt =>
            let transaction_id :=
              if nonempty so_but_toan then so_but_toan else so_but_toan_alt in
            if negb (nonempty transaction_id) then Ok false
            else if Store.code_points transaction_id <? 5 then Ok false
            else
              match any_field transaction don_vi_fields with
              | Err e => Err e
              | Ok has_entity_info =>
                  match any_field transaction amount_fields with
                  | Err e => Err e
                  | Ok has_amount => Ok (has_entity_info || has_amount)
                  end
              end
        end
    end.

(** The text of a field of a fetched transaction, stripped; empty when the
    field is missing. *)
Definition cell (t : transaction) (field : string) : string :=
  strip (default "" (t !! field)).

(** The identifier the validation goes by: the main header when it is not
    blank, the alternative header otherwise. *)
Definition valid_id (t : transaction) : string :=
  if nonempty (cell t SO_BUT_TOAN) then cell t SO_BUT_TOAN
  else cell t SO_BUT_TOAN_ALT.

End Validity.

(** ** The order system: [API_service_woo] *)

Module Woo.

Import Watermark.

(** The characters of the class [[\s.,\-]]. *)
Definition boundary : list string := whitespace ++ ["."; ","; "-"].

(** The first character of [s], when it is one of [alphabet], and what
    follows it. *)
Fixpoint split_one (alphabet : list string) (s : string)
  : option (string * string) :=
  match alphabet with
  | [] => None
  | a :: alphabet' =>
      if String.prefix a s then Some (a, skip (String.length a) s)
      else split_one alphabet' s
  end.

(** [\d{n}] at the start of [s]: the text matched. The decimal digits of
    Unicode, UTF-8 encoded, are [digits]. *)
Fixpoint digits_at (digits : list string) (n : nat) (s : string)
  : option string :=
  match n with
  | O => Some ""
  | S n' =>
      match split_one digits s with
      | Some (d, rest) =>
          match digits_at digits n' rest with
          | Some t => Some (d +:+ t)
          | None => None
          end
      | None => None
      end
  end.

(** [(GH\d{6})] at the start of [s] *)
Definition order_id_at (digits : list string) (s : string) : option string :=
  if String.prefix "GH" s then
    match digits_at digits 6 (skip 2 s) with
    | Some six => Some ("GH" +:+ six)
    | None => None
    end
  else None.

(** The second alternative, [[\s.,\-](GH\d{6})], tried at every position
    from left to right. *)
Fixpoint search_after_boundary (digits : list string) (s : string)
  : option string :=
  match s with
  | EmptyString => None
  | String _ s' =>
      match drop_one boundary s with
      | Some rest =>
          match order_id_at digits rest with
          | Some order_id => Some order_id
          | None => search_after_boundary digits s'
          end
      | None => search_after_boundary digits s'
      end
  end.

(** [re.search(r'(?:^|[\s.,\-])(GH\d{6})', s)], group 1: at position 0 the
    alternative [^] is tried first. *)
Definition re_search (digits : list string) (s : string) : option string :=
  match order_id_at digits s with
  | Some order_id => Some order_id
  | None => search_after_boundary digits s
  end.

(** [detect_woo_order]: [re.search] raises [TypeError] on what is no
    [str]. *)
Definition detect_woo_order (digits : list string) (description : value)
  : res (option string) :=
  if negb (truthy description) then Ok None
  else
    match description with
    | VStr s => Ok (re_search digits s)
    | _ => Raise
    end.

(** How [create_woocommerce_order] ends: it returns the [id] of the answer,
    or raises a [RequestException] (no connection, an error status, a body
    that is no JSON), or raises something else. *)
Inductive create_result : Type :=
| Created (woo_order_id : value)
| RequestFailed
| Unexpected.

(** The calls that leave [process_woo_transaction]. *)
Inductive woo_call : Type :=
| PostOrder (customer_name amount_str : string) (r : create_result)
| PostConfirm (woo_order_id : value) (r : res value)
| SendWebhook (order_id : string) (r : res value).

(** The order system and the library: the decimal digits of Unicode, the
    three exchanges, and [==] on what JSON holds. *)
Record shop : Type := Shop {
  digits : list string;
  post_order : list woo_call → string → string → create_result;
  post_confirm : list woo_call → value → option value;
  send_transaction_to_woo : list woo_call → dict → string → option value;
  py_eq : value → value → bool
}.

Definition DON_VI : string := "ĐƠN VỊ THỤ HƯỞNG/ĐƠN VỊ CHUYỂN".

(** [s.replace(",", "")] *)
Fixpoint remove_commas (s : string) : string :=
  match s with
  | EmptyString => EmptyString
  | String c rest =>
      if Ascii.eqb c "," then remove_commas rest
      else String c (remove_commas rest)
  end.

(** [create_woocommerce_order]: the two fields are read and cleaned, the
    endpoint is built from the URL, then the order is posted. A field that
    holds no [str], or a URL that is [None], raises before the post. *)
Definition create_woocommerce_order (sh : shop) (url : option string)
  (data : dict) : list woo_call → create_result * list woo_call :=
  fun tr =>
    match str_strip (get data DON_VI (VStr "Unknown")) with
    | Err _ => (Unexpected, tr)
    | Ok customer_name =>
        match get data Forwarder.PHAT_SINH_CO (VStr "0") with
        | VStr amount =>
            let amount_str := strip (remove_commas amount) in
            match url with
            | None => (Unexpected, tr)
            | Some _ =>
                let r := post_order sh tr customer_name amount_str in
                (r, tr ++ [PostOrder customer_name amount_str r])
            end
        | _ => (Unexpected, tr)
        end
    end.

(** The return sites of [process_woo_transaction], with the fields of the
    dictionary that are no message. *)
Inductive outcome : Type :=
| NotWooTransaction
| CreateOrderFailed (detected_order_id : string)
| CreateOrderError (detected_order_id : string)
| Success (detected_order_id : string) (woo_order_id : value)
    (order_confirmed : bool) (webhook_result : option (res value))
| FatalError.

(** The ["status"] of the dictionary returned. *)
Definition status (o : outcome) : string :=
  match o with
  | NotWooTransaction => "not_woo_transaction"
  | CreateOrderFailed _ => "create_order_failed"
  | CreateOrderError _ => "create_order_error"
  | Success _ _ _ _ => "success"
  | FatalError => "fatal_error"
  end.

(** Step 3: the confirmation never stops the processing. *)
Definition confirm (sh : shop) (woo_order_id : value)
  : list woo_call → bool * list woo_call :=
  fun tr =>
    let r := answer (post_confirm sh tr woo_order_id) in
    (match r with
     | Ok (VDict d) => py_eq sh (get d "id" VNone) woo_order_id
     | _ => false
     end,
     tr ++ [PostConfirm woo_order_id r]).

(** The optional webhook, under its own [try]. *)
Definition webhook (sh : shop) (secure_token : option string)
  (transaction_data : dict) (detected_order_id : string)
  : list woo_call → option (res value) * list woo_call :=
  fun tr =>
    if match secure_token with Some t => nonempty t | None => false end
       && nonempty detected_order_id
    then
      let r :=
        answer (send_transaction_to_woo sh tr transaction_data
                  detected_order_id) in
      (Some r, tr ++ [SendWebhook detected_order_id r])
    else (None, tr).

(** [process_woo_transaction]: an exception of the detection is caught by
    the outer handler, the other steps have handlers of their own. *)
Definition process_woo_transaction (sh : shop) (url : option string)
  (secure_token : option string) (transaction_data : dict)
  : list woo_call → outcome * list woo_call :=
  fun tr =>
    let description := get transaction_data Forwarder.NOI_DUNG (VStr "") in
    match detect_woo_order (digits sh) description with
    | Err _ => (FatalError, tr)
    | Ok None => (NotWooTransaction, tr)
    | Ok (Some detected_order_id) =>
        match create_woocommerce_order sh url transaction_data tr with
        | (RequestFailed, tr1) => (CreateOrderFailed detected_order_id, tr1)
        | (Unexpected, tr1) => (CreateOrderError detected_order_id, tr1)
        | (Created woo_order_id, tr1) =>
            let (order_confirmed, tr2) := confirm sh woo_order_id tr1 in
            let (webhook_result, tr3) :=
              webhook sh secure_token transaction_data detected_order_id
                tr2 in
            (Success detected_order_id woo_order_id order_confirmed
               webhook_result, tr3)
        end
    end.

(** The orders posted in a trace. *)
Definition orders_posted (tr : list woo_call) : list create_result :=
  omap (fun c => match c with PostOrder _ _ r => Some r | _ => None end) tr.

(** A text made of [n] decimal digits. *)
Definition digit_run (digits : list string) (n : nat) (t : string) : Prop :=
  ∃ ds : list string,
    length ds = n ∧ Forall (fun d => d ∈ digits) ds ∧
    t = foldr String.app "" ds.

(** The ASCII digits. *)
Definition ascii_digits : list string :=
  ["0"; "1"; "2"; "3"; "4"; "5"; "6"; "7"; "8"; "9"].

End Woo.

(** ** The chat channel: [API_service_lark.push_to_Lark_Channel] *)

Module Lark.

Import Watermark.

(** The two requests of [push_to_Lark_Channel], with the parsed body of
    the answer or the exception. *)
Inductive lark_call : Type :=
| TokenRequest (r : res value)
| MessageRequest (tenant_access_token : value) (c : content) (r : res value).

(** The channel: the body of each answer, [None] when the request or the
    parsing of its answer raises. *)
Record http : Type := Http {
  token_request : list lark_call → option value;
  message_request : list lark_call → value → content → option value
}.

(** What is returned when no token was obtained. *)
Definition no_token : value :=
  VDict {[ "status" := VStr "false";
           "message" := VStr "Failed to get tenant access token" ]}.

(** [push_to_Lark_Channel]: nothing in it is under a [try]. *)
Definition push_to_Lark_Channel (h : http) (c : content)
  : list lark_call → res value * list lark_call :=
  fun tr =>
    let r := answer (token_request h tr) in
    let tr1 := tr ++ [TokenRequest r] in
    match r with
    | Err e => (Err e, tr1)
    | Ok (VDict d) =>
        let tenant_access_token := get d "tenant_access_token" VNone in
        if negb (truthy tenant_access_token) then (Ok no_token, tr1)
        else
          let r' :=
            answer (message_request h tr1 tenant_access_token c) in
          (r', tr1 ++ [MessageRequest tenant_access_token c r'])
    | Ok _ => (Raise, tr1)
    end.

(** The messages sent in a trace. *)
Definition messages (tr : list lark_call) : list content :=
  omap (fun e => match e with MessageRequest _ c _ => Some c | _ => None end)
    tr.

End Lark.

(** ** The browser session: the module [driver] *)

Module Driver.

(** The module [driver]: its global variable holds a session or [None]. *)
Inductive hub_call : Type :=
| SetupDriver (r : option nat)
| Quit (raised : bool).

(** The Selenium hub: the session [setup_driver] returns, [None] when it
    caught an exception; whether [quit] raises. *)
Record hub : Type := Hub {
  setup_driver : list hub_call → option nat;
  quit_raises : list hub_call → bool
}.

(** A computation on the global variable and the trace. *)
Definition D (A : Type) : Type :=
  option nat → list hub_call → A * option nat * list hub_call.

(** [init_driver] *)
Definition init_driver (h : hub) : D (option nat) :=
  fun driver tr =>
    match driver with
    | None =>
        let driver := setup_driver h tr in
        (driver, driver, tr ++ [SetupDriver driver])
    | Some _ => (driver, driver, tr)
    end.

(** [close_driver]: the exception of [quit] is caught, and the variable is
    reset in the [finally]. *)
Definition close_driver (h : hub) : D unit :=
  fun driver tr =>
    match driver with
    | Some _ => (tt, None, tr ++ [Quit (quit_raises h tr)])
    | None => (tt, None, tr)
    end.

(** [get_driver] *)
Definition get_driver (h : hub) : D (option nat) :=
  fun driver tr =>
    match driver with
    | None => init_driver h driver tr
    | Some _ => (driver, driver, tr)
    end.

(** The sessions set up in a trace. *)
Definition setups (tr : list hub_call) : list (option nat) :=
  omap (fun e => match e with SetupDriver r => Some r | _ => None end) tr.

End Driver.

(** ** More sample data *)

Module Cases.

Import Dedup Samples.

(** A store whose newest file cannot be parsed. *)
Definition torn_store : list file :=
  [batch_file "mb_biz_transactions_1.json" 10 older;
   File "mb_biz_transactions_2.json" 20 None].

(** The order system is configured and answers; the channel refuses every
    push. *)
Definition all_refused : world :=
  World
    (fun name =>
       if decide (name ∈ ["WOO_CONSUMER_KEY"; "WOO_CONSUMER_SECRET"])
       then Some "set" else None)
    (fun _ _ => Some refused) (fun _ _ => Some VNone)
    (fun _ => SignedIn) (fun _ => Some "session") (fun _ => true)
    (fun _ => DockerOk) (fun _ => Some tt) 1793674800000.

(** A portal that cannot be reached on the second attempt. *)
Definition drops_out : world :=
  World (fun _ => None) (fun _ _ => Some accepted)
    (fun _ _ => Some VNone)
    (fun tr => if decide (Login.attempts tr < 1)%nat then NoErrorDialog
               else Unreachable)
    (fun _ => Some "session") (fun _ => true)
    (fun _ => DockerOk) (fun _ => Some tt) 1793674800000.

(** The number of attempts is set to the given text. *)
Definition attempts_set_to (text : string) : world :=
  World
    (fun name => if decide (name = "MB_LOGIN_MAX_ATTEMPTS") then Some text
                 else None)
    (fun _ _ => Some accepted) (fun _ _ => Some VNone)
    (fun _ => SignedIn) (fun _ => Some "session") (fun _ => true)
    (fun _ => DockerOk) (fun _ => Some tt) 1793674800000.

(** A batch with a stray entry between two transactions. *)
Definition stray_entry : list file :=
  [File "mb_biz_transactions_1.json" 10
     (Some (VDict {[ Watermark.TIMESTAMP := VStr "2026-11-03 10:00:00";
                     TRANSACTIONS :=
                       VList [VDict (encode_txn
                                       (dated "FT001" "03/11/2026 09:58:00"));
                              VNone;
                              VDict (encode_txn
                                       (dated "FT002" "03/11/2026 09:59:00"))
                             ] ]}))].

(** An empty batch whose fetch timestamp cannot be read. *)
Definition unread_stamp : list file :=
  [stamped_file "mb_biz_transactions_1.json" 10 "03-11-2026 10:00" []].

(** The required variables are set, the fetch interval is no number. *)
Definition bad_interval : world :=
  World
    (fun name =>
       if decide (name ∈ ["MB_USERNAME"; "MB_PASSWORD"; "MB_CORP_ID"])
       then Some "set"
       else if decide (name = "TRANSACTION_FETCH_INTERVAL") then Some "20s"
       else None)
    (fun _ _ => Some accepted) (fun _ _ => Some VNone)
    (fun _ => SignedIn) (fun _ => Some "session") (fun _ => true)
    (fun _ => DockerFailed) (fun _ => Some tt) 1793674800000.

(** The required variables are set, the account is locked from the start,
    and the channel cannot be reached. *)
Definition locked_out : world :=
  World
    (fun name =>
       if decide (name ∈ ["MB_USERNAME"; "MB_PASSWORD"; "MB_CORP_ID"])
       then Some "set" else None)
    (fun _ _ => None) (fun _ _ => Some VNone)
    (fun _ => ErrorDialog "GW18 - Tài khoản tạm khóa")
    (fun _ => Some "session") (fun _ => true)
    (fun _ => DockerOk) (fun _ => Some tt) 1793674800000.

End Cases.

(** ** Inputs on which a collaborator fails *)

Module Failing.

Import Dedup Samples.

(** A channel whose first call raises (a connection error). *)
Definition first_push_raises : world :=
  with_channel
    (fun tr _ => if decide (pushes tr = []) then None else Some accepted).

(** The session is found dead and the portal cannot be reached when the
    recovery logs in: [driver.get] raises. *)
Definition dead_and_unreachable : world :=
  World (fun _ => None) (fun _ _ => Some accepted) (fun _ _ => Some VNone)
    (fun _ => Unreachable) (fun _ => None) (fun _ => true)
    (fun _ => DockerOk) (fun _ => Some tt) 1793674800000.

(** The session is found dead and no driver can be created for the
    recovery. *)
Definition dead_and_no_driver : world :=
  World (fun _ => None) (fun _ _ => Some accepted) (fun _ _ => Some VNone)
    (fun _ => SignedIn) (fun _ => None) (fun _ => false)
    (fun _ => DockerOk) (fun _ => Some tt) 1793674800000.

(** A whole run: the variables are set, the first login goes through, the
    session is lost twelve seconds later and the portal cannot be reached
    then. *)
Definition lost_then_unreachable : world :=
  World
    (fun name =>
       if decide (name ∈ ["MB_USERNAME"; "MB_PASSWORD"; "MB_CORP_ID"])
       then Some "set" else None)
    (fun _ _ => Some accepted)
    (fun _ _ => Some VNone)
    (fun tr => if decide (elapsed tr < 12000) then SignedIn else Unreachable)
    (fun tr => if decide (elapsed tr < 12000) then Some "session" else None)
    (fun _ => true) (fun _ => DockerOk) (fun _ => Some tt) 1793674800000.

End Failing.

(** ** The tests on the way to the new transactions *)

Module Path.

Import Dedup.

    (* line 549: [if not txn_id or txn_id in old_transaction_ids] *)




End Path.

(** ** A first run and a later one *)

Module Inputs.

Import Dedup Samples.




End Inputs.

(** ** The matched paths, before they are looked at *)

Module Listing.

Import Dedup.

(** A path [glob] has matched. [os.path.getmtime] raises for a path that is
    gone by then or that is a dangling link: [None]. *)
Record entry : Type := Entry {
  entry_path : string;
  getmtime : option Z;
  json_load : option value
}.

Definition stat (e : entry) : option file :=
  m ← getmtime e; Some (File (entry_path e) m (json_load e)).

(** [find_unique_transactions_v2] from its glob on. The key of [max] is
    called on every matched path, in order, and line 502 is under no [try]:
    what [getmtime] raises leaves the function. *)
Definition find_unique_transactions_v2 (w : world)
  (transaction_files : list entry) : M bool :=
  match transaction_files with
  | [] => ret false
  | _ =>
      match mapM stat transaction_files with
      | Some files => Forwarder.find_unique_transactions_v2 w files
      | None => raise Exception
      end
  end.

(** A link to a file that is gone, next to a batch. *)
Definition dangling : list entry :=
  [Entry "mb_biz_transactions_1.json" (Some 10)
     (file_data (Samples.batch_file "mb_biz_transactions_1.json" 10
                   Samples.older));
   Entry "mb_biz_transactions_2.json" None None].

End Listing.

(** ** The fetch cycle, part by part *)

Module Cycle.

Import Scheduler.

(** The three parts of a fetch cycle that are not the scheduler's own: what
    each one does (its pauses and its calls, as events) and how it ends,
    [None] when it raises. They may depend on everything that happened
    before. *)
Record parts : Type := Parts {
  (** [get_from_date_for_fetch()] and [mb_actions.fetch_transactions_v2],
      lines 237-240 *)
  fetch_transactions_v2 : list event → list event * option value;
  (** what follows line 243: the batch is persisted, lines 246-282 *)
  persist : list event → value → list event * option unit;
  (** [find_unique_transactions_v2()] *)
  find_unique_transactions_v2 : list event → list event * option bool
}.

Definition part {A : Type} (o : list event → list event * option A) : SM A :=
  fun s tr => (answer (o tr).2, s, tr ++ (o tr).1).

(** [fetch_transactions_with_active_session_v2]: without a driver it returns
    at once; with one, the global [last_transaction_fetch_time] is assigned
    anew once the fetcher has returned. *)
Definition fetch_transactions_with_active_session_v2 (w : world) (c : parts)
  : SM unit :=
  s ← get_vars;
  if webdriver_instance s then
    transaction_data ← part (fetch_transactions_v2 c);
    t ← now w;
    update (set_last_fetch (Some t));;
    part (fun tr => persist c tr transaction_data)
  else sm_ret tt.

(** The two calls under the [try] of the fetch block. *)
Definition cycle (w : world) (c : parts) : SM unit :=
  fetch_transactions_with_active_session_v2 w c;;
  part (find_unique_transactions_v2 c);;
  sm_ret tt.

(** [fetch_due] *)
Definition fetch_due (s : sched) (current_time : Z) : bool :=
  match last_transaction_fetch_time s with
  | None => true
  | Some last => transaction_interval s * 1000 <=? current_time - last
  end.

(** The fetch of one pass of the loop, lines 851-873. *)
Definition fetch_block (w : world) (c : parts) (current_time : Z) : SM unit :=
  session_id ← call_check_session w;
  s ← get_vars;
  if match session_id with Some _ => true | None => false end
     && fetch_due s current_time && negb (processing_transactions s)
     && negb (recovery_in_progress s)
  then
    t ← now w;
    update (set_last_fetch (Some t));;
    update (set_processing true);;
    try_finally
      (try_except (cycle w c)
         (t' ← now w;
          update (set_last_fetch
                    (Some (t' - (transaction_interval s - 5) * 1000)))))
      (update (set_processing false))
  else sm_ret tt.

(** A fetcher that takes three seconds, and a run of
    [find_unique_transactions_v2] that raises. *)
Definition slow_fetch_then_raise : parts :=
  Parts (fun _ => ([Sleep 3000], Some (VDict ∅)))
    (fun _ _ => ([], Some tt))
    (fun _ => ([], None)).

End Cycle.

(** ** From the file system to the readers *)

Module Reading.

Import Dedup Store.

(** The file a reader gets under the name [p]: [open] raises when there is
    no such file, [json.load] when its content is no JSON text; [m] is its
    modification time. *)
Definition read_file (json_load : string → option value) (files : fs)
  (p : string) (m : Z) : file :=
  File p m (files !! p ≫= json_load).

End Reading.

(** * Properties *)

(** ** The dedup store: what counts as new *)

Section DedupFacts.

Import Dedup.

Lemma nonempty_true (s : string) : nonempty s = true ↔ s ≠ "".
Proof. destruct s; simpl; split; congruence. Qed.

Lemma nonempty_false (s : string) : nonempty s = false ↔ s = "".
Proof. destruct s; simpl; split; congruence. Qed.

Lemma txn_id_of_encode (t : transaction) :
  txn_id_of (encode_txn t) = Ok (ident t).
Proof.
  unfold txn_id_of, encode_txn, ident, get.
  rewrite lookup_fmap. destruct (t !! SO_BUT_TOAN); reflexivity.
Qed.

Lemma collect_ids_batch (txs : list transaction) (ids : list string) :
  collect_ids ((VDict ∘ encode_txn) <$> txs) ids
  = ids ++ filter (fun i => i ≠ "") (ident <$> txs).
Proof.
  revert ids. induction txs as [|t txs IH]; intros ids; simpl.
  - by rewrite app_nil_r.
  - rewrite txn_id_of_encode, IH, filter_cons.
    destruct (nonempty (ident t)) eqn:E.
    + apply nonempty_true in E. rewrite decide_True by done.
      by rewrite <- app_assoc.
    + apply nonempty_false in E. by rewrite decide_False by (by intros ?).
Qed.

Lemma transactions_of_batch (d : dict) (l : list value) :
  d !! TRANSACTIONS = Some (VList l) → transactions_of d = VList l.
Proof. intros H. unfold transactions_of, get. by rewrite H. Qed.

Lemma collect_file_batch (f : file) (txs : list transaction) ids :
  holds_batch f txs →
  collect_file f ids = ids ++ filter (fun i => i ≠ "") (ident <$> txs).
Proof.
  intros (d & Hc & Hd). unfold collect_file.
  rewrite Hc, (transactions_of_batch _ _ Hd). apply collect_ids_batch.
Qed.

Lemma old_ids_batches (fs : list file) (B1 : list (list transaction)) ids :
  Forall2 holds_batch fs B1 →
  fold_left (fun ids f => collect_file f ids) fs ids
  = ids ++ filter (fun i => i ≠ "") (idents B1).
Proof.
  intros H. revert ids. induction H as [|f txs fs B1 Hf _ IH]; intros ids.
  - simpl. by rewrite app_nil_r.
  - simpl. rewrite IH, (collect_file_batch _ _ _ Hf).
    unfold idents. simpl. rewrite fmap_app, filter_app. by rewrite app_assoc.
Qed.

Lemma unique_loop_batch (old : list string) (txs : list transaction) acc :
  unique_loop old ((VDict ∘ encode_txn) <$> txs) acc
  = Ok (acc ++ (encode_txn <$>
                  filter (fun t => ident t ≠ "" ∧ ident t ∉ old) txs)).
Proof.
  revert acc. induction txs as [|t txs IH]; intros acc; simpl.
  - by rewrite app_nil_r.
  - rewrite txn_id_of_encode, filter_cons.
    destruct (nonempty (ident t)) eqn:E; simpl.
    + apply nonempty_true in E. case_bool_decide as Hin.
      * rewrite IH. rewrite decide_False; [done|]. by intros [_ ?].
      * rewrite IH. rewrite decide_True by done.
        simpl. by rewrite <- app_assoc.
    + apply nonempty_false in E. rewrite IH.
      rewrite decide_False; [done|]. by intros [? _].
Qed.

(** The identifiers collected from well-formed older batches are the
    non-empty identifiers of their transactions. *)
Lemma old_transaction_ids_batches (fs : list file)
  (B1 : list (list transaction)) (i : string) :
  Forall2 holds_batch fs B1 →
  i ∈ old_transaction_ids_of fs ↔ i ≠ "" ∧ i ∈ idents B1.
Proof.
  intros H. unfold old_transaction_ids_of.
  rewrite (old_ids_batches _ _ _ H). simpl.
  exact (list_elem_of_filter (fun i => i ≠ "") (idents B1) i).
Qed.

(** What [find_unique_transactions_v2] finds on a store of well-formed
    batches. *)
Lemma unique_transactions_batches (files : list file) (newest_file : file)
  (B1 : list (list transaction)) (B2 : list transaction) :
  newest_of files = Some newest_file →
  holds_batch newest_file B2 →
  Forall2 holds_batch (old_files_of files newest_file) B1 →
  unique_transactions_of files
  = Some (newest_file, encode_txn <$> new_transactions_spec B1 B2).
Proof.
  intros Hn (d & Hc & Hd) Hold. unfold unique_transactions_of.
  rewrite Hn, Hc, (transactions_of_batch _ _ Hd), unique_loop_batch.
  simpl. do 3 f_equal. unfold new_transactions_spec.
  apply list_filter_iff. intros t.
  rewrite (old_transaction_ids_batches _ _ _ Hold). tauto.
Qed.

(** C1. On a store whose newest file holds the batch [B2] and whose other
    files hold the batches [B1], the transactions found new are exactly those
    of [B2], in order, whose stripped identifier is not empty and is not the
    stripped identifier of a transaction of [B1]; the empty identifier is in
    neither the old identifier list nor the result. *)
Theorem find_new_transactions_exact (files : list file) (newest_file : file)
  (B1 : list (list transaction)) (B2 : list transaction) :
  newest_of files = Some newest_file →
  holds_batch newest_file B2 →
  Forall2 holds_batch (old_files_of files newest_file) B1 →
  unique_transactions_of files
  = Some (newest_file,
          encode_txn <$>
            filter (fun t => ident t ≠ "" ∧ ident t ∉ idents B1) B2)
  ∧ (∀ i, (i ∈ old_transaction_ids_of (old_files_of files newest_file))
          ↔ (i ≠ "" ∧ i ∈ idents B1))
  ∧ ("" ∉ old_transaction_ids_of (old_files_of files newest_file))
  ∧ (∀ unique, unique_transactions_of files = Some (newest_file, unique) →
       ∀ txn, txn ∈ unique → txn_id_of txn ≠ Ok "").
Proof.
  intros Hn Hb Hold.
  pose proof (unique_transactions_batches _ _ _ _ Hn Hb Hold) as Hu.
  split; [exact Hu|]. split; [|split].
  - intros i. by apply old_transaction_ids_batches.
  - intros Hin. apply (old_transaction_ids_batches _ _ _ Hold) in Hin.
    by destruct Hin.
  - intros unique Hu' txn Hin. rewrite Hu in Hu'. injection Hu' as <-.
    apply list_elem_of_fmap in Hin as (t & -> & Ht).
    apply list_elem_of_filter in Ht as [[Hne _] _].
    rewrite txn_id_of_encode. congruence.
Qed.

Lemma holds_batch_file (p : string) (m : Z) (txs : list transaction) :
  holds_batch (Samples.batch_file p m txs) txs.
Proof. eexists. split; [reflexivity|]. reflexivity. Qed.

Lemma find_new_transactions_exact_witness :
  unique_transactions_of Samples.store
  = Some (Samples.batch_file "mb_biz_transactions_2.json" 20 Samples.newest,
          encode_txn <$>
            [Samples.tx "FT003" "0"; Samples.tx "FT002" "2,000";
             Samples.tx "FT002" "2,000"]).
Proof.
  apply (find_new_transactions_exact Samples.store
           (Samples.batch_file "mb_biz_transactions_2.json" 20 Samples.newest)
           [Samples.older] Samples.newest).
  - reflexivity.
  - apply holds_batch_file.
  - repeat constructor. apply holds_batch_file.
Defined.

(** With no older batch file the old identifier list is empty, and the
    transactions found new are those of the newest batch, in order, whose
    identifier is not empty. *)
Lemma first_run_returns_identified (files : list file) (newest_file : file)
  (B2 : list transaction) :
  newest_of files = Some newest_file →
  holds_batch newest_file B2 →
  old_files_of files newest_file = [] →
  old_transaction_ids_of (old_files_of files newest_file) = []
  ∧ unique_transactions_of files
    = Some (newest_file, encode_txn <$> filter (fun t => ident t ≠ "") B2).
Proof.
  intros Hn Hb Hold. split; [by rewrite Hold|].
  rewrite (unique_transactions_batches _ _ [] _ Hn Hb)
    by (rewrite Hold; constructor).
  do 3 f_equal. apply list_filter_iff. intros t. unfold idents. simpl.
  split; [by intros [? _]|]. intros ?. split; [done|]. apply not_elem_of_nil.
Qed.

Lemma first_run_returns_identified_witness :
  unique_transactions_of Samples.first_store
  = Some (Samples.batch_file "mb_biz_transactions_1.json" 10 Samples.older,
          encode_txn <$> [Samples.tx "FT001" "1,000"]).
Proof.
  apply (first_run_returns_identified Samples.first_store
           (Samples.batch_file "mb_biz_transactions_1.json" 10 Samples.older)
           Samples.older).
  - reflexivity.
  - apply holds_batch_file.
  - reflexivity.
Defined.

End DedupFacts.

(** ** The forwarder *)

Section ForwarderFacts.

Import Dedup Forwarder.

Ltac unfold_eff :=
  unfold mbind, M_bind, mret, M_ret, bind, ret, call_lark, call_woo, sleep,
    remove, emit, lift, raise, try_except, answer in *.

(** The push loop when the channel answers: every transaction is pushed, in
    list order, and the counter grows by the number of accepted pushes. *)
Lemma push_loop_returns (w : world) (Hret : lark_returns w)
  (txs : list dict) :
  ∀ (n : nat) (tr : list event),
    ∃ (evs : list event) (n' : nat),
      push_loop w txs n tr = (Ok n', tr ++ evs) ∧
      pushes evs = content_of <$> txs ∧
      woo_calls evs = [] ∧
      elapsed evs = 500 * Z.of_nat (length txs) ∧
      (n ≤ n')%nat ∧
      ((n < n')%nat ↔ Exists push_ok evs).
Proof.
  induction txs as [|txn rest IH]; intros n tr.
  - exists [], n. simpl. unfold_eff. rewrite app_nil_r.
    repeat split; try done; try lia. intros H. by apply Exists_nil in H.
  - simpl. unfold_eff.
    destruct (Hret tr (content_of txn)) as [v Hv]. rewrite Hv.
    destruct (IH (if pushed v then S n else n)
                 ((tr ++ [LarkPush (content_of txn) (Ok v)]) ++ [Sleep 500]))
      as (evs & n' & Hrun & Hp & Hw & He & Hle & Hiff).
    exists (LarkPush (content_of txn) (Ok v) :: Sleep 500 :: evs), n'.
    rewrite Hrun. rewrite <- !app_assoc. simpl. rewrite Hp, Hw, He.
    repeat split; try done; try lia.
    + destruct (pushed v); lia.
    + intros Hlt. destruct (pushed v) eqn:E.
      * apply Exists_cons_hd. by exists (content_of txn), v.
      * apply Exists_cons_tl, Exists_cons_tl. apply Hiff. lia.
    + intros Hex. apply Exists_cons in Hex as [(c & v' & Heq & Hpv)|Hex].
      * injection Heq as <- <-. rewrite Hpv in Hle. lia.
      * apply Exists_cons in Hex as [(c & v' & Heq & _)|Hex]; [done|].
        apply Hiff in Hex. destruct (pushed v); lia.
Qed.

(** Whatever the channel does, the pushes made are the first pushes of the
    list, in list order. *)
Lemma push_loop_prefix (w : world) (txs : list dict) :
  ∀ (n : nat) (tr : list event),
    ∃ evs : list event,
      (push_loop w txs n tr).2 = tr ++ evs ∧
      pushes evs `prefix_of` (content_of <$> txs).
Proof.
  induction txs as [|txn rest IH]; intros n tr.
  - exists []. simpl. unfold_eff. simpl. by rewrite app_nil_r.
  - simpl. unfold_eff.
    destruct (push_to_Lark_Channel w tr (content_of txn)) as [v|] eqn:Hv.
    + destruct (IH (if pushed v then S n else n)
                  ((tr ++ [LarkPush (content_of txn) (Ok v)]) ++ [Sleep 500]))
        as (evs & Hrun & Hp).
      exists (LarkPush (content_of txn) (Ok v) :: Sleep 500 :: evs).
      rewrite Hrun, <- !app_assoc. split; [done|]. simpl.
      by apply prefix_cons.
    + exists [LarkPush (content_of txn) Raise]. split; [done|]. simpl.
      apply prefix_cons, prefix_nil.
Qed.

(** The forwarder when the channel answers. *)
Lemma push_transactions_returns (w : world) (Hret : lark_returns w)
  (transactions : list dict) (tr : list event) :
  ∃ (ok : bool) (evs : list event),
    push_transactions_to_lark_v2 w transactions tr
    = (Ok (ok, rev transactions), tr ++ evs) ∧
    pushes evs = content_of <$> rev transactions ∧
    woo_calls evs = [] ∧
    (transactions ≠ [] → ok = true ↔ Exists push_ok evs).
Proof.
  destruct transactions as [|txn rest].
  - exists true, []. simpl. unfold_eff. rewrite app_nil_r.
    repeat split; try done.
  - unfold push_transactions_to_lark_v2.
    destruct (push_loop_returns w Hret (rev (txn :: rest)) 0%nat tr)
      as (evs & n' & Hrun & Hp & Hw & _ & _ & Hiff).
    exists (Nat.ltb 0 n'), evs. unfold_eff. rewrite Hrun.
    split; [done|]. split; [done|]. split; [done|]. intros _.
    rewrite <- Hiff. apply Nat.ltb_lt.
Qed.

(** When the channel answers every push, the notifications the forwarder
    emits are those of the input list in reverse order: oldest first. *)
Lemma notifications_oldest_first (w : world) (transactions : list dict)
  (tr : list event) :
  lark_returns w →
  pushes (push_transactions_to_lark_v2 w transactions tr).2
  = pushes tr ++ (content_of <$> rev transactions).
Proof.
  intros Hret.
  destruct (push_transactions_returns w Hret transactions tr)
    as (ok & evs & Hrun & Hp & _).
  rewrite Hrun. simpl. unfold pushes in *. by rewrite omap_app, Hp.
Qed.

Lemma calm_returns : lark_returns Samples.calm.
Proof. intros tr c. by eexists. Qed.

Lemma notifications_oldest_first_witness :
  pushes (push_transactions_to_lark_v2 Samples.calm Samples.three []).2
  = content_of <$> rev Samples.three.
Proof.
  apply (notifications_oldest_first Samples.calm Samples.three []).
  apply calm_returns.
Defined.

(** On a non-empty list, when the channel answers every push, the forwarder
    returns (it does not raise), every transaction has its push and its
    outcome in the trace, and the result is [True] exactly when one of the
    pushes was accepted. *)
Lemma forward_succeeds_iff_one_pushed (w : world)
  (transactions : list dict) (tr : list event) :
  transactions ≠ [] →
  lark_returns w →
  ∃ (ok : bool) (evs : list event),
    push_transactions_to_lark_v2 w transactions tr
    = (Ok (ok, rev transactions), tr ++ evs) ∧
    pushes evs = content_of <$> rev transactions ∧
    (ok = true ↔ Exists push_ok evs).
Proof.
  intros Hne Hret.
  destruct (push_transactions_returns w Hret transactions tr)
    as (ok & evs & Hrun & Hp & _ & Hiff).
  exists ok, evs. repeat split; try done; by apply Hiff.
Qed.

Lemma second_push_refused_returns : lark_returns Samples.second_push_refused.
Proof. intros tr c. simpl. case_decide; by eexists. Qed.

Lemma forward_succeeds_iff_one_pushed_witness :
  ∃ (ok : bool) (evs : list event),
    push_transactions_to_lark_v2 Samples.second_push_refused Samples.three []
    = (Ok (ok, rev Samples.three), [] ++ evs) ∧
    pushes evs = content_of <$> rev Samples.three ∧
    (ok = true ↔ Exists push_ok evs).
Proof.
  apply (forward_succeeds_iff_one_pushed Samples.second_push_refused
           Samples.three []).
  - discriminate.
  - apply second_push_refused_returns.
Defined.

(** A push the channel refuses by an error code does not stop the loop. *)
Example refused_push_is_isolated :
  (push_transactions_to_lark_v2 Samples.second_push_refused Samples.three
     []).1 = Ok (true, rev Samples.three)
  ∧ length (pushes (push_transactions_to_lark_v2 Samples.second_push_refused
                      Samples.three []).2) = 3%nat.
Proof. split; reflexivity. Qed.

(** C6 fails on the code. With three transactions and a channel whose second
    call raises, the loop is left at that call: two pushes are attempted, the
    transaction that comes first in fetch order is never pushed, and the
    forwarder raises instead of reporting. *)
Theorem raising_push_stops_forwarding :
  (push_transactions_to_lark_v2 Samples.second_push_raises Samples.three
     []).1 = Raise
  ∧ pushes (push_transactions_to_lark_v2 Samples.second_push_raises
              Samples.three []).2
    = content_of <$> (encode_txn <$> [Samples.tx "FT001" "1";
                                      Samples.tx "FT002" "2"])
  ∧ (content_of (encode_txn (Samples.tx "FT003" "3"))
     ∉ pushes (push_transactions_to_lark_v2 Samples.second_push_raises
                 Samples.three []).2).
Proof.
  split; [reflexivity|]. split; [reflexivity|].
  replace (pushes _) with
    (content_of <$> (encode_txn <$> [Samples.tx "FT001" "1";
                                     Samples.tx "FT002" "2"]))
    by reflexivity.
  intros H. simpl in H.
  apply elem_of_cons in H as [H|H]; [by vm_compute in H|].
  apply elem_of_cons in H as [H|H]; [by vm_compute in H|].
  by apply elem_of_nil in H.
Qed.

(** What the raise costs. The pass that raised returns [False] before the
    pruning; on the next pass the batch it left behind is an older batch,
    so the transactions that were never pushed are not new any more. *)
Example unsent_transactions_are_lost :
  find_unique_transactions_v2 Samples.second_push_raises Samples.store []
  = (Ok false,
     [LarkPush (content_of (encode_txn (Samples.tx "FT002" "2,000")))
        (Ok Samples.accepted);
      Sleep 500;
      LarkPush (content_of (encode_txn (Samples.tx "FT002" "2,000"))) Raise])
  ∧ (content_of (encode_txn (Samples.tx "FT003" "0"))
     ∉ pushes (find_unique_transactions_v2 Samples.second_push_raises
                 Samples.store []).2)
  ∧ unique_transactions_of Samples.store_after_failure
    = Some (Samples.batch_file "mb_biz_transactions_3.json" 30 Samples.newest,
            []).
Proof.
  split; [reflexivity|]. split; [|reflexivity].
  replace (pushes _) with
    [content_of (encode_txn (Samples.tx "FT002" "2,000"));
     content_of (encode_txn (Samples.tx "FT002" "2,000"))] by reflexivity.
  intros H.
  apply elem_of_cons in H as [H|H]; [by vm_compute in H|].
  apply elem_of_cons in H as [H|H]; [by vm_compute in H|].
  by apply elem_of_nil in H.
Qed.

(** Each order call is under its own [try]: whatever an order call raises,
    every credit transaction of the list is handed to the order system. *)
Lemma order_errors_are_isolated (w : world) (txs : list dict) :
  ∀ tr : list event,
    ∃ evs : list event,
      woo_loop w txs tr = (Ok tt, tr ++ evs) ∧
      woo_calls evs = filter is_credit txs ∧
      pushes evs = [].
Proof.
  induction txs as [|txn rest IH]; intros tr.
  - exists []. simpl. unfold_eff. by rewrite app_nil_r.
  - simpl. rewrite filter_cons.
    destruct (decide (is_credit txn)) as [Hc|Hc]; unfold is_credit in Hc.
    + rewrite Hc. unfold_eff.
      destruct (IH (tr ++ [WooProcess txn
                             (answer (process_woo_transaction w tr txn))]))
        as (evs & Hrun & Hw & Hp).
      exists (WooProcess txn (answer (process_woo_transaction w tr txn))
                :: evs).
      rewrite <- app_assoc in Hrun. simpl in Hrun.
      destruct (process_woo_transaction w tr txn) as [v|] eqn:Er; simpl in *;
        rewrite Hrun; simpl; by rewrite Hw, Hp.
    + apply not_true_is_false in Hc. rewrite Hc. unfold_eff.
      destruct (IH tr) as (evs & Hrun & Hw & Hp). by exists evs.
Qed.

(** The order loop pushes nothing to the channel. *)
Lemma woo_loop_no_push (w : world) (txs : list dict) :
  ∀ tr : list event, pushes (woo_loop w txs tr).2 = pushes tr.
Proof.
  intros tr. destruct (order_errors_are_isolated w txs tr)
    as (evs & -> & _ & Hp).
  simpl. unfold pushes in *. by rewrite omap_app, Hp, app_nil_r.
Qed.

Lemma process_woocommerce_no_push (w : world) (txs : list dict)
  (tr : list event) :
  pushes (process_woocommerce_transactions w txs tr).2 = pushes tr.
Proof.
  unfold process_woocommerce_transactions. destruct txs as [|txn rest].
  - done.
  - destruct (_ || _); [done|]. apply woo_loop_no_push.
Qed.

Lemma cleanup_data_directory_trace (fs : list file) (tr : list event) :
  cleanup_data_directory fs tr = (Ok tt, tr ++ (Remove ∘ path <$> fs)).
Proof.
  revert tr. induction fs as [|f fs IH]; intros tr; simpl.
  - unfold_eff. by rewrite app_nil_r.
  - unfold_eff. rewrite IH. by rewrite <- app_assoc.
Qed.

Lemma pushes_removes (fs : list file) : pushes (Remove ∘ path <$> fs) = [].
Proof. induction fs as [|f fs IH]; [done|]. simpl. exact IH. Qed.

Lemma try_except_ret_trace {A : Type} (m : M A) (a : A) (tr : list event) :
  (try_except m (ret a) tr).2 = (m tr).2.
Proof. unfold try_except, ret. by destruct (m tr) as [[?|[|?]] ?]. Qed.

Lemma pushes_app (tr evs : list event) :
  pushes (tr ++ evs) = pushes tr ++ pushes evs.
Proof. apply omap_app. Qed.

Lemma cleanup_after_no_push (m : M unit) (fs : list file) (tr : list event) :
  pushes ((m ;; cleanup_data_directory fs ;; ret true) tr).2
  = pushes (m tr).2.
Proof.
  unfold mbind, M_bind, bind. destruct (m tr) as [[[]|e] tr']; [|done].
  rewrite cleanup_data_directory_trace. simpl.
  by rewrite pushes_app, pushes_removes, app_nil_r.
Qed.

(** A run of [find_unique_transactions_v2] pushes the transactions found
    new, oldest first, when the channel answers. *)
Lemma find_unique_pushes (w : world) (Hret : lark_returns w)
  (files : list file) (newest_file : file) (unique : list dict)
  (tr : list event) :
  unique_transactions_of files = Some (newest_file, unique) →
  pushes (find_unique_transactions_v2 w files tr).2
  = pushes tr ++ (content_of <$> rev unique).
Proof.
  unfold unique_transactions_of, find_unique_transactions_v2.
  destruct (newest_of files) as [nf|]; [|done].
  rewrite try_except_ret_trace. unfold process_newest.
  destruct (file_data nf) as [[| | | | |d]|]; try done.
  destruct (transactions_of d) as [| | | |new_transactions|]; try done.
  destruct (unique_loop _ new_transactions []) as [u|] eqn:Hu; [|done].
  intros [= <- <-].
  change ((lift (Ok u) ≫= ?k) tr) with (k u tr). cbv beta.
  rewrite cleanup_after_no_push.
  destruct u as [|txn rest].
  - simpl. by rewrite app_nil_r.
  - unfold mbind, M_bind, bind.
    destruct (push_transactions_returns w Hret (txn :: rest) tr)
      as (ok & evs & Hrun & Hp & _ & _).
    rewrite Hrun. cbn [fst snd]. destruct ok.
    + by rewrite process_woocommerce_no_push, pushes_app, Hp.
    + unfold ret. simpl. by rewrite pushes_app, Hp.
Qed.

(** Identifiers are compared with those of the older batches only. The
    transactions of the newest batch that carry an identifier [i], not empty
    and absent from the older batches, are all found new, however many there
    are, and each has its push when the channel answers. *)
Lemma duplicates_in_newest_all_forwarded (w : world) (files : list file)
  (newest_file : file) (B1 : list (list transaction))
  (B2 : list transaction) (i : string) (tr : list event) :
  newest_of files = Some newest_file →
  holds_batch newest_file B2 →
  Forall2 holds_batch (old_files_of files newest_file) B1 →
  i ≠ "" →
  i ∉ idents B1 →
  lark_returns w →
  ∃ unique : list transaction,
    unique_transactions_of files = Some (newest_file, encode_txn <$> unique) ∧
    filter (fun t => ident t = i) unique = filter (fun t => ident t = i) B2 ∧
    pushes (find_unique_transactions_v2 w files tr).2
    = pushes tr ++ (content_of <$> rev (encode_txn <$> unique)).
Proof.
  intros Hn Hb Hold Hi Hni Hret.
  pose proof (unique_transactions_batches _ _ _ _ Hn Hb Hold) as Hu.
  exists (new_transactions_spec B1 B2). split; [exact Hu|]. split.
  - unfold new_transactions_spec. rewrite list_filter_filter.
    apply list_filter_iff. intros t. split; [by intros [? _]|].
    intros ->. done.
  - by apply (find_unique_pushes w Hret files newest_file).
Qed.

Lemma duplicates_in_newest_all_forwarded_witness :
  ∃ unique : list transaction,
    unique_transactions_of Samples.store
    = Some (Samples.batch_file "mb_biz_transactions_2.json" 20 Samples.newest,
            encode_txn <$> unique) ∧
    filter (fun t => ident t = "FT002") unique
    = [Samples.tx "FT002" "2,000"; Samples.tx "FT002" "2,000"] ∧
    pushes (find_unique_transactions_v2 Samples.calm Samples.store []).2
    = [] ++ (content_of <$> rev (encode_txn <$> unique)).
Proof.
  apply (duplicates_in_newest_all_forwarded Samples.calm Samples.store
           (Samples.batch_file "mb_biz_transactions_2.json" 20 Samples.newest)
           [Samples.older] Samples.newest "FT002" []).
  - reflexivity.
  - apply holds_batch_file.
  - repeat constructor. apply holds_batch_file.
  - discriminate.
  - vm_compute. intros H.
    repeat (apply elem_of_cons in H as [H|H]; [discriminate H|]).
    by apply elem_of_nil in H.
  - apply calm_returns.
Defined.

End ForwarderFacts.

(** ** Login *)

Section LoginFacts.

Import Login.

Ltac unfold_eff :=
  unfold mbind, M_bind, mret, M_ret, bind, ret, navigate, emit, lift, raise
    in *.







Lemma attempts_app (tr evs : list event) :
  attempts (tr ++ evs) = (attempts tr + attempts evs)%nat.
Proof. unfold attempts, navigations. by rewrite omap_app, length_app. Qed.


Lemma attempts_one (p : page) : attempts (attempt_events p) = 1%nat.
Proof. by destruct p. Qed.






(** The second scenario of the specification: a terminal failure on the
    first attempt ends the login at once. *)
Example locked_account_one_attempt :
  log_in_v2 Samples.locked []
  = (Ok false,
     [LoginStart; Navigate (ErrorDialog "GW18 - Tài khoản tạm khóa");
      ReadCaptcha; SignIn]).
Proof. reflexivity. Qed.

End LoginFacts.

(** ** The scheduler loop *)

Section SchedulerFacts.

Import Login Scheduler.

Ltac unfold_m :=
  unfold mbind, M_bind, mret, M_ret, bind, ret, navigate, emit, lift, raise,
    sleep, call_lark, answer in *.

Ltac unfold_sm :=
  unfold close_driver, log_out, alert in *;
  unfold mbind, SM_bind, sm_bind, sm_ret, run, update, get_vars, exit, now,
    try_except, try_pass, try_finally, call_init_driver, call_docker_down,
    call_check_session, call_fetch_cycle in *.

Lemma logins_app (tr evs : list event) :
  logins (tr ++ evs) = (logins tr + logins evs)%nat.
Proof. unfold logins. by rewrite omap_app, length_app. Qed.

Lemma health_checks_app (tr evs : list event) :
  health_checks (tr ++ evs) = health_checks tr ++ health_checks evs.
Proof. apply omap_app. Qed.

Lemma elapsed_app (tr evs : list event) :
  elapsed (tr ++ evs) = elapsed tr + elapsed evs.
Proof.
  induction tr as [|e tr IH]; simpl; [done|].
  unfold elapsed in *. simpl. destruct e; rewrite ?IH; lia.
Qed.

Lemma attempt_body_trace (w : world) (m a : Z) (tr : list event) :
  ∃ r, attempt_body w m a tr = (r, tr ++ attempt_events (portal w tr))
       ∧ ∀ code, r ≠ Err (SystemExit code).
Proof.
  unfold attempt_body. unfold_m.
  destruct (portal w tr); simpl; rewrite <- ?app_assoc; eexists; split;
    try reflexivity; intros code; discriminate.
Qed.

Lemma attempt_events_quiet (p : page) :
  logins (attempt_events p) = 0%nat ∧ health_checks (attempt_events p) = [].
Proof. by destruct p. Qed.

(** The loop of [log_in_v2] checks no session, starts no other login and
    does not end the process. *)
Lemma login_loop_trace (w : world) (m : Z) (remaining : nat) :
  ∀ (a : Z) (tr : list event),
    ∃ (r : res bool) (evs : list event),
      login_loop w m remaining a tr = (r, tr ++ evs) ∧
      logins evs = 0%nat ∧ health_checks evs = [] ∧
      ∀ code, r ≠ Err (SystemExit code).
Proof.
  induction remaining as [|remaining IH]; intros a tr.
  - exists (Ok false), []. simpl. unfold_m. by rewrite app_nil_r.
  - cbn [login_loop]. unfold mbind at 1, M_bind at 1, bind at 1.
    destruct (attempt_body_trace w m a tr) as (r & -> & Hr).
    destruct (attempt_events_quiet (portal w tr)) as [Hl Hh].
    destruct r as [[|b]|e].
    + destruct (IH (a + 1) (tr ++ attempt_events (portal w tr)))
        as (r' & evs & -> & Hl' & Hh' & Hr').
      exists r', (attempt_events (portal w tr) ++ evs).
      rewrite app_assoc, logins_app, health_checks_app, Hl, Hh, Hl', Hh'.
      done.
    + exists (Ok b), (attempt_events (portal w tr)). unfold_m.
      repeat split; done.
    + exists (Err e), (attempt_events (portal w tr)).
      split; [done|]. split; [done|]. split; [done|].
      intros code [= ->]. by apply (Hr code).
Qed.

Lemma int_no_exit (s : string) (code : Z) : int s ≠ Err (SystemExit code).
Proof.
  unfold int. destruct (strip s) as [|c t].
  - simpl. discriminate.
  - destruct c as [[] [] [] [] [] [] [] []];
      destruct (parse_digits _ _ _); discriminate.
Qed.

Lemma log_in_v2_trace (w : world) (tr : list event) :
  ∃ (r : res bool) (evs : list event),
    log_in_v2 w tr = (r, tr ++ evs) ∧
    (logins evs ≤ 1)%nat ∧ health_checks evs = [] ∧
    (∀ b, r = Ok b → logins evs = 1%nat) ∧
    ∀ code, r ≠ Err (SystemExit code).
Proof.
  unfold log_in_v2. unfold_m.
  destruct (max_attempts_of w) as [m|e] eqn:Hm.
  - destruct (login_loop_trace w m (Z.to_nat m) 0 (tr ++ [LoginStart]))
      as (r & evs & Hrun & Hl & Hh & Hr).
    exists r, (LoginStart :: evs). rewrite Hrun, <- app_assoc.
    change (logins (LoginStart :: evs)) with (S (logins evs)).
    change (health_checks (LoginStart :: evs)) with (health_checks evs).
    rewrite Hl, Hh. repeat split; done.
  - exists (Err e), []. rewrite app_nil_r. repeat split; try done.
    + unfold logins. simpl. lia.
    + intros code [= ->]. by apply (int_no_exit _ _ Hm).
Qed.

Lemma shutdown_environment_forced (w : world) (s : sched) (tr : list event) :
  shutdown_environment w true s tr
  = (Ok tt,
     (if webdriver_instance s then set_webdriver false s else s),
     tr ++ shutdown_events w (webdriver_instance s) tr).
Proof.
  unfold shutdown_environment, docker_down, shutdown_events. unfold_sm.
  unfold_m. destruct (webdriver_instance s); simpl.
  - rewrite <- !app_assoc. simpl.
    destruct (docker_compose_down w (tr ++ [LogOut; CloseDriver]));
      by rewrite <- ?app_assoc.
  - rewrite !app_nil_r.
    destruct (docker_compose_down w tr); by rewrite <- ?app_assoc.
Qed.

Lemma sleeps_three (ms : Z) (tr : list event) :
  sleeps 3 ms tr = (Ok tt, tr ++ [Sleep ms; Sleep ms; Sleep ms]).
Proof. unfold sleeps, bind, sleep, ret. by rewrite <- !app_assoc. Qed.

Lemma shutdown_events_quiet (w : world) (held : bool) (tr : list event) :
  logins (shutdown_events w held tr) = 0%nat
  ∧ health_checks (shutdown_events w held tr) = [].
Proof.
  unfold shutdown_events.
  by destruct held, (docker_compose_down w _).
Qed.

Lemma sm_bind_ok {A B : Type} (m : SM A) (k : A → SM B) (s s' : sched)
  (tr tr' : list event) (a : A) :
  m s tr = (Ok a, s', tr') → (m ≫= k) s tr = k a s' tr'.
Proof. intros H. unfold mbind, SM_bind, sm_bind. by rewrite H. Qed.

Lemma sm_bind_err {A B : Type} (m : SM A) (k : A → SM B) (s s' : sched)
  (tr tr' : list event) (e : exn) :
  m s tr = (Err e, s', tr') → (m ≫= k) s tr = (Err e, s', tr').
Proof. intros H. unfold mbind, SM_bind, sm_bind. by rewrite H. Qed.

Lemma recovery_teardown_run (s : sched) (tr : list event) :
  recovery_teardown s tr = (Ok tt, given_up s, tr ++ teardown_events s).
Proof.
  unfold recovery_teardown, teardown_events, given_up. unfold_sm. unfold_m.
  destruct (webdriver_instance s); simpl.
  - by rewrite <- !app_assoc.
  - by rewrite app_nil_r.
Qed.

Lemma initialize_driver_run (w : world) (s : sched) (tr : list event) :
  initialize_driver w s tr
  = (if init_driver w tr then Ok tt else Err (SystemExit 1),
     set_webdriver (init_driver w tr) s,
     tr ++ [InitDriver (init_driver w tr)]).
Proof.
  unfold initialize_driver. unfold_sm. by destruct (init_driver w tr).
Qed.

Lemma recovery_failed_run (w : world) (s : sched) (tr : list event) :
  recovery_failed w s tr
  = (Err (SystemExit 1), given_up s,
     (tr ++ [failure_alert w tr])
     ++ shutdown_events w (webdriver_instance s) (tr ++ [failure_alert w tr])).
Proof.
  unfold recovery_failed, failure_alert. unfold_sm. unfold_m.
  destruct (push_to_Lark_Channel w tr (RecoveryFailedAt (clock w tr)));
    unfold Raise; cbn beta iota; by rewrite shutdown_environment_forced.
Qed.

(** The recovery attempt, case by case. *)
Lemma recovery_attempt_run (w : world) (s : sched) (tr : list event) :
  let ready := tr ++ teardown_events s ++ [Sleep 5000] in
  let started := ready ++ [InitDriver true] in
  ∃ (r : res unit) (s' : sched) (evs : list event),
    recovery_attempt w s tr = (r, s', ready ++ evs) ∧
    (logins evs ≤ 1)%nat ∧
    health_checks evs = [] ∧
    recovery_in_progress s' = recovery_in_progress s ∧
    (∀ tr2, init_driver w ready = true →
            log_in_v2 w started = (Ok false, tr2) →
            r = Err (SystemExit 1) ∧
            logins evs = 1%nat ∧
            ready ++ evs
            = (tr2 ++ [failure_alert w tr2])
              ++ shutdown_events w true (tr2 ++ [failure_alert w tr2])) ∧
    (∀ tr2, init_driver w ready = true →
            log_in_v2 w started = (Ok true, tr2) →
            r = Ok tt ∧ logins evs = 1%nat ∧ ready ++ evs = tr2 ∧
            session_start_time s' = clock w tr2).
Proof.
  intros ready started. unfold recovery_attempt.
  rewrite (sm_bind_ok _ _ _ _ _ _ _ (recovery_teardown_run s tr)).
  assert (run (sleep 5000) (given_up s) (tr ++ teardown_events s)
          = (Ok tt, given_up s, ready)) as Hs.
  { unfold run, sleep, ready. by rewrite <- app_assoc. }
  rewrite (sm_bind_ok _ _ _ _ _ _ _ Hs). clear Hs.
  pose proof (initialize_driver_run w (given_up s) ready) as Hi.
  assert (∀ b, recovery_in_progress (set_webdriver b (given_up s))
               = recovery_in_progress s) as Hflag.
  { intros b. unfold given_up. by destruct (webdriver_instance s). }
  destruct (init_driver w ready) eqn:Hinit.
  - rewrite (sm_bind_ok _ _ _ _ _ _ _ Hi). fold started.
    destruct (log_in_v2_trace w started) as (r & evs & Hlog & Hle & Hh & Hone & Hne).
    destruct r as [[|]|e].
    + assert (run (log_in_v2 w) (set_webdriver true (given_up s)) started
              = (Ok true, set_webdriver true (given_up s), started ++ evs)) as Hr
        by (unfold run; by rewrite Hlog).
      rewrite (sm_bind_ok _ _ _ _ _ _ _ Hr). unfold_sm.
      eexists _, _, ([InitDriver true] ++ evs).
      split; [by rewrite !app_assoc|].
      rewrite logins_app, health_checks_app, Hh.
      change (logins [InitDriver true]) with 0%nat.
      split; [simpl; lia|]. split; [done|]. split; [apply Hflag|].
      split; intros tr2 _ Htr2; rewrite Hlog in Htr2; [discriminate|].
      injection Htr2 as <-. rewrite (Hone true eq_refl).
      split; [done|]. split; [done|]. split; [|done].
      unfold started. by rewrite <- !app_assoc.
    + assert (run (log_in_v2 w) (set_webdriver true (given_up s)) started
              = (Ok false, set_webdriver true (given_up s), started ++ evs))
        as Hr by (unfold run; by rewrite Hlog).
      rewrite (sm_bind_ok _ _ _ _ _ _ _ Hr), recovery_failed_run.
      change (webdriver_instance (set_webdriver true (given_up s)))
        with true.
      pose proof (shutdown_events_quiet w true
                    ((started ++ evs) ++ [failure_alert w (started ++ evs)]))
        as [Hsl Hsh].
      eexists _, _, ([InitDriver true] ++ evs
                       ++ [failure_alert w (started ++ evs)]
                       ++ shutdown_events w true
                            ((started ++ evs)
                               ++ [failure_alert w (started ++ evs)])).
      split; [unfold started; by rewrite <- !app_assoc|].
      rewrite !logins_app, !health_checks_app, Hh, Hsl, Hsh.
      rewrite (Hone false eq_refl).
      change (logins [InitDriver true]) with 0%nat.
      change (logins [failure_alert w (started ++ evs)]) with 0%nat.
      split; [simpl; lia|]. split; [done|].
      split; [unfold given_up; by destruct (webdriver_instance s)|].
      split; intros tr2 _ Htr2; rewrite Hlog in Htr2; [|discriminate].
      injection Htr2 as <-. split; [done|]. split; [simpl; lia|].
      unfold started. by rewrite <- !app_assoc.
    + assert (run (log_in_v2 w) (set_webdriver true (given_up s)) started
              = (Err e, set_webdriver true (given_up s), started ++ evs))
        as Hr by (unfold run; by rewrite Hlog).
      rewrite (sm_bind_err _ _ _ _ _ _ _ Hr).
      eexists _, _, ([InitDriver true] ++ evs).
      split; [unfold started; by rewrite <- !app_assoc|].
      rewrite logins_app, health_checks_app, Hh.
      change (logins [InitDriver true]) with 0%nat.
      split; [simpl; lia|]. split; [done|]. split; [apply Hflag|].
      split; intros tr2 _ Htr2; rewrite Hlog in Htr2; discriminate.
  - rewrite (sm_bind_err _ _ _ _ _ _ _ Hi).
    eexists _, _, [InitDriver false].
    split; [done|]. split; [unfold logins; simpl; lia|]. split; [done|].
    split; [apply Hflag|]. split; intros tr2 Hf; discriminate.
Qed.

(** While a recovery is in progress the health check is skipped: no session
    is checked and no recovery is started. *)
Lemma recovery_guard (w : world) (s : sched) (tr : list event)
  (current_time : Z) :
  recovery_in_progress s = true →
  health_check_block w current_time s tr = (Ok tt, s, tr).
Proof.
  intros H. unfold health_check_block. unfold_sm. rewrite H.
  by rewrite andb_false_r.
Qed.

(** When the health check is due and reports the session dead, the pass of
    the loop pauses three times sixty seconds, gives up the session held and
    pauses five more seconds: the trace [ready], at least 180 seconds after
    the report and with no login in between. What follows holds at most one
    call of [log_in_v2], and no other health check: the loop is blocked in
    its pauses, and a health check reached with [recovery_in_progress] set
    does nothing. When that login returns [False], the alert is pushed, the
    environment is shut down with the forced teardown and the pass ends in
    [SystemExit 1], with no second login; when it returns [True] the loop
    goes on. *)
Lemma dead_session_cooldown_single_recovery (w : world) (s : sched)
  (tr : list event) (current_time : Z) :
  10000 ≤ current_time - last_health_check s →
  recovery_in_progress s = false →
  truthy_id (check_session w tr) = false →
  let dead := tr ++ [CheckSession (check_session w tr)] in
  let ready := dead ++ [Sleep 60000; Sleep 60000; Sleep 60000]
                    ++ teardown_events s ++ [Sleep 5000] in
  let started := ready ++ [InitDriver true] in
  ∃ (r : res unit) (s' : sched) (evs : list event),
    health_check_block w current_time s tr = (r, s', ready ++ evs) ∧
    180000 ≤ clock w ready - clock w dead ∧
    logins ready = logins tr ∧
    (logins (ready ++ evs) ≤ logins tr + 1)%nat ∧
    health_checks (ready ++ evs) = health_checks tr ++ [check_session w tr] ∧
    recovery_in_progress s' = false ∧
    (∀ s0 tr0 t0, recovery_in_progress s0 = true →
                  health_check_block w t0 s0 tr0 = (Ok tt, s0, tr0)) ∧
    (∀ tr2, init_driver w ready = true →
            log_in_v2 w started = (Ok false, tr2) →
            r = Err (SystemExit 1) ∧
            logins (ready ++ evs) = (logins tr + 1)%nat ∧
            ready ++ evs
            = tr2 ++ [failure_alert w tr2]
                  ++ shutdown_events w true (tr2 ++ [failure_alert w tr2])
                  ++ [Sleep 10000]) ∧
    (∀ tr2, init_driver w ready = true →
            log_in_v2 w started = (Ok true, tr2) →
            r = Ok tt ∧ ready ++ evs = tr2 ++ [Sleep 10000] ∧
            session_start_time s' = clock w tr2).
Proof.
  intros Hdue Hflag Hdead dead ready started.
  set (s1 := set_recovery true (set_last_health_check current_time s)).
  set (cooled := dead ++ [Sleep 60000; Sleep 60000; Sleep 60000]).
  assert (health_check_block w current_time s tr
          = try_finally
              (try_except (recovery_attempt w)
                 (shutdown_environment w true;; exit 1))
              (update (set_recovery false);; run (sleep 10000)) s1 cooled)
    as Hblock.
  { unfold health_check_block. unfold_sm. rewrite Hflag.
    replace (10000 <=? _) with true by (symmetry; by apply Z.leb_le).
    cbn [andb negb]. rewrite Hdead. by rewrite sleeps_three. }
  rewrite Hblock. clear Hblock.
  destruct (recovery_attempt_run w s1 cooled)
    as (r & s' & evs & Hrun & Hle & Hh & Hfl & Hfail & Hgood).
  change (teardown_events s1) with (teardown_events s) in *.
  assert (cooled ++ teardown_events s ++ [Sleep 5000] = ready) as Hready
    by (unfold cooled, ready; by rewrite <- !app_assoc).
  rewrite Hready in *. fold started in Hfail, Hgood.
  assert (180000 ≤ clock w ready - clock w dead) as Hwait.
  { unfold clock, ready. rewrite !elapsed_app.
    assert (0 ≤ elapsed (teardown_events s)) as Ht
      by (unfold teardown_events; destruct (webdriver_instance s);
          by vm_compute).
    change (elapsed [Sleep 60000; Sleep 60000; Sleep 60000]) with 180000.
    change (elapsed [Sleep 5000]) with 5000. lia. }
  assert (logins ready = logins tr ∧
          health_checks ready = health_checks tr ++ [check_session w tr])
    as [Hlr Hhr].
  { unfold ready, dead. rewrite !logins_app, !health_checks_app.
    unfold teardown_events. destruct (webdriver_instance s); simpl.
    - rewrite !app_nil_r. split; [|done]. unfold logins. simpl. lia.
    - rewrite !app_nil_r. split; [|done]. unfold logins. simpl. lia. }
  unfold try_finally, try_except. rewrite Hrun.
  destruct r as [[]|[|code]].
  - exists (Ok tt), (set_recovery false s'), (evs ++ [Sleep 10000]).
    unfold_sm. unfold_m. rewrite app_assoc.
    split; [done|]. split; [done|]. split; [done|].
    rewrite !logins_app, !health_checks_app, Hlr, Hhr, Hh.
    change (logins [Sleep 10000]) with 0%nat.
    split; [lia|]. split; [by rewrite !app_nil_r|]. split; [done|].
    split; [apply recovery_guard|].
    split; intros tr2 Hi Hl.
    + by destruct (Hfail tr2 Hi Hl).
    + destruct (Hgood tr2 Hi Hl) as (_ & _ & Htr & Hst).
      split; [done|]. by rewrite Htr.
  - unfold mbind, SM_bind, sm_bind. rewrite shutdown_environment_forced.
    destruct (shutdown_events_quiet w (webdriver_instance s') (ready ++ evs))
      as [Hsl Hsh].
    eexists _, _,
      (evs ++ shutdown_events w (webdriver_instance s') (ready ++ evs)
           ++ [Sleep 10000]).
    unfold_sm. unfold_m.
    split; [by rewrite <- !app_assoc|]. split; [done|]. split; [done|].
    rewrite !logins_app, !health_checks_app, Hlr, Hhr, Hh, Hsl, Hsh.
    change (logins [Sleep 10000]) with 0%nat.
    split; [lia|]. split; [by rewrite !app_nil_r|]. split; [done|].
    split; [apply recovery_guard|].
    split; intros tr2 Hi Hl.
    + by destruct (Hfail tr2 Hi Hl).
    + by destruct (Hgood tr2 Hi Hl).
  - exists (Err (SystemExit code)), (set_recovery false s'),
      (evs ++ [Sleep 10000]).
    unfold_sm. unfold_m. rewrite app_assoc.
    split; [done|]. split; [done|]. split; [done|].
    rewrite !logins_app, !health_checks_app, Hlr, Hhr, Hh.
    change (logins [Sleep 10000]) with 0%nat.
    split; [lia|]. split; [by rewrite !app_nil_r|]. split; [done|].
    split; [apply recovery_guard|].
    split; intros tr2 Hi Hl.
    + destruct (Hfail tr2 Hi Hl) as (Hr & Hl1 & Htr).
      split; [done|]. split; [lia|]. rewrite Htr. by rewrite <- !app_assoc.
    + by destruct (Hgood tr2 Hi Hl).
Qed.

Lemma dead_session_cooldown_single_recovery_witness :
  let w := Samples.dead_and_locked in
  let s := Samples.running in
  let tr := [Sleep 12000] in
  let ready := (tr ++ [CheckSession None])
                 ++ [Sleep 60000; Sleep 60000; Sleep 60000]
                 ++ teardown_events s ++ [Sleep 5000] in
  ∃ (r : res unit) (s' : sched) (evs : list event),
    health_check_block w (boot_time w + 12000) s tr = (r, s', ready ++ evs) ∧
    180000 ≤ clock w ready - clock w (tr ++ [CheckSession None]) ∧
    logins ready = logins tr ∧
    (logins (ready ++ evs) ≤ logins tr + 1)%nat ∧
    health_checks (ready ++ evs) = health_checks tr ++ [None] ∧
    recovery_in_progress s' = false ∧
    (∀ s0 tr0 t0, recovery_in_progress s0 = true →
                  health_check_block w t0 s0 tr0 = (Ok tt, s0, tr0)) ∧
    (∀ tr2, init_driver w ready = true →
            log_in_v2 w (ready ++ [InitDriver true]) = (Ok false, tr2) →
            r = Err (SystemExit 1) ∧
            logins (ready ++ evs) = (logins tr + 1)%nat ∧
            ready ++ evs
            = tr2 ++ [failure_alert w tr2]
                  ++ shutdown_events w true (tr2 ++ [failure_alert w tr2])
                  ++ [Sleep 10000]) ∧
    (∀ tr2, init_driver w ready = true →
            log_in_v2 w (ready ++ [InitDriver true]) = (Ok true, tr2) →
            r = Ok tt ∧ ready ++ evs = tr2 ++ [Sleep 10000] ∧
            session_start_time s' = clock w tr2).
Proof.
  apply (dead_session_cooldown_single_recovery Samples.dead_and_locked
           Samples.running [Sleep 12000]
           (boot_time Samples.dead_and_locked + 12000)).
  - vm_compute. discriminate.
  - reflexivity.
  - reflexivity.
Defined.

(** [SystemExit] is no [Exception]: the handler of the loop lets it pass, *)
Lemma exit_passes_loop_handler (w : world) (s s' : sched)
  (tr tr' : list event) (code : Z) :
  iteration w s tr = (Err (SystemExit code), s', tr') →
  try_except (iteration w) (loop_error_handler w) s tr
  = (Err (SystemExit code), s', tr').
Proof. intros H. unfold try_except. by rewrite H. Qed.

(** and so do the handlers around the loop, which only add the last
    [shutdown_environment]: the process ends with the status of the exit. *)
Lemma exit_ends_run_scheduler (w : world) (n : nat) (s s' : sched)
  (tr tr' : list event) (code : Z) :
  (startup w;; passes w n) s tr = (Err (SystemExit code), s', tr') →
  (run_scheduler w n s tr).1.1 = Err (SystemExit code).
Proof.
  intros H. unfold run_scheduler. rewrite H.
  unfold try_finally, try_except, shutdown_environment. unfold_sm. unfold_m.
  by destruct (webdriver_instance s').
Qed.

(** A whole run on the fake clock: the session is lost, the dead report
    comes with the next health check, and 217 seconds of pauses later the
    process has exited with status 1 after two logins in all, the first at
    startup and the one of the recovery. *)
Example lost_session_run :
  let r := run_scheduler Samples.lost_after_12s 60 initial [] in
  r.1.1 = Err (SystemExit 1)
  ∧ logins r.2 = 2%nat
  ∧ elapsed r.2 = 217000
  ∧ pushes r.2 = [RecoveryFailedAt (boot_time Samples.lost_after_12s + 207000)].
Proof. vm_compute. repeat split; reflexivity. Qed.

End SchedulerFacts.

(** ** Persisting a batch *)

Section StoreFacts.

Import Watermark Store.

Lemma length_app_string (a b : string) :
  String.length (a +:+ b) = (String.length a + String.length b)%nat.
Proof. induction a as [|c a IH]; simpl; [done|]. by f_equal. Qed.

Lemma app_string_inv (a b c : string) : a +:+ b = a +:+ c → b = c.
Proof.
  induction a as [|x a IH]; simpl; [done|]. intros [= H]. by apply IH.
Qed.

Lemma app_string_nil_r (a : string) : a +:+ "" = a.
Proof.
  induction a as [|x a IH]; [done|].
  change (String x a +:+ "") with (String x (a +:+ "")). by rewrite IH.
Qed.

Lemma app_string_assoc (a b c : string) : (a +:+ b) +:+ c = a +:+ b +:+ c.
Proof.
  induction a as [|x a IH]; [done|].
  change (String x (a +:+ b) +:+ c = String x (a +:+ b +:+ c)).
  by rewrite <- IH.
Qed.

Lemma temp_of_fresh (filename : string) : temp_of filename ≠ filename.
Proof.
  unfold temp_of. intros H. apply (f_equal String.length) in H.
  rewrite length_app_string in H. simpl in H. lia.
Qed.

Lemma test_file_not_batch (L : lib) (data_dir : string) (now : Z) :
  test_file data_dir ≠ batch_filename L data_dir now.
Proof.
  unfold test_file, batch_filename, join. intros H.
  apply app_string_inv in H. discriminate H.
Qed.

Lemma apply_leaves (p : string) (op : fs_op) (files : fs) :
  leaves p op → apply_op files op !! p = files !! p.
Proof.
  destruct op as [dir|q|q chunk|src dst|q]; simpl; intros H.
  - done.
  - by rewrite lookup_insert_ne.
  - destruct (files !! q); [|done]. by rewrite lookup_insert_ne.
  - destruct H as [Hs Hd]. destruct (files !! src); [|done].
    by rewrite lookup_insert_ne, lookup_delete_ne.
  - by rewrite lookup_delete_ne.
Qed.

Lemma run_leaves (p : string) (ops : list fs_op) :
  ∀ files : fs, Forall (leaves p) ops → run_ops ops files !! p = files !! p.
Proof.
  induction ops as [|op ops IH]; intros files H; [done|].
  apply Forall_cons in H as [Hop Hops]. unfold run_ops in *. simpl.
  by rewrite (IH _ Hops), apply_leaves.
Qed.

Lemma run_chunks (path : string) (chunks : list string) :
  ∀ (files : fs) (written : string),
    files !! path = Some written →
    run_ops (WriteChunk path <$> chunks) files !! path
    = Some (written +:+ foldr String.app "" chunks).
Proof.
  induction chunks as [|c chunks IH]; intros files written H.
  - simpl. by rewrite H, app_string_nil_r.
  - unfold run_ops in *. simpl. rewrite H.
    rewrite (IH _ (written +:+ c)) by apply lookup_insert_eq.
    by rewrite app_string_assoc.
Qed.

(** Once [write_json] is through, the file holds the whole dump. *)
Lemma run_write_json (L : lib) (path : string) (data : value) (files : fs) :
  run_ops (write_json L path data) files !! path = Some (dumped L data).
Proof.
  unfold write_json, dumped.
  change (run_ops (OpenW path :: ?l) files)
    with (run_ops l (<[path := ""]> files)).
  by rewrite (run_chunks _ _ _ "") by apply lookup_insert_eq.
Qed.

Lemma write_json_leaves (L : lib) (path p : string) (data : value) :
  path ≠ p → Forall (leaves p) (write_json L path data).
Proof.
  intros H. unfold write_json. apply Forall_cons. split; [done|].
  apply Forall_fmap, Forall_forall. by intros chunk _.
Qed.

Lemma prefix_app_cases {A : Type} (done l k : list A) :
  done `prefix_of` l ++ k →
  done `prefix_of` l ∨ ∃ k', done = l ++ k' ∧ k' `prefix_of` k.
Proof.
  revert done. induction l as [|x l IH]; intros done H.
  - right. by exists done.
  - destruct done as [|y done]; [left; apply prefix_nil|].
    simpl in H. pose proof (prefix_cons_inv_1 _ _ _ _ H) as ->.
    apply prefix_cons_inv_2, IH in H as [H|(k' & -> & H)].
    + left. by apply prefix_cons.
    + right. by exists k'.
Qed.

Lemma Forall_prefix {A : Type} (P : A → Prop) (done l : list A) :
  done `prefix_of` l → Forall P l → Forall P done.
Proof. intros [k ->] H. by apply Forall_app in H as [H _]. Qed.

Lemma run_ops_app (ops1 ops2 : list fs_op) (files : fs) :
  run_ops (ops1 ++ ops2) files = run_ops ops2 (run_ops ops1 files).
Proof. apply foldl_app. Qed.

Lemma leaves_not_written (p : string) (ops : list fs_op) :
  Forall (leaves p) ops → Forall (fun op => written op ≠ Some p) ops.
Proof.
  intros H. eapply Forall_impl; [exact H|].
  intros [dir|q|q chunk|src dst|q]; simpl; congruence.
Qed.

(** The shape the two persisting paths share. *)
Lemma staged_write (L : lib) (tmp final : string) (data : value)
  (pre mid : list fs_op) (files : fs) :
  tmp ≠ final →
  Forall (leaves final) pre →
  Forall (fun op => ∀ src dst, op ≠ Rename src dst) pre →
  mid = [] ∨ mid = [RemoveFile final] →
  let ops := pre ++ write_json L tmp data ++ mid ++ [Rename tmp final] in
  (∀ done, done `prefix_of` ops →
           run_ops done files !! final = files !! final
           ∨ run_ops done files !! final = None
           ∨ run_ops done files !! final = Some (dumped L data))
  ∧ staged_then_renamed ops files tmp final (dumped L data).
Proof.
  intros Hne Hpre Hren Hmid ops.
  pose proof (write_json_leaves L tmp final data Hne) as Hw.
  assert (run_ops (pre ++ write_json L tmp data ++ mid) files !! tmp
          = Some (dumped L data)) as Htmp.
  { rewrite !run_ops_app.
    rewrite run_leaves; [apply run_write_json|].
    destruct Hmid as [->| ->]; [done|]. by repeat constructor. }
  assert (Forall (leaves final) (pre ++ write_json L tmp data)) as Hpw
    by (by apply Forall_app).
  assert (run_ops (pre ++ write_json L tmp data) files !! final
          = files !! final) as Hbase by (by apply run_leaves).
  assert (run_ops (pre ++ write_json L tmp data) files !! tmp
          = Some (dumped L data)) as Hstaged.
  { rewrite run_ops_app. apply run_write_json. }
  split.
  - intros done Hdone. unfold ops in Hdone. rewrite app_assoc in Hdone.
    apply prefix_app_cases in Hdone as [Hdone|(rest & -> & Hrest)].
    { left. apply run_leaves. by apply (Forall_prefix _ _ _ Hdone). }
    rewrite run_ops_app.
    set (base := run_ops (pre ++ write_json L tmp data) files) in *.
    destruct Hmid as [->| ->]; simpl in Hrest.
    + destruct rest as [|op rest]; [by left|].
      pose proof (prefix_cons_inv_1 _ _ _ _ Hrest) as ->.
      apply prefix_cons_inv_2, prefix_nil_inv in Hrest as ->.
      right. right. unfold run_ops. simpl. rewrite Hstaged.
      apply lookup_insert_eq.
    + destruct rest as [|op rest]; [by left|].
      pose proof (prefix_cons_inv_1 _ _ _ _ Hrest) as ->.
      apply prefix_cons_inv_2 in Hrest.
      destruct rest as [|op rest].
      * right. left. unfold run_ops. simpl. apply lookup_delete_eq.
      * pose proof (prefix_cons_inv_1 _ _ _ _ Hrest) as ->.
        apply prefix_cons_inv_2, prefix_nil_inv in Hrest as ->.
        right. right. unfold run_ops. simpl.
        rewrite lookup_delete_ne by done. rewrite Hstaged.
        apply lookup_insert_eq.
  - exists (pre ++ write_json L tmp data ++ mid).
    split; [unfold ops; by rewrite <- !app_assoc|].
    split.
    { apply Forall_app. split; [by apply leaves_not_written|].
      apply Forall_app. split; [by apply leaves_not_written|].
      destruct Hmid as [->| ->]; by repeat constructor. }
    split.
    { apply Forall_app. split; [done|]. apply Forall_app. split.
      - unfold write_json. apply Forall_cons. split; [done|].
        apply Forall_fmap, Forall_forall. by intros chunk _.
      - destruct Hmid as [->| ->]; by repeat constructor. }
    split; [done|].
    unfold ops.
    replace (pre ++ write_json L tmp data ++ mid ++ [Rename tmp final])
      with ((pre ++ write_json L tmp data ++ mid) ++ [Rename tmp final])
      by (by rewrite <- !app_assoc).
    unfold run_ops. rewrite foldl_snoc. fold (run_ops
      (pre ++ write_json L tmp data ++ mid) files).
    cbn [apply_op]. rewrite Htmp. apply lookup_insert_eq.
Qed.

Lemma probe_leaves (L : lib) (data_dir : string) (now : Z) :
  Forall (leaves (batch_filename L data_dir now))
    [Makedirs data_dir; OpenW (test_file data_dir);
     WriteChunk (test_file data_dir) "test"; RemoveFile (test_file data_dir)].
Proof.
  pose proof (test_file_not_batch L data_dir now).
  by repeat constructor.
Qed.

(** C9. Whatever the fetcher returned, and wherever the operations of the
    persist stop (a crash, or an operation that raises), the name of the
    batch holds what it held before, nothing, or the complete content:
    never a part of it. No operation writes into that name. And when there
    is a list of transactions to persist, empty or not, the operations end
    with the rename of the temporary file, which holds the complete content
    by then. *)
Theorem batch_never_partial (L : lib) (data_dir : string) (now : Z)
  (files : fs) (transaction_data : value) :
  let ops := record_batch L data_dir now files transaction_data in
  let filename := batch_filename L data_dir now in
  let content := batch_content L now transaction_data in
  (∀ done, done `prefix_of` ops →
           run_ops done files !! filename = files !! filename
           ∨ run_ops done files !! filename = None
           ∨ run_ops done files !! filename = Some content)
  ∧ (∀ op, op ∈ ops → written op ≠ Some filename)
  ∧ (∀ d l, transaction_data = VDict d →
            d !! Dedup.TRANSACTIONS = Some (VList l) →
            staged_then_renamed ops files (temp_of filename) filename content).
Proof.
  intros ops filename content.
  pose proof (temp_of_fresh filename) as Htmp.
  pose proof (probe_leaves L data_dir now) as Hprobe.
  assert (∀ os, Forall (leaves filename) os →
                (∀ done, done `prefix_of` os →
                         run_ops done files !! filename = files !! filename
                         ∨ run_ops done files !! filename = None
                         ∨ run_ops done files !! filename = Some content)
                ∧ (∀ op, op ∈ os → written op ≠ Some filename)) as Hquiet.
  { intros os Hos. split.
    - intros done Hdone. left. apply run_leaves.
      by apply (Forall_prefix _ _ _ Hdone).
    - apply Forall_forall. by apply leaves_not_written. }
  assert (∀ data pre mid,
             Forall (leaves filename) pre →
             Forall (fun op => ∀ src dst, op ≠ Rename src dst) pre →
             mid = [] ∨ mid = [RemoveFile filename] →
             dumped L data = content →
             let os := pre ++ write_json L (temp_of filename) data ++ mid
                           ++ [Rename (temp_of filename) filename] in
             (∀ done, done `prefix_of` os →
                      run_ops done files !! filename = files !! filename
                      ∨ run_ops done files !! filename = None
                      ∨ run_ops done files !! filename = Some content)
             ∧ (∀ op, op ∈ os → written op ≠ Some filename)
             ∧ staged_then_renamed os files (temp_of filename) filename
                 content) as Hstaged.
  { intros data pre mid Hpre Hren Hmid <- os.
    destruct (staged_write L (temp_of filename) filename data pre mid files
                Htmp Hpre Hren Hmid) as [Hp Hs].
    split; [exact Hp|]. split; [|exact Hs].
    destruct Hs as (staged & Heq & Hw & _). fold os in Heq. rewrite Heq.
    intros op Hop. apply elem_of_app in Hop as [Hop|Hop].
    - by apply (proj1 (Forall_forall _ _) Hw).
    - apply list_elem_of_singleton in Hop as ->. done. }
  assert (∀ d, truthy (get d Dedup.TRANSACTIONS VNone)
               = truthy (get d Dedup.TRANSACTIONS (VList []))) as Hget.
  { intros d. unfold get. by destruct (d !! Dedup.TRANSACTIONS). }
  unfold ops, content, record_batch.
  destruct (negb (truthy transaction_data) || _) eqn:Hc.
  - (* the empty marker *)
    assert (dumped L (empty_data L now)
            = batch_content L now transaction_data) as Hcontent.
    { unfold batch_content. destruct transaction_data as [| | | | |d]; try done.
      simpl in Hc. rewrite Hget in Hc.
      destruct (truthy (get d Dedup.TRANSACTIONS (VList []))) eqn:Ht;
        [|done].
      rewrite orb_false_r in Hc. apply negb_true_iff in Hc.
      apply negb_false_iff, bool_decide_eq_true in Hc. subst d.
      unfold get in Ht. by rewrite lookup_empty in Ht. }
    destruct (Hstaged (empty_data L now) [Makedirs data_dir] []
                ltac:(by repeat constructor) ltac:(by repeat constructor)
                ltac:(by left) Hcontent) as (H1 & H2 & H3).
    split; [exact H1|]. split; [exact H2|]. intros d l _ _. exact H3.
  - apply orb_false_iff in Hc as [Htruthy Hdict].
    destruct transaction_data as [| | | | |d];
      try (destruct (Hquiet [] (List.Forall_nil _)) as [H1 H2];
           split; [exact H1|]; split; [exact H2|];
           intros d' l' Heq; discriminate Heq).
    apply negb_false_iff in Hdict. rewrite Hget in Hdict.
    unfold save_transactions_to_file. rewrite Hdict. cbn [negb].
    destruct (len (get d Dedup.TRANSACTIONS (VList []))) as [count|] eqn:Hlen.
    + assert (dumped L (data_to_save L now count
                          (get d Dedup.TRANSACTIONS (VList [])))
              = content) as Hcontent.
      { unfold content, batch_content. by rewrite Hdict, Hlen. }
      destruct (Hstaged
                  (data_to_save L now count
                     (get d Dedup.TRANSACTIONS (VList [])))
                  [Makedirs data_dir; OpenW (test_file data_dir);
                   WriteChunk (test_file data_dir) "test";
                   RemoveFile (test_file data_dir)]
                  (if bool_decide (is_Some (files !! filename))
                   then [RemoveFile filename] else [])
                  Hprobe ltac:(by repeat constructor)
                  ltac:(by case_bool_decide; [right|left]) Hcontent)
        as (H1 & H2 & H3).
      split; [exact H1|]. split; [exact H2|]. intros d' l _ _. exact H3.
    + destruct (Hquiet _ Hprobe) as [H1 H2].
      split; [exact H1|]. split; [exact H2|].
      intros d' l [= <-] Hl. unfold get in Hlen. rewrite Hl in Hlen.
      discriminate Hlen.
Qed.

Lemma batch_never_partial_witness :
  let fetched : value :=
    VDict {[ Dedup.TRANSACTIONS :=
               VList ((VDict ∘ Dedup.encode_txn) <$> Samples.newest) ]} in
  let final := batch_filename Samples.strict "data" 1793700000 in
  final = "data/mb_biz_transactions_20261103_100000.json"
  ∧ staged_then_renamed
      (record_batch Samples.strict "data" 1793700000 ∅ fetched) ∅
      (temp_of final) final (batch_content Samples.strict 1793700000 fetched).
Proof.
  split; [reflexivity|].
  eapply (proj2 (proj2 (batch_never_partial Samples.strict "data" 1793700000
                          ∅ _))); reflexivity.
Defined.

End StoreFacts.

(** ** The watermark *)

Section WatermarkFacts.

Import Dedup Watermark.

Context (L : lib).

Lemma date_cell_encode (t : transaction) :
  str_strip (get (encode_txn t) NGAY_GIAO_DICH (VStr "")) = Ok (date_cell t).
Proof.
  unfold encode_txn, date_cell, get. rewrite lookup_fmap.
  by destruct (t !! NGAY_GIAO_DICH).
Qed.

Lemma latest_loop_batch (txs : list transaction) :
  ∀ acc : option Z,
    ∃ r : option Z,
      latest_loop L ((VDict ∘ encode_txn) <$> txs) acc = Ok r ∧
      match r with
      | None => acc = None ∧ times_of L txs = []
      | Some T => latest_of L (option_list acc ++ times_of L txs) T
      end.
Proof.
  induction txs as [|t txs IH]; intros acc.
  - exists acc. split; [done|]. destruct acc as [T|]; [|done].
    unfold latest_of. simpl. split; [apply list_elem_of_here|].
    intros t Ht. apply list_elem_of_singleton in Ht as ->. lia.
  - simpl. rewrite date_cell_encode. unfold times_of. simpl.
    fold (times_of L txs).
    destruct (nonempty (date_cell t)); [|apply IH].
    destruct (parse_transaction_time L (date_cell t)) as [dt|]; [|apply IH].
    simpl. destruct acc as [latest|].
    + destruct (localize L latest <? localize L dt) eqn:Hcmp.
      * apply Z.ltb_lt in Hcmp.
        destruct (IH (Some dt)) as (r & Hr & HT). exists r. split; [done|].
        destruct r as [T|]; [|by destruct HT].
        destruct HT as [Hin Hmax]. simpl in *. split.
        -- by apply list_elem_of_further.
        -- intros x Hx. apply elem_of_cons in Hx as [->|Hx].
           ++ specialize (Hmax dt (list_elem_of_here _ _)). lia.
           ++ by apply Hmax.
      * apply Z.ltb_ge in Hcmp.
        destruct (IH (Some latest)) as (r & Hr & HT). exists r.
        split; [done|]. destruct r as [T|]; [|by destruct HT].
        destruct HT as [Hin Hmax]. simpl in *. split.
        -- apply elem_of_cons in Hin as [->|Hin];
             [apply list_elem_of_here|].
           by do 2 apply list_elem_of_further.
        -- intros x Hx. apply elem_of_cons in Hx as [->|Hx].
           ++ apply Hmax, list_elem_of_here.
           ++ apply elem_of_cons in Hx as [->|Hx].
              ** specialize (Hmax latest (list_elem_of_here _ _)). lia.
              ** by apply Hmax, list_elem_of_further.
    + destruct (IH (Some dt)) as (r & Hr & HT). exists r. split; [done|].
      destruct r as [T|]; [exact HT|]. by destruct HT.
Qed.

Lemma truthy_batch (txs : list transaction) :
  truthy (VList ((VDict ∘ encode_txn) <$> txs)) = negb (bool_decide (txs = [])).
Proof. by destruct txs. Qed.

(** C2, amended. With no batch file the watermark is the start of the
    current day. Otherwise the newest batch decides: when one of its
    transactions has a readable date, the watermark is the latest of their
    times less 120 seconds; when it has no transaction, or none with a
    readable date, the watermark is its own fetch timestamp less the same
    120 seconds. In each case the watermark is that time in the format
    [FORMAT], which keeps the minutes and drops the seconds. *)
Theorem watermark_is_buffered (files : list file) (now : Z) :
  (files = [] →
   get_from_date_for_fetch L files now
   = strftime L (now - now mod 86400) FORMAT)
  ∧ ∀ (newest_file : file) (timestamp_str : string)
      (txs : list transaction),
      newest_of files = Some newest_file →
      holds_stamped newest_file timestamp_str txs →
      (times_of L txs ≠ [] →
       ∃ T, latest_of L (times_of L txs) T ∧
            get_from_date_for_fetch L files now
            = strftime L (T - 120) FORMAT)
      ∧ (txs = [] → timestamp_str ≠ "" →
         ∀ t, parse_fetch_timestamp L timestamp_str = Some t →
              get_from_date_for_fetch L files now
              = strftime L (t - 120) FORMAT)
      ∧ (txs ≠ [] → times_of L txs = [] → timestamp_str ≠ "" →
         ∀ t, strptime L timestamp_str "%Y-%m-%d %H:%M:%S" = Some t →
              get_from_date_for_fetch L files now
              = strftime L (t - 120) FORMAT).
Proof.
  split; [by intros ->|].
  intros newest_file ts txs Hn (d & Hd & Hts & Htx).
  unfold get_from_date_for_fetch, get_last_fetch_time_from_json.
  rewrite Hn, Hd. unfold get. rewrite Hts, Htx, truthy_batch.
  split; [|split].
  - intros Htimes. destruct txs as [|t0 txs]; [done|].
    rewrite bool_decide_eq_false_2 by done. cbn [negb].
    destruct (latest_loop_batch (t0 :: txs) None) as (r & -> & Hr).
    destruct r as [T|]; [|by destruct Hr]. by exists T.
  - intros -> Hne t Ht. rewrite bool_decide_eq_true_2 by done. cbn [negb].
    replace (truthy (VStr ts)) with true
      by (symmetry; by apply nonempty_true).
    by rewrite Ht.
  - intros Hne Htimes Hts' t Ht. rewrite bool_decide_eq_false_2 by done.
    cbn [negb].
    destruct (latest_loop_batch txs None) as (r & -> & Hr).
    destruct r as [T|].
    + destruct Hr as [Hin _]. rewrite Htimes in Hin.
      by apply elem_of_nil in Hin.
    + replace (truthy (VStr ts)) with true
        by (symmetry; by apply nonempty_true).
      by rewrite Ht.
Qed.

End WatermarkFacts.

Section WatermarkExamples.

Import Dedup Watermark.

Lemma holds_stamped_file (p : string) (m : Z) (timestamp_str : string)
  (txs : list Dedup.transaction) :
  Watermark.holds_stamped (Samples.stamped_file p m timestamp_str txs)
    timestamp_str txs.
Proof. eexists. split; [reflexivity|]. split; reflexivity. Qed.

Lemma watermark_is_buffered_witness :
  let quiet := Samples.stamped_file "mb_biz_transactions_1.json" 10
                 "2026-11-03 10:00:00" [] in
  let busy := Samples.stamped_file "mb_biz_transactions_2.json" 20
                "2026-11-03 10:05:00"
                [Samples.dated "FT2" "03/11/2026 10:01:30";
                 Samples.dated "FT1" "03/11/2026 09:00"] in
  Watermark.get_from_date_for_fetch Samples.strict [] 1793710000
  = "03/11/2026 00:00"
  ∧ Watermark.get_from_date_for_fetch Samples.strict [quiet] 1793710000
    = "03/11/2026 09:58"
  ∧ ∃ T, Watermark.latest_of Samples.strict
           (Watermark.times_of Samples.strict
              [Samples.dated "FT2" "03/11/2026 10:01:30";
               Samples.dated "FT1" "03/11/2026 09:00"]) T
         ∧ Watermark.get_from_date_for_fetch Samples.strict [quiet; busy]
             1793710000
           = strftime Samples.strict (T - 120) Watermark.FORMAT.
Proof.
  intros quiet busy. split; [|split].
  - by apply (proj1 (watermark_is_buffered Samples.strict [] 1793710000)).
  - apply (proj1 (proj2 (proj2 (watermark_is_buffered Samples.strict [quiet]
                                  1793710000)
                           quiet "2026-11-03 10:00:00" [] eq_refl
                           (holds_stamped_file _ _ _ _)))
             eq_refl ltac:(discriminate) 1793700000 eq_refl).
  - apply (proj1 (proj2 (watermark_is_buffered Samples.strict [quiet; busy]
                           1793710000)
                    busy "2026-11-03 10:05:00" _ eq_refl
                    (holds_stamped_file _ _ _ _))).
    vm_compute. discriminate.
Defined.

(** C2, as stated, fails: the watermark of an empty batch fetched at
    10:00:00 is 09:58, two minutes before its fetch timestamp. *)
Lemma empty_batch_watermark_not_fetch_time :
  ¬ (∀ (L : lib) (files : list file) (now : Z) (newest_file : file)
       (timestamp_str : string) (t : Z),
       newest_of files = Some newest_file →
       holds_stamped newest_file timestamp_str [] →
       parse_fetch_timestamp L timestamp_str = Some t →
       get_from_date_for_fetch L files now = strftime L t FORMAT).
Proof.
  intros H.
  specialize (H Samples.strict
                [Samples.stamped_file "mb_biz_transactions_1.json" 10
                   "2026-11-03 10:00:00" []]
                1793710000
                (Samples.stamped_file "mb_biz_transactions_1.json" 10
                   "2026-11-03 10:00:00" [])
                "2026-11-03 10:00:00" 1793700000 eq_refl).
  assert (get_from_date_for_fetch Samples.strict
            [Samples.stamped_file "mb_biz_transactions_1.json" 10
               "2026-11-03 10:00:00" []] 1793710000
          = "03/11/2026 09:58") as Hcode by reflexivity.
  assert (strftime Samples.strict 1793700000 FORMAT = "03/11/2026 10:00")
    as Hclaim by reflexivity.
  rewrite Hcode, Hclaim in H.
  assert ("03/11/2026 09:58" = "03/11/2026 10:00") as Habs.
  { apply H; [|reflexivity]. eexists. split; [reflexivity|].
    split; reflexivity. }
  discriminate Habs.
Qed.

End WatermarkExamples.

(** ** The dedup store, on any JSON *)

Section DedupMore.

Import Dedup Filtering.

Lemma max_by_mtime_split (fs : list file) :
  ∀ best : file,
    let r := max_by_mtime best fs in
    (r = best ∧ ∀ g, g ∈ fs → mtime g ≤ mtime best)
    ∨ (∃ pre post, fs = pre ++ r :: post ∧ mtime best < mtime r ∧
                   (∀ g, g ∈ pre → mtime g < mtime r) ∧
                   (∀ g, g ∈ post → mtime g ≤ mtime r)).
Proof.
  induction fs as [|f fs IH]; intros best; simpl.
  - left. split; [done|]. intros g Hg. by apply elem_of_nil in Hg.
  - destruct (Z.ltb (mtime best) (mtime f)) eqn:Hlt.
    + apply Z.ltb_lt in Hlt. right.
      destruct (IH f) as [[Hr Hall]|(pre & post & Hfs & Hbr & Hpre & Hpost)].
      * exists [], fs. simpl in *. rewrite Hr. split; [done|].
        split; [done|]. split; [|done].
        intros g Hg. by apply elem_of_nil in Hg.
      * exists (f :: pre), post. simpl in *. split; [by rewrite Hfs at 1|].
        split; [lia|]. split; [|done].
        intros g Hg. apply elem_of_cons in Hg as [->|Hg]; [done|].
        by apply Hpre.
    + apply Z.ltb_ge in Hlt.
      destruct (IH best) as [[Hr Hall]|(pre & post & Hfs & Hbr & Hpre & Hpost)].
      * left. simpl in *. split; [done|].
        intros g Hg. apply elem_of_cons in Hg as [->|Hg]; [done|].
        by apply Hall.
      * right. exists (f :: pre), post. simpl in *.
        split; [by rewrite Hfs at 1|]. split; [done|]. split; [|done].
        intros g Hg. apply elem_of_cons in Hg as [->|Hg]; [lia|].
        by apply Hpre.
Qed.

(** X1. The newest file is the first, in glob order, of those with the
    largest modification time: every file before it is strictly older, and
    no file after it is younger. *)
Theorem newest_is_first_latest (files : list file) (newest_file : file) :
  newest_of files = Some newest_file →
  ∃ pre post,
    files = pre ++ newest_file :: post ∧
    (∀ g, g ∈ pre → mtime g < mtime newest_file) ∧
    (∀ g, g ∈ post → mtime g ≤ mtime newest_file).
Proof.
  destruct files as [|f fs]; [done|]. simpl. intros [= <-].
  destruct (max_by_mtime_split fs f)
    as [[Hr Hall]|(pre & post & Hfs & Hbr & Hpre & Hpost)].
  - exists [], fs. simpl in *. rewrite Hr. split; [done|].
    split; [|done]. intros g Hg. by apply elem_of_nil in Hg.
  - exists (f :: pre), post. simpl in *. split; [by rewrite Hfs at 1|].
    split; [|done]. intros g Hg.
    apply elem_of_cons in Hg as [->|Hg]; [done|]. by apply Hpre.
Qed.


Lemma newest_is_first_latest_witness :
  ∃ pre post,
    Samples.store
    = pre ++ Samples.batch_file "mb_biz_transactions_2.json" 20 Samples.newest
          :: post ∧
    (∀ g, g ∈ pre →
          mtime g < mtime (Samples.batch_file "mb_biz_transactions_2.json" 20
                             Samples.newest)) ∧
    (∀ g, g ∈ post →
          mtime g ≤ mtime (Samples.batch_file "mb_biz_transactions_2.json" 20
                             Samples.newest)).
Proof.
  apply (newest_is_first_latest Samples.store). reflexivity.
Defined.

Lemma collect_ids_acc (txs : list value) :
  ∀ ids, collect_ids txs ids = ids ++ collect_ids txs [].
Proof.
  induction txs as [|v txs IH]; intros ids; simpl.
  - by rewrite app_nil_r.
  - destruct v as [| | | | |txn]; try apply IH.
    destruct (txn_id_of txn) as [txn_id|]; [|by rewrite app_nil_r].
    destruct (nonempty txn_id); [|apply IH].
    rewrite (IH (ids ++ [txn_id])), (IH [txn_id]).
    by rewrite <- !app_assoc.
Qed.

Lemma collect_file_acc (f : file) (ids : list string) :
  collect_file f ids = ids ++ collect_file f [].
Proof.
  unfold collect_file.
  destruct (file_data f) as [[| | | | |d]|]; try by rewrite app_nil_r.
  destruct (transactions_of d); try by rewrite app_nil_r.
  apply collect_ids_acc.
Qed.

Lemma old_ids_acc (fs : list file) :
  ∀ ids,
    fold_left (fun ids f => collect_file f ids) fs ids
    = ids ++ old_transaction_ids_of fs.
Proof.
  unfold old_transaction_ids_of.
  induction fs as [|f fs IH]; intros ids; simpl.
  - by rewrite app_nil_r.
  - rewrite (IH (collect_file f ids)), (IH (collect_file f [])).
    rewrite (collect_file_acc f ids). by rewrite <- app_assoc.
Qed.

Lemma collect_ids_nonempty (txs : list value) :
  ∀ ids, "" ∉ ids → "" ∉ collect_ids txs ids.
Proof.
  induction txs as [|v txs IH]; intros ids Hids; simpl; [done|].
  destruct v as [| | | | |txn]; try by apply IH.
  destruct (txn_id_of txn) as [txn_id|]; [|done].
  destruct txn_id as [|c s]; simpl; [by apply IH|].
  apply IH. intros H. apply elem_of_app in H as [H|H]; [done|].
  apply elem_of_cons in H as [H|H]; [discriminate H|].
  by apply elem_of_nil in H.
Qed.

(** X2. The identifiers of the old files are collected file by file, in glob
    order; a file that cannot be read, or that holds no object, adds none
    and does not stop the collection; no identifier collected is empty. *)
Theorem old_ids_file_by_file (before after : list file) (f : file) :
  old_transaction_ids_of (before ++ f :: after)
  = old_transaction_ids_of before ++ collect_file f []
    ++ old_transaction_ids_of after
  ∧ (file_data f = None → collect_file f [] = [])
  ∧ ("" ∉ old_transaction_ids_of (before ++ f :: after)).
Proof.
  split; [|split].
  - unfold old_transaction_ids_of at 1. rewrite fold_left_app. simpl.
    rewrite old_ids_acc. fold (old_transaction_ids_of before).
    rewrite (collect_file_acc f). by rewrite <- app_assoc.
  - unfold collect_file. by intros ->.
  - generalize (before ++ f :: after). intros fs.
    unfold old_transaction_ids_of.
    assert (∀ ids, "" ∉ ids →
              "" ∉ fold_left (fun ids f => collect_file f ids) fs ids) as H.
    { induction fs as [|g fs IH]; intros ids Hids; simpl; [done|].
      apply IH. unfold collect_file.
      destruct (file_data g) as [[| | | | |d]|]; try done.
      destruct (transactions_of d); try done.
      by apply collect_ids_nonempty. }
    apply H. intros H'. by apply elem_of_nil in H'.
Qed.

(** X3. Whatever JSON the newest file holds, the transactions found new are the
    dictionary entries of its list whose identifier is a non-empty string
    absent from the old identifiers, in file order, appended to those found
    so far; one entry whose identifier is not a string makes the whole
    search raise. *)
Theorem unique_loop_is_a_filter (old : list string) (l : list value) :
  ∀ acc : list dict,
    unique_loop old l acc
    = if forallb readable (dicts l)
      then Ok (acc ++ List.filter (kept old) (dicts l))
      else Raise.
Proof.
  induction l as [|v l IH]; intros acc; simpl.
  - by rewrite app_nil_r.
  - destruct v as [| | | | |txn]; try apply IH.
    unfold dicts. simpl. fold (dicts l). unfold readable at 1, kept at 1.
    destruct (txn_id_of txn) as [txn_id|e] eqn:Hid.
    + destruct (nonempty txn_id), (bool_decide (txn_id ∈ old));
        simpl; rewrite IH; destruct (forallb readable (dicts l)); try done.
      by rewrite <- app_assoc.
    + simpl. unfold txn_id_of, str_strip in Hid.
      destruct (get txn SO_BUT_TOAN (VStr "")); try discriminate Hid;
        by injection Hid as <-.
Qed.

End DedupMore.

(** ** The forwarder: pruning and orders *)

Section ForwarderMore.

Import Dedup Forwarder Pruning.

Ltac unfold_eff :=
  unfold mbind, M_bind, mret, M_ret, bind, ret, call_lark, call_woo, sleep,
    remove, emit, lift, raise, try_except, answer in *.

Lemma removals_app (tr evs : list event) :
  removals (tr ++ evs) = removals tr ++ removals evs.
Proof. apply omap_app. Qed.

Lemma woo_calls_app (tr evs : list event) :
  woo_calls (tr ++ evs) = woo_calls tr ++ woo_calls evs.
Proof. apply omap_app. Qed.

Lemma removals_removes (fs : list file) :
  removals (Remove ∘ path <$> fs) = path <$> fs.
Proof. induction fs as [|f fs IH]; [done|]. simpl. f_equal. exact IH. Qed.

Lemma woo_calls_removes (fs : list file) :
  woo_calls (Remove ∘ path <$> fs) = [].
Proof. induction fs as [|f fs IH]; [done|]. simpl. exact IH. Qed.

Lemma unique_loop_exception (old : list string) (l : list value) :
  ∀ (acc : list dict) (e : exn), unique_loop old l acc = Err e → e = Exception.
Proof.
  induction l as [|v l IH]; intros acc e; simpl; [done|].
  destruct v as [| | | | |txn]; try apply IH.
  destruct (txn_id_of txn) as [txn_id|e'] eqn:Hid.
  - destruct (_ || _); apply IH.
  - intros [= <-]. unfold txn_id_of, str_strip in Hid.
    destruct (get txn SO_BUT_TOAN (VStr "")); try discriminate Hid;
      by injection Hid as <-.
Qed.

(** The push loop, whatever the channel does: it returns or raises an
    [Exception], and only pushes and pauses. *)
Lemma push_loop_any (w : world) (txs : list dict) :
  ∀ (n : nat) (tr : list event),
    ∃ (r : res nat) (evs : list event),
      push_loop w txs n tr = (r, tr ++ evs) ∧
      (r = Raise ∨ ∃ n', r = Ok n') ∧
      removals evs = [] ∧ woo_calls evs = [].
Proof.
  induction txs as [|txn rest IH]; intros n tr.
  - exists (Ok n), []. simpl. unfold_eff. rewrite app_nil_r.
    repeat split; try done. right. by exists n.
  - simpl. unfold_eff.
    destruct (push_to_Lark_Channel w tr (content_of txn)) as [v|] eqn:Hv.
    + destruct (IH (if pushed v then S n else n)
                  ((tr ++ [LarkPush (content_of txn) (Ok v)]) ++ [Sleep 500]))
        as (r & evs & Hrun & Hr & Hrem & Hw).
      exists r, (LarkPush (content_of txn) (Ok v) :: Sleep 500 :: evs).
      rewrite Hrun, <- !app_assoc. simpl. by rewrite Hrem, Hw.
    + exists Raise, [LarkPush (content_of txn) Raise].
      repeat split; try done. by left.
Qed.

Lemma woo_loop_any (w : world) (txs : list dict) :
  ∀ tr : list event,
    ∃ evs : list event,
      woo_loop w txs tr = (Ok tt, tr ++ evs) ∧
      woo_calls evs = filter is_credit txs ∧
      pushes evs = [] ∧ removals evs = [].
Proof.
  induction txs as [|txn rest IH]; intros tr.
  - exists []. simpl. unfold_eff. by rewrite app_nil_r.
  - simpl. rewrite filter_cons.
    destruct (decide (is_credit txn)) as [Hc|Hc]; unfold is_credit in Hc.
    + rewrite Hc. unfold_eff.
      destruct (IH (tr ++ [WooProcess txn
                             (answer (process_woo_transaction w tr txn))]))
        as (evs & Hrun & Hw & Hp & Hrem).
      exists (WooProcess txn (answer (process_woo_transaction w tr txn))
                :: evs).
      rewrite <- app_assoc in Hrun. simpl in Hrun.
      destruct (process_woo_transaction w tr txn) as [v|] eqn:Er; simpl in *;
        rewrite Hrun; simpl; by rewrite Hw, Hp, Hrem.
    + apply not_true_is_false in Hc. rewrite Hc. unfold_eff.
      destruct (IH tr) as (evs & Hrun & Hw & Hp & Hrem). by exists evs.
Qed.

Lemma process_woocommerce_any (w : world) (txs : list dict)
  (tr : list event) :
  ∃ evs : list event,
    process_woocommerce_transactions w txs tr = (Ok tt, tr ++ evs) ∧
    woo_calls evs
    = (if woo_configured w then filter is_credit txs else []) ∧
    pushes evs = [] ∧ removals evs = [].
Proof.
  unfold process_woocommerce_transactions, woo_configured.
  destruct txs as [|txn rest].
  - exists []. unfold_eff. rewrite app_nil_r. by destruct (_ && _).
  - destruct (env_set w "WOO_CONSUMER_KEY"); simpl.
    + destruct (env_set w "WOO_CONSUMER_SECRET"); simpl.
      * exact (woo_loop_any w (txn :: rest) tr).
      * exists []. unfold_eff. by rewrite app_nil_r.
    + exists []. unfold_eff. by rewrite app_nil_r.
Qed.

(** The forwarding half of [find_unique_transactions_v2]: the pushes, then
    the order calls; it returns or raises an [Exception], and removes no
    file. *)
Lemma forward_any (w : world) (u : list dict) (tr : list event) :
  ∃ (r : res unit) (evs : list event),
    (match u with
     | [] => ret tt
     | _ =>
         r ← push_transactions_to_lark_v2 w u;
         if (r : bool * list dict).1
         then process_woocommerce_transactions w r.2
         else ret tt
     end) tr = (r, tr ++ evs) ∧
    (r = Raise ∨ r = Ok tt) ∧ removals evs = [].
Proof.
  destruct u as [|txn rest].
  - exists (Ok tt), []. unfold_eff. rewrite app_nil_r. repeat split; auto.
  - unfold push_transactions_to_lark_v2.
    destruct (push_loop_any w (rev (txn :: rest)) 0%nat tr)
      as (r & evs & Hrun & [-> | [n' ->]] & Hrem & _).
    + exists Raise, evs. unfold_eff. rewrite Hrun. repeat split; auto.
    + unfold_eff. rewrite Hrun. cbn [fst snd].
      destruct (Nat.ltb 0 n').
      * destruct (process_woocommerce_any w (rev (txn :: rest)) (tr ++ evs))
          as (evs' & Hrun' & _ & _ & Hrem').
        exists (Ok tt), (evs ++ evs'). rewrite Hrun', app_assoc.
        repeat split; auto. by rewrite removals_app, Hrem, Hrem'.
      * exists (Ok tt), evs. repeat split; auto.
Qed.

(** X5. A run that cannot tell what is new (no file matched, the newest file
    cannot be parsed or holds no object with a list of transactions, or an
    identifier in it is not a string) returns [False] and does nothing:
    nothing is pushed, no order is processed, no file is removed. *)
Theorem unreadable_newest_is_left_alone (w : world) (files : list file)
  (tr : list event) :
  unique_transactions_of files = None →
  find_unique_transactions_v2 w files tr = (Ok false, tr).
Proof.
  unfold unique_transactions_of, find_unique_transactions_v2.
  destruct (newest_of files) as [nf|]; [|done].
  unfold process_newest.
  destruct (file_data nf) as [[| | | | |d]|]; try done.
  destruct (transactions_of d) as [| | | |new_transactions|]; try done.
  destruct (unique_loop _ new_transactions []) as [u|e] eqn:Hu; [done|].
  apply unique_loop_exception in Hu as ->. done.
Qed.

Lemma unreadable_newest_is_left_alone_witness :
  find_unique_transactions_v2 Samples.calm Cases.torn_store []
  = (Ok false, []).
Proof.
  apply (unreadable_newest_is_left_alone Samples.calm Cases.torn_store []).
  reflexivity.
Defined.

(** A whole run when the channel answers. *)
Lemma find_unique_run (w : world) (Hret : lark_returns w)
  (files : list file) (newest_file : file) (unique : list dict)
  (tr : list event) :
  unique_transactions_of files = Some (newest_file, unique) →
  ∃ (ok : bool) (sent orders : list event),
    find_unique_transactions_v2 w files tr
    = (Ok true,
       tr ++ sent ++ orders ++ (Remove ∘ path <$> prunable files)) ∧
    pushes sent = content_of <$> rev unique ∧
    woo_calls sent = [] ∧
    (unique ≠ [] → ok = true ↔ Exists push_ok sent) ∧
    pushes orders = [] ∧
    woo_calls orders
    = (if ok && woo_configured w then filter is_credit (rev unique)
       else []).
Proof.
  unfold unique_transactions_of, find_unique_transactions_v2, prunable.
  destruct (newest_of files) as [nf|]; [|done].
  unfold process_newest.
  destruct (file_data nf) as [[| | | | |d]|]; try done.
  destruct (transactions_of d) as [| | | |new_transactions|]; try done.
  destruct (unique_loop _ new_transactions []) as [u|] eqn:Hu; [|done].
  intros [= <- <-]. unfold try_except.
  change ((lift (Ok u) ≫= ?k) tr) with (k u tr). cbv beta.
  destruct u as [|txn rest].
  - exists true, [], []. unfold_eff. rewrite cleanup_data_directory_trace.
    simpl. repeat split; try done. by destruct (woo_configured w).
  - destruct (push_transactions_returns w Hret (txn :: rest) tr)
      as (ok & sent & Hrun & Hp & Hw & Hiff).
    unfold mbind, M_bind, bind. rewrite Hrun. cbn [fst snd].
    destruct ok.
    + destruct (process_woocommerce_any w (rev (txn :: rest)) (tr ++ sent))
        as (orders & Hrun' & Hw' & Hp' & _).
      rewrite Hrun', cleanup_data_directory_trace.
      exists true, sent, orders. unfold mret, M_ret, ret.
      rewrite <- !app_assoc. repeat split; try done; by apply Hiff.
    + unfold ret at 1. rewrite cleanup_data_directory_trace.
      exists false, sent, []. unfold mret, M_ret, ret.
      rewrite <- !app_assoc. repeat split; try done; by apply Hiff.
Qed.

(** X6. Orders wait for the channel. When the channel answers, the run returns
    [True] and prunes whether or not a push was accepted; the order system
    is called only when one was, and then, if it is configured, with the
    credit transactions found new, oldest first, after all the pushes. *)
Theorem orders_wait_for_a_push (w : world) (files : list file)
  (newest_file : file) (unique : list dict) (tr : list event) :
  lark_returns w →
  unique_transactions_of files = Some (newest_file, unique) →
  ∃ sent orders : list event,
    find_unique_transactions_v2 w files tr
    = (Ok true,
       tr ++ sent ++ orders ++ (Remove ∘ path <$> prunable files)) ∧
    pushes sent = content_of <$> rev unique ∧
    woo_calls sent = [] ∧ pushes orders = [] ∧
    (¬ Exists push_ok sent → woo_calls orders = []) ∧
    (Exists push_ok sent → woo_configured w = true →
     woo_calls orders = filter is_credit (rev unique)).
Proof.
  intros Hret Hu.
  destruct (find_unique_run w Hret files newest_file unique tr Hu)
    as (ok & sent & orders & Hrun & Hp & Hw & Hiff & Hp' & Hw').
  exists sent, orders. repeat split; try done.
  - intros Hno. destruct ok; [|done].
    destruct unique as [|txn rest].
    + simpl in Hw'. by destruct (woo_configured w).
    + exfalso. apply Hno, Hiff; done.
  - intros Hex Hconf. rewrite Hconf, andb_true_r in Hw'.
    destruct unique as [|txn rest].
    + by destruct ok.
    + assert (ok = true) as -> by (apply Hiff; done). done.
Qed.

Lemma all_refused_returns : lark_returns Cases.all_refused.
Proof. intros tr c. by eexists. Qed.

Lemma orders_wait_for_a_push_witness :
  ∃ sent orders : list event,
    find_unique_transactions_v2 Cases.all_refused Samples.store []
    = (Ok true,
       [] ++ sent ++ orders
       ++ (Remove ∘ path <$> prunable Samples.store)) ∧
    pushes sent
    = content_of <$> rev (encode_txn <$> [Samples.tx "FT003" "0";
                                          Samples.tx "FT002" "2,000";
                                          Samples.tx "FT002" "2,000"]) ∧
    woo_calls sent = [] ∧ pushes orders = [] ∧
    (¬ Exists push_ok sent → woo_calls orders = []) ∧
    (Exists push_ok sent → woo_configured Cases.all_refused = true →
     woo_calls orders
     = filter is_credit (rev (encode_txn <$> [Samples.tx "FT003" "0";
                                              Samples.tx "FT002" "2,000";
                                              Samples.tx "FT002" "2,000"]))).
Proof.
  apply (orders_wait_for_a_push Cases.all_refused Samples.store
           (Samples.batch_file "mb_biz_transactions_2.json" 20
              Samples.newest)).
  - apply all_refused_returns.
  - reflexivity.
Defined.

(** X7. The forwarder pauses half a second after every push: forwarding [n]
    transactions to a channel that answers takes [n] times 500 ms of
    sleep. *)
Theorem forwarding_is_paced (w : world) (transactions : list dict)
  (tr : list event) :
  lark_returns w →
  elapsed (push_transactions_to_lark_v2 w transactions tr).2
  = elapsed tr + 500 * Z.of_nat (length transactions).
Proof.
  intros Hret. destruct transactions as [|txn rest].
  - simpl. lia.
  - unfold push_transactions_to_lark_v2.
    destruct (push_loop_returns w Hret (rev (txn :: rest)) 0%nat tr)
      as (evs & n' & Hrun & _ & _ & He & _).
    unfold_eff. rewrite Hrun. cbn [snd].
    rewrite elapsed_app, He, length_rev. done.
Qed.

Lemma forwarding_is_paced_witness :
  elapsed (push_transactions_to_lark_v2 Samples.calm Samples.three []).2
  = elapsed [] + 500 * Z.of_nat (length Samples.three).
Proof.
  apply (forwarding_is_paced Samples.calm Samples.three []).
  apply calm_returns.
Defined.

Lemma is_credit_encode (t : transaction) :
  is_credit (encode_txn t) ↔ default "0" (t !! PHAT_SINH_CO) ≠ "0".
Proof.
  unfold is_credit, encode_txn, get. rewrite lookup_fmap.
  destruct (t !! PHAT_SINH_CO) as [c|]; simpl.
  - rewrite negb_true_iff. apply String.eqb_neq.
  - split; [discriminate|done].
Qed.

Lemma filter_credit_encode (txs : list transaction) :
  filter is_credit (encode_txn <$> txs)
  = encode_txn <$> filter (fun t => default "0" (t !! PHAT_SINH_CO) ≠ "0") txs.
Proof.
  induction txs as [|t txs IH]; [done|].
  rewrite fmap_cons, !filter_cons.
  destruct (decide (is_credit (encode_txn t))) as [Hc|Hc];
    destruct (decide (default "0" (t !! PHAT_SINH_CO) ≠ "0")) as [Hd|Hd].
  - by rewrite fmap_cons, IH.
  - by apply is_credit_encode in Hc.
  - by apply is_credit_encode in Hd.
  - exact IH.
Qed.

(** X29. [process_woocommerce_transactions] always returns. Without both
    credentials it calls nothing; with them it hands to the order system, in
    list order, exactly the transactions whose credit cell is there and is
    not the text ["0"], each one even when the call for another one raised.
    Nothing is pushed to the channel and no file is removed. *)
Theorem orders_cover_every_credit (w : world) (txs : list transaction)
  (tr : list event) :
  ∃ evs : list event,
    process_woocommerce_transactions w (encode_txn <$> txs) tr
    = (Ok tt, tr ++ evs) ∧
    woo_calls evs
    = (if woo_configured w
       then encode_txn <$>
              filter (fun t => default "0" (t !! PHAT_SINH_CO) ≠ "0") txs
       else []) ∧
    pushes evs = [] ∧ removals evs = [].
Proof.
  destruct (process_woocommerce_any w (encode_txn <$> txs) tr)
    as (evs & Hrun & Hw & Hp & Hr).
  exists evs. rewrite filter_credit_encode in Hw.
  split; [done|]. split; [done|]. by split.
Qed.

(** The test is on the text of the cell: one that reads ["0.00"], or an
    empty one, counts as a credit; a transaction without the cell does
    not. *)
Example credit_is_a_text_test :
  is_credit (encode_txn {[ PHAT_SINH_CO := "0.00" ]})
  ∧ is_credit (encode_txn {[ PHAT_SINH_CO := "" ]})
  ∧ ¬ is_credit (encode_txn ∅).
Proof. split; [reflexivity|]. split; [reflexivity|]. by vm_compute. Qed.

End ForwarderMore.

(** ** Login: bounds *)

Section LoginMore.

Import Login.

Ltac unfold_eff :=
  unfold mbind, M_bind, mret, M_ret, bind, ret, navigate, emit, lift, raise
    in *.

Lemma navigations_app (tr evs : list event) :
  navigations (tr ++ evs) = navigations tr ++ navigations evs.
Proof. apply omap_app. Qed.

Lemma navigations_attempt (p : page) : navigations (attempt_events p) = [p].
Proof. by destruct p. Qed.

(** How an attempt ends, by the page the portal shows. *)
Lemma attempt_body_outcome (w : world) (m a : Z) (tr : list event) :
  ∃ r : res step,
    attempt_body w m a tr = (r, tr ++ attempt_events (portal w tr)) ∧
    (r = Ok (Return true) ↔ portal w tr = SignedIn) ∧
    (r = Raise ↔ portal w tr = Unreachable) ∧
    (r = Raise ∨ ∃ st, r = Ok st).
Proof.
  unfold attempt_body. unfold_eff.
  destruct (portal w tr) as [| | | | | |text| |]; simpl;
    rewrite <- ?app_assoc; eexists; (split; [reflexivity|]);
    try (repeat split; try done; by eauto).
  - destruct (_ >=? _); repeat split; try done; eauto.
  - destruct (nonempty (strip text)); [unfold decide_on|];
      repeat (destruct (contains _ _)); repeat split; try done; eauto.
Qed.

Lemma login_loop_bound (w : world) (m : Z) (remaining : nat) :
  ∀ (a : Z) (tr : list event),
    ∃ (r : res bool) (evs : list event),
      login_loop w m remaining a tr = (r, tr ++ evs) ∧
      (attempts evs ≤ remaining)%nat ∧
      (r = Ok true → last (navigations evs) = Some SignedIn) ∧
      (r = Raise ↔ last (navigations evs) = Some Unreachable) ∧
      (r = Raise ∨ ∃ b, r = Ok b).
Proof.
  induction remaining as [|remaining IH]; intros a tr.
  - exists (Ok false), []. simpl. unfold_eff. rewrite app_nil_r.
    repeat split; try done. right. by eexists.
  - cbn [login_loop]. unfold mbind at 1, M_bind at 1, bind at 1.
    destruct (attempt_body_outcome w m a tr)
      as (r & -> & Hin & Hun & Hr).
    set (p := portal w tr) in *.
    destruct r as [[|b]|e].
    + destruct (IH (a + 1) (tr ++ attempt_events p))
        as (r' & evs & -> & Hle & Hin' & Hun' & Hr').
      exists r', (attempt_events p ++ evs).
      rewrite app_assoc, attempts_app, navigations_app, attempts_one,
        navigations_attempt.
      split; [done|]. split; [lia|].
      assert (p ≠ Unreachable) as Hp by (intros Hp; by apply Hun in Hp).
      destruct (navigations evs) as [|q qs] eqn:Hq.
      * split; [intros Ht; by apply Hin' in Ht|]. split; [|done].
        split; [intros Hx; by apply Hun' in Hx|]. simpl. by intros [= ?].
      * change ([p] ++ q :: qs) with (p :: q :: qs).
        rewrite last_cons_cons. done.
    + exists (Ok b), (attempt_events p). unfold_eff.
      rewrite attempts_one, navigations_attempt. simpl.
      split; [done|]. split; [lia|]. split.
      * intros [= ->]. f_equal. by apply Hin.
      * split; [|right; by eexists]. split; [done|].
        intros [= Hp]. by apply Hun in Hp.
    + exists (Err e), (attempt_events p).
      rewrite attempts_one, navigations_attempt. simpl.
      split; [done|]. split; [lia|]. split; [done|].
      destruct Hr as [Hr|[st Hr]]; [|done]. injection Hr as ->.
      split; [|by left].
      split; [intros _; f_equal; by apply Hun|done].
Qed.

(** X8. Whatever the portal does, [log_in_v2] makes no more attempts than the
    configured number; it returns [True] only when the last page it loaded
    was signed in, and it raises only when that page could not be
    reached. *)
Theorem login_attempts_are_bounded (w : world) (tr : list event) (n : Z) :
  max_attempts_of w = Ok n →
  ∃ (r : res bool) (evs : list event),
    log_in_v2 w tr = (r, tr ++ LoginStart :: evs) ∧
    (attempts evs ≤ Z.to_nat n)%nat ∧
    (r = Ok true → last (navigations evs) = Some SignedIn) ∧
    (r = Raise ↔ last (navigations evs) = Some Unreachable) ∧
    (r = Raise ∨ ∃ b, r = Ok b).
Proof.
  intros Hmax. unfold log_in_v2. rewrite Hmax. unfold_eff.
  destruct (login_loop_bound w n (Z.to_nat n) 0 (tr ++ [LoginStart]))
    as (r & evs & Hrun & H).
  exists r, evs. rewrite Hrun, <- app_assoc. done.
Qed.

Lemma login_attempts_are_bounded_witness :
  ∃ (r : res bool) (evs : list event),
    log_in_v2 Cases.drops_out [] = (r, [] ++ LoginStart :: evs) ∧
    (attempts evs ≤ Z.to_nat 3)%nat ∧
    (r = Ok true → last (navigations evs) = Some SignedIn) ∧
    (r = Raise ↔ last (navigations evs) = Some Unreachable) ∧
    (r = Raise ∨ ∃ b, r = Ok b).
Proof.
  apply (login_attempts_are_bounded Cases.drops_out [] 3). reflexivity.
Defined.

(** X9. The number of attempts is read before anything else. When it is zero or
    negative the login fails without loading the page once; when it is no
    integer the call raises without loading the page once. *)
Theorem login_without_attempts (w : world) (tr : list event) :
  (∀ n, max_attempts_of w = Ok n → n ≤ 0 →
        log_in_v2 w tr = (Ok false, tr ++ [LoginStart])) ∧
  (max_attempts_of w = Raise → log_in_v2 w tr = (Raise, tr)).
Proof.
  split.
  - intros n Hmax Hn. unfold log_in_v2. rewrite Hmax. unfold_eff.
    replace (Z.to_nat n) with 0%nat by lia. done.
  - intros Hmax. unfold log_in_v2. by rewrite Hmax.
Qed.

Lemma login_without_attempts_witness :
  log_in_v2 (Cases.attempts_set_to "0") [] = (Ok false, [LoginStart])
  ∧ log_in_v2 (Cases.attempts_set_to "three") [] = (Raise, []).
Proof.
  split.
  - apply (proj1 (login_without_attempts (Cases.attempts_set_to "0") []) 0);
      [reflexivity|lia].
  - apply (proj2 (login_without_attempts (Cases.attempts_set_to "three") [])).
    reflexivity.
Defined.

End LoginMore.

(** ** The scheduler loop: what every pass keeps *)

Section SchedulerMore.

Import Login Scheduler Triples.

Lemma wp_bind {A B : Type} (m : SM A) (k : A → SM B) Q E s tr :
  wp m (fun a s' => ∀ tr', wp (k a) Q E s' tr') E s tr →
  wp (m ≫= k) Q E s tr.
Proof.
  unfold wp, mbind, SM_bind, sm_bind.
  destruct (m s tr) as [[[a|e] s'] tr']; [|done]. intros H. apply H.
Qed.

Lemma wp_mono {A : Type} (m : SM A) (Q Q' : A → sched → Prop)
  (E E' : exn → sched → Prop) s tr :
  wp m Q E s tr →
  (∀ a s', Q a s' → Q' a s') → (∀ e s', E e s' → E' e s') →
  wp m Q' E' s tr.
Proof.
  unfold wp. destruct (m s tr) as [[[a|e] s'] tr']; intros H HQ HE; auto.
Qed.

Lemma wp_ret {A : Type} (a : A) Q E s tr : Q a s → wp (sm_ret a) Q E s tr.
Proof. done. Qed.

Lemma wp_update (f : sched → sched) Q E s tr :
  Q tt (f s) → wp (update f) Q E s tr.
Proof. done. Qed.

Lemma wp_get_vars Q E s tr : Q s s → wp get_vars Q E s tr.
Proof. done. Qed.

Lemma wp_exit {A : Type} (code : Z) (Q : A → sched → Prop) E s tr :
  E (SystemExit code) s → wp (exit code) Q E s tr.
Proof. done. Qed.

Lemma wp_now (w : world) Q E s tr : (∀ t, Q t s) → wp (now w) Q E s tr.
Proof. intros H. apply H. Qed.

Lemma wp_run {A : Type} (m : M A) (Q : A → sched → Prop) E s tr :
  no_exit m → (∀ a, Q a s) → E Exception s → wp (run m) Q E s tr.
Proof.
  intros Hm HQ HE. unfold wp, run. specialize (Hm tr).
  destruct (m tr) as [[a|[|code]] tr']; auto. by destruct (Hm code).
Qed.

Lemma wp_run_returns {A : Type} (m : M A) (Q : A → sched → Prop) E s tr :
  returns m → (∀ a, Q a s) → wp (run m) Q E s tr.
Proof.
  intros Hm HQ. unfold wp, run. destruct (Hm tr) as [a Ha].
  destruct (m tr) as [r tr']. simpl in Ha. rewrite Ha. apply HQ.
Qed.

Lemma wp_try_except {A : Type} (m h : SM A) Q E s tr :
  wp m Q (fun e s' => match e with
                      | Exception => ∀ tr', wp h Q E s' tr'
                      | SystemExit _ => E e s'
                      end) s tr →
  wp (try_except m h) Q E s tr.
Proof.
  unfold wp, try_except.
  destruct (m s tr) as [[[a|[|code]] s'] tr']; auto. intros H. apply H.
Qed.

Lemma wp_try_pass (m : SM unit) Q E s tr :
  wp m (fun _ s' => Q tt s') (fun _ s' => Q tt s') s tr →
  wp (try_pass m) Q E s tr.
Proof.
  unfold wp, try_pass. by destruct (m s tr) as [[[a|e] s'] tr'].
Qed.

Lemma wp_try_finally {A : Type} (m : SM A) (f : SM unit) Q E s tr :
  wp m (fun a s' => ∀ tr', wp f (fun _ s'' => Q a s'') E s' tr')
       (fun e s' => ∀ tr', wp f (fun _ s'' => E e s'') E s' tr') s tr →
  wp (try_finally m f) Q E s tr.
Proof.
  unfold wp, try_finally.
  destruct (m s tr) as [[[a|e] s'] tr']; intros H; specialize (H tr');
    by destruct (f s' tr') as [[[[]|e'] s''] tr''].
Qed.

Lemma wp_call_init_driver (w : world) Q E s tr :
  (∀ b, Q b s) → wp (call_init_driver w) Q E s tr.
Proof. intros H. apply H. Qed.

Lemma wp_call_docker_down (w : world) Q E s tr :
  (∀ r, Q r s) → wp (call_docker_down w) Q E s tr.
Proof. intros H. apply H. Qed.

Lemma wp_call_check_session (w : world) Q E s tr :
  (∀ o, Q o s) → wp (call_check_session w) Q E s tr.
Proof. intros H. apply H. Qed.

Lemma wp_call_fetch_cycle (w : world) Q E s tr :
  Q tt s → E Exception s → wp (call_fetch_cycle w) Q E s tr.
Proof.
  intros HQ HE. unfold wp, call_fetch_cycle.
  by destruct (fetch_cycle w tr) as [[]|].
Qed.

Lemma returns_emit (e : event) : returns (emit e).
Proof. intros tr. by exists tt. Qed.

Lemma returns_sleep (ms : Z) : returns (sleep ms).
Proof. intros tr. by exists tt. Qed.

Lemma returns_sleeps (n : nat) (ms : Z) : returns (sleeps n ms).
Proof.
  induction n as [|n IH]; intros tr; simpl; [by exists tt|].
  unfold bind, sleep. apply IH.
Qed.

Lemma no_exit_call_lark (w : world) (c : content) : no_exit (call_lark w c).
Proof.
  intros tr code. unfold call_lark, answer.
  destruct (push_to_Lark_Channel w tr c); discriminate.
Qed.

Lemma no_exit_int (s : string) : no_exit (lift (int s)).
Proof. intros tr code. apply int_no_exit. Qed.

Lemma no_exit_log_in_v2 (w : world) : no_exit (log_in_v2 w).
Proof.
  intros tr code.
  destruct (log_in_v2_trace w tr) as (r & evs & -> & _ & _ & _ & H).
  apply H.
Qed.

Lemma same_flags_refl (s : sched) : same_flags s s.
Proof. done. Qed.

Ltac wp_step :=
  lazymatch goal with
  | |- ∀ _, _ => intro
  | |- wp (mbind _ _) _ _ _ _ => apply wp_bind
  | |- wp (sm_ret _) _ _ _ _ => apply wp_ret
  | |- wp (update _) _ _ _ _ => apply wp_update
  | |- wp get_vars _ _ _ _ => apply wp_get_vars
  | |- wp (exit _) _ _ _ _ => apply wp_exit
  | |- wp (now _) _ _ _ _ => apply wp_now
  | |- wp (try_except _ _) _ _ _ _ => apply wp_try_except
  | |- wp (try_pass _) _ _ _ _ => apply wp_try_pass
  | |- wp (try_finally _ _) _ _ _ _ => apply wp_try_finally
  | |- wp (call_init_driver _) _ _ _ _ => apply wp_call_init_driver
  | |- wp (call_docker_down _) _ _ _ _ => apply wp_call_docker_down
  | |- wp (call_check_session _) _ _ _ _ => apply wp_call_check_session
  | |- wp (call_fetch_cycle _) _ _ _ _ => apply wp_call_fetch_cycle
  | |- wp close_driver _ _ _ _ => apply wp_run_returns; [apply returns_emit|]
  | |- wp log_out _ _ _ _ => apply wp_run_returns; [apply returns_emit|]
  | |- wp (alert _ _) _ _ _ _ => apply wp_run; [apply no_exit_call_lark| |]
  | |- wp (run (emit _)) _ _ _ _ =>
      apply wp_run_returns; [apply returns_emit|]
  | |- wp (run (sleep _)) _ _ _ _ =>
      apply wp_run_returns; [apply returns_sleep|]
  | |- wp (run (sleeps _ _)) _ _ _ _ =>
      apply wp_run_returns; [apply returns_sleeps|]
  | |- wp (run (lift (int _))) _ _ _ _ => apply wp_run; [apply no_exit_int| |]
  | |- wp (run (log_in_v2 _)) _ _ _ _ =>
      apply wp_run; [apply no_exit_log_in_v2| |]
  | |- match ?e with Exception => _ | SystemExit _ => _ end => destruct e
  | |- wp (if ?c then _ else _) _ _ _ _ => destruct c eqn:?
  | |- wp (match ?x with _ => _ end) _ _ _ _ => destruct x eqn:?
  end.

Ltac wp_auto := repeat (wp_step; cbv beta zeta).

Ltac flags :=
  unfold same_flags, failure in *; simpl in *;
  repeat match goal with H : _ ∧ _ |- _ => destruct H end;
  try contradiction; repeat split; try congruence; auto.

(** [shutdown_environment] returns, whatever happens, holds no driver
    afterwards and leaves the two flags alone. *)
Lemma shutdown_environment_wp (w : world) (force : bool) (s : sched)
  (tr : list event) :
  wp (shutdown_environment w force)
     (fun _ s' => same_flags s s' ∧ webdriver_instance s' = false)
     (fun _ _ => False) s tr.
Proof.
  unfold shutdown_environment, docker_down. wp_auto; flags.
Qed.


Ltac wp_shutdown :=
  lazymatch goal with
  | |- wp (shutdown_environment _ _) _ _ _ _ =>
      eapply wp_mono; [apply shutdown_environment_wp|cbv beta|cbv beta]
  end.

Ltac wp_more := repeat (first [wp_step | wp_shutdown]; cbv beta zeta).

(** [restart_session] leaves the two flags alone; when it does not return
    it raised an [Exception] or exited with status 1. *)
Lemma restart_session_wp (w : world) (s : sched) (tr : list event) :
  wp (restart_session w)
     (fun _ s' => same_flags s s')
     (fun e s' => same_flags s s' ∧ failure e) s tr.
Proof.
  unfold restart_session, initialize_driver. wp_auto; flags.
Qed.

Lemma recovery_attempt_wp (w : world) (s : sched) (tr : list event) :
  wp (recovery_attempt w)
     (fun _ s' => same_flags s s')
     (fun e s' => same_flags s s' ∧ failure e) s tr.
Proof.
  unfold recovery_attempt, recovery_teardown, recovery_failed,
    initialize_driver.
  wp_more; flags.
Qed.


Ltac wp_blocks :=
  lazymatch goal with
  | |- wp (restart_session _) _ _ _ _ =>
      eapply wp_mono; [apply restart_session_wp|cbv beta|cbv beta]
  | |- wp (recovery_attempt _) _ _ _ _ =>
      eapply wp_mono; [apply recovery_attempt_wp|cbv beta|cbv beta]
  end.

Ltac wp_all :=
  repeat (first [wp_step | wp_shutdown | wp_blocks]; cbv beta zeta).

Lemma health_check_block_wp (w : world) (current_time : Z) (s : sched)
  (tr : list event) :
  wp (health_check_block w current_time)
     (fun _ s' => same_flags s s')
     (fun e s' => same_flags s s' ∧ failure e) s tr.
Proof.
  unfold health_check_block. wp_all; flags.
  all: try (apply andb_prop in Heqb as [_ Hr];
            apply negb_true_iff in Hr; congruence).
Qed.

Lemma fetch_block_wp (w : world) (current_time : Z) (s : sched)
  (tr : list event) :
  wp (fetch_block w current_time)
     (fun _ s' => same_flags s s')
     (fun _ _ => False) s tr.
Proof.
  unfold fetch_block. wp_all; flags.
  all: try (apply andb_prop in Heqb as [Hb _];
            apply andb_prop in Hb as [_ Hp];
            apply negb_true_iff in Hp; congruence).
Qed.

Ltac wp_loop :=
  lazymatch goal with
  | |- wp (health_check_block _ _) _ _ _ _ =>
      eapply wp_mono; [apply health_check_block_wp|cbv beta|cbv beta]
  | |- wp (fetch_block _ _) _ _ _ _ =>
      eapply wp_mono; [apply fetch_block_wp|cbv beta|cbv beta]
  end.

Ltac wp_everything :=
  repeat (first [wp_step | wp_shutdown | wp_blocks | wp_loop];
          cbv beta zeta).

Lemma pass_wp (w : world) (s : sched) (tr : list event) :
  wp (try_except (iteration w) (loop_error_handler w))
     (fun _ s' => same_flags s s')
     (fun e s' => same_flags s s' ∧ failure e) s tr.
Proof.
  unfold iteration, loop_error_handler. wp_everything; flags.
Qed.

Lemma passes_wp (w : world) (n : nat) :
  ∀ (s : sched) (tr : list event),
    wp (passes w n)
       (fun _ s' => same_flags s s')
       (fun e s' => same_flags s s' ∧ failure e) s tr.
Proof.
  induction n as [|n IH]; intros s tr; simpl.
  - by apply wp_ret.
  - apply wp_bind. eapply wp_mono; [apply pass_wp| |]; cbv beta.
    + intros [] s' Hs tr'. eapply wp_mono; [apply IH| |]; cbv beta;
        intros; flags.
    + intros; flags.
Qed.

Lemma startup_wp (w : world) (s : sched) (tr : list event) :
  wp (startup w)
     (fun _ s' => same_flags s s')
     (fun e s' => same_flags s s' ∧ failure e) s tr.
Proof.
  unfold startup, validate_environment, initialize_driver.
  wp_everything; flags.
Qed.

(** X10. The two guard flags are the same after any number of passes of the loop
    as when [run_scheduler] was entered, however the passes end: a flag
    raised inside a pass is lowered before the pass is left. They are
    [False] when the module is loaded, so they are [False] whenever a pass
    starts. *)
Theorem guards_are_lowered_by_every_pass (w : world) (n : nat) (s : sched)
  (tr : list event) :
  processing_transactions ((startup w;; passes w n) s tr).1.2
  = processing_transactions s
  ∧ recovery_in_progress ((startup w;; passes w n) s tr).1.2
    = recovery_in_progress s.
Proof.
  assert (wp (startup w;; passes w n)
            (fun _ s' => same_flags s s')
            (fun e s' => same_flags s s' ∧ failure e) s tr) as H.
  { apply wp_bind. eapply wp_mono; [apply startup_wp| |]; cbv beta.
    - intros [] s' Hs tr'. eapply wp_mono; [apply passes_wp| |]; cbv beta;
        intros; flags.
    - intros; flags. }
  unfold wp in H.
  destruct ((startup w;; passes w n) s tr) as [[[[]|e] s'] tr']; flags.
Qed.

(** X11. However [run_scheduler] stops, it stops the process with exit status 1
    and holds no browser session then: no [Exception] leaves it, and no
    other status. *)
Theorem scheduler_stops_with_status_1 (w : world) (n : nat) (s : sched)
  (tr : list event) :
  (run_scheduler w n s tr).1.1 = Ok tt
  ∨ ((run_scheduler w n s tr).1.1 = Err (SystemExit 1)
     ∧ webdriver_instance (run_scheduler w n s tr).1.2 = false).
Proof.
  assert (wp (startup w;; passes w n)
            (fun _ _ => True) (fun e _ => failure e) s tr) as H.
  { apply wp_bind. eapply wp_mono; [apply startup_wp| |]; cbv beta.
    - intros [] s' Hs tr'. eapply wp_mono; [apply passes_wp| |]; cbv beta;
        intros; flags.
    - intros; flags. }
  unfold wp in H. unfold run_scheduler.
  destruct ((startup w;; passes w n) s tr) as [[[[]|e] s'] tr'];
    [by left|right].
  assert (wp (try_finally
                (try_except (fun s tr => (Err e, s, tr))
                   (shutdown_environment w true;; exit 1))
                (shutdown_environment w false))
            (fun (_ : unit) _ => False)
            (fun e s'' => e = SystemExit 1 ∧ webdriver_instance s'' = false)
            s' tr') as H'.
  { apply wp_try_finally, wp_try_except. unfold wp at 1.
    destruct H as [-> | ->].
    - intros tr1. wp_more; flags.
    - intros tr1. wp_more; flags. }
  unfold wp in H'.
  destruct (try_finally _ _ s' tr') as [[[[]|e'] s''] tr'']; flags.
Qed.


Ltac unfold_m :=
  unfold mbind, M_bind, mret, M_ret, bind, ret, navigate, emit, lift, raise,
    sleep, call_lark, answer in *.

Ltac unfold_sm :=
  unfold close_driver, log_out, alert in *;
  unfold mbind, SM_bind, sm_bind, sm_ret, run, update, get_vars, exit, now,
    try_except, try_pass, try_finally, call_init_driver, call_docker_down,
    call_check_session, call_fetch_cycle in *.

(** X13. [restart_session] returns [True] only after exactly one login that
    returned [True] on a driver it has just set up, and a session check that
    found an identifier; whatever it does, it starts at most one login, and
    it closes the session it held before anything else. *)
Theorem restart_is_one_login (w : world) (s : sched) (tr : list event) :
  let closing := if webdriver_instance s then [LogOut; CloseDriver] else [] in
  ∃ (r : res bool) (s' : sched) (evs : list event),
    restart_session w s tr = (r, s', tr ++ closing ++ evs) ∧
    (logins evs ≤ 1)%nat ∧
    (r = Ok true →
     ∃ (mid : list event) (id : string),
       evs = InitDriver true :: mid ++ [CheckSession (Some id)] ∧
       id ≠ "" ∧ logins mid = 1%nat ∧
       log_in_v2 w (tr ++ closing ++ [InitDriver true])
       = (Ok true, tr ++ closing ++ InitDriver true :: mid) ∧
       webdriver_instance s' = true).
Proof.
  intros closing. set (s1 := set_webdriver false s).
  assert (restart_session w s tr
          = (initialize_driver w;;
             login_success ← run (log_in_v2 w);
             if login_success : bool then
               session_id ← call_check_session w;
               sm_ret (truthy_id session_id)
             else
               alert w
                 (Text "Session restart failed - log_in_v2 refused login");;
               sm_ret false) s1 (tr ++ closing)) as ->.
  { unfold restart_session, closing, s1.
    unfold_sm. unfold emit.
    destruct (webdriver_instance s); cbn beta iota;
      by rewrite <- ?app_assoc, ?app_nil_r. }
  pose proof (initialize_driver_run w s1 (tr ++ closing)) as Hi.
  destruct (init_driver w (tr ++ closing)) eqn:Hinit.
  - rewrite (sm_bind_ok _ _ _ _ _ _ _ Hi).
    destruct (log_in_v2_trace w ((tr ++ closing) ++ [InitDriver true]))
      as (r & mid & Hlog & Hle & _ & Hone & _).
    unfold mbind at 1, SM_bind at 1, sm_bind at 1, run at 1.
    rewrite Hlog. destruct r as [[|]|e].
    + unfold_sm. eexists _, _, (InitDriver true :: mid ++ [CheckSession _]).
      split; [by rewrite <- !app_assoc|].
      change (InitDriver true :: mid ++ ?l)
        with ([InitDriver true] ++ mid ++ l).
      rewrite !logins_app. split; [unfold logins at 1 3; simpl; lia|].
      intros [= Ht].
      destruct (check_session w _) as [id|] eqn:Hcs; [|done].
      exists mid, id. split; [done|]. split.
      { intros ->. done. }
      split; [exact (Hone true eq_refl)|]. split; [|done].
      replace (tr ++ closing ++ [InitDriver true])
        with ((tr ++ closing) ++ [InitDriver true])
        by (by rewrite <- app_assoc).
      rewrite Hlog. by rewrite <- !app_assoc.
    + unfold_sm. unfold_m.
      destruct (push_to_Lark_Channel w _ _); unfold Raise; cbn beta iota;
        (eexists _, _, (InitDriver true :: mid ++ [LarkPush _ _]);
         split; [by rewrite <- !app_assoc|];
         change (InitDriver true :: mid ++ ?l)
           with ([InitDriver true] ++ mid ++ l);
         rewrite !logins_app; split; [unfold logins at 1 3; simpl; lia|];
         done).
    + eexists _, _, (InitDriver true :: mid).
      split; [by rewrite <- !app_assoc|].
      change (InitDriver true :: mid) with ([InitDriver true] ++ mid).
      rewrite !logins_app. split; [unfold logins at 1; simpl; lia|]. done.
  - rewrite (sm_bind_err _ _ _ _ _ _ _ Hi).
    eexists _, _, [InitDriver false]. split; [by rewrite <- !app_assoc|].
    split; [unfold logins; simpl; lia|]. done.
Qed.

(** A restart that goes through: the session held is closed, a driver is
    set up, the first attempt signs in and the session check finds an
    identifier. *)
Example restart_goes_through :
  restart_session Samples.calm Samples.running []
  = (Ok true, set_webdriver true Samples.running,
     [LogOut; CloseDriver; InitDriver true; LoginStart; Navigate SignedIn;
      ReadCaptcha; SignIn; CheckSession (Some "session")]).
Proof. reflexivity. Qed.

(** X14. [validate_environment] comes first: when one of the three required
    variables is missing or empty, [run_scheduler] exits with status 1
    before it sets up a driver, starts a login, pushes an alert or shuts
    docker down. *)
Theorem missing_variable_stops_at_once (w : world) (n : nat)
  (tr : list event) :
  env_set w "MB_USERNAME" && env_set w "MB_PASSWORD"
    && env_set w "MB_CORP_ID" = false →
  run_scheduler w n initial tr = (Err (SystemExit 1), initial, tr).
Proof.
  intros H. unfold run_scheduler, startup, validate_environment.
  rewrite H. reflexivity.
Qed.

Lemma missing_variable_stops_at_once_witness :
  run_scheduler Samples.calm 5 initial [] = (Err (SystemExit 1), initial, []).
Proof.
  apply (missing_variable_stops_at_once Samples.calm 5 []). reflexivity.
Defined.

Lemma shutdown_environment_idle (w : world) (s : sched) (tr : list event) :
  webdriver_instance s = false →
  shutdown_environment w false s tr = (Ok tt, s, tr).
Proof. intros H. unfold shutdown_environment. unfold_sm. by rewrite H. Qed.

(** X26. The two intervals are read before the driver is set up. When one of
    them is no integer, [int] raises, the outer handler shuts the
    environment down with the forced teardown and the process exits with
    status 1: no driver was set up and no login was started. *)
Theorem unreadable_interval_stops_before_the_driver (w : world) (n : nat)
  (tr : list event) :
  env_set w "MB_USERNAME" && env_set w "MB_PASSWORD"
    && env_set w "MB_CORP_ID" = true →
  int (default "20" (getenv w "TRANSACTION_FETCH_INTERVAL")) = Raise
  ∨ int (default "10" (getenv w "SESSION_RESTART_MINUTES")) = Raise →
  run_scheduler w n initial tr
  = (Err (SystemExit 1), initial, tr ++ shutdown_events w false tr).
Proof.
  intros Henv Hint.
  assert ((startup w;; passes w n) initial tr = (Raise, initial, tr)) as Hs.
  { unfold startup, validate_environment. rewrite Henv. unfold_sm. unfold_m.
    destruct Hint as [-> | Hb]; [done|].
    destruct (int (default "20" _)) as [a|e] eqn:Ha.
    - by rewrite Hb.
    - destruct e as [|code]; [done|]. by destruct (int_no_exit _ _ Ha). }
  unfold run_scheduler. rewrite Hs. unfold Raise.
  unfold try_finally, try_except.
  unfold mbind, SM_bind, sm_bind. rewrite shutdown_environment_forced.
  unfold shutdown_environment, shutdown_events. unfold_sm. simpl.
  by rewrite !app_nil_r.
Qed.

Lemma unreadable_interval_stops_before_the_driver_witness :
  run_scheduler Cases.bad_interval 5 initial []
  = (Err (SystemExit 1), initial,
     [DockerDown DockerFailed; DockerDownFallback]).
Proof.
  apply (unreadable_interval_stops_before_the_driver Cases.bad_interval 5 []).
  - reflexivity.
  - left. reflexivity.
Defined.

(** X27. When the first login is refused, the process stops before the loop is
    entered: the alert is pushed, the session is closed, docker is shut
    down and the exit status is 1. What the alert push does makes no
    difference: should it raise, the outer handler does the same shutdown
    and exits with the same status. *)
Theorem refused_first_login_stops_the_process (w : world) (n : nat)
  (tr tr2 : list event) (a b : Z) :
  env_set w "MB_USERNAME" && env_set w "MB_PASSWORD"
    && env_set w "MB_CORP_ID" = true →
  int (default "20" (getenv w "TRANSACTION_FETCH_INTERVAL")) = Ok a →
  int (default "10" (getenv w "SESSION_RESTART_MINUTES")) = Ok b →
  init_driver w tr = true →
  log_in_v2 w (tr ++ [InitDriver true]) = (Ok false, tr2) →
  let alerted :=
    tr2 ++ [LarkPush (Text "INITIAL LOGIN FAILED - STOPPING PROCESS")
              (answer (push_to_Lark_Channel w tr2
                         (Text "INITIAL LOGIN FAILED - STOPPING PROCESS")))] in
  run_scheduler w n initial tr
  = (Err (SystemExit 1), initial, alerted ++ shutdown_events w true alerted).
Proof.
  intros Henv Ha Hb Hinit Hlog alerted.
  unfold run_scheduler, startup, validate_environment, initialize_driver.
  rewrite Henv. unfold_sm. unfold_m. rewrite Ha, Hb, Hinit. cbn beta iota.
  rewrite Hlog. cbn beta iota. fold alerted.
  destruct (push_to_Lark_Channel w tr2 _) as [v|] eqn:Hp; unfold Raise;
    cbn beta iota; rewrite shutdown_environment_forced; cbn beta iota;
    change (webdriver_instance (set_webdriver true initial)) with true;
    cbn beta iota; by rewrite shutdown_environment_idle.
Qed.

Lemma refused_first_login_stops_the_process_witness :
  run_scheduler Cases.locked_out 5 initial []
  = (Err (SystemExit 1), initial,
     [InitDriver true; LoginStart;
      Navigate (ErrorDialog "GW18 - Tài khoản tạm khóa"); ReadCaptcha; SignIn;
      LarkPush (Text "INITIAL LOGIN FAILED - STOPPING PROCESS") Raise;
      LogOut; CloseDriver; DockerDown DockerOk]).
Proof.
  apply (refused_first_login_stops_the_process Cases.locked_out 5 []
           [InitDriver true; LoginStart;
            Navigate (ErrorDialog "GW18 - Tài khoản tạm khóa"); ReadCaptcha;
            SignIn] 20 10); reflexivity.
Defined.


Lemma restart_session_trace (w : world) (s : sched) (tr : list event) :
  ∃ (r : res bool) (s' : sched) (evs : list event),
    restart_session w s tr = (r, s', tr ++ evs) ∧
    (logins evs ≤ 1)%nat ∧
    (r = Ok true → logins evs = 1%nat ∧ webdriver_instance s' = true) ∧
    (r = Ok false → webdriver_instance s' = true) ∧
    (∀ code, r = Err (SystemExit code) →
             code = 1 ∧ webdriver_instance s' = false).
Proof.
  set (closing := if webdriver_instance s then [LogOut; CloseDriver] else []).
  set (s1 := set_webdriver false s).
  assert (logins closing = 0%nat) as Hc
    by (unfold closing; by destruct (webdriver_instance s)).
  assert (restart_session w s tr
          = (initialize_driver w;;
             login_success ← run (log_in_v2 w);
             if login_success : bool then
               session_id ← call_check_session w;
               sm_ret (truthy_id session_id)
             else
               alert w
                 (Text "Session restart failed - log_in_v2 refused login");;
               sm_ret false) s1 (tr ++ closing)) as ->.
  { unfold restart_session, closing, s1.
    unfold_sm. unfold emit.
    destruct (webdriver_instance s); cbn beta iota;
      by rewrite <- ?app_assoc, ?app_nil_r. }
  pose proof (initialize_driver_run w s1 (tr ++ closing)) as Hi.
  destruct (init_driver w (tr ++ closing)) eqn:Hinit.
  - rewrite (sm_bind_ok _ _ _ _ _ _ _ Hi).
    destruct (log_in_v2_trace w ((tr ++ closing) ++ [InitDriver true]))
      as (r & mid & Hlog & Hle & _ & Hone & Hne).
    unfold mbind at 1, SM_bind at 1, sm_bind at 1, run at 1.
    rewrite Hlog. destruct r as [[|]|e].
    + unfold_sm.
      eexists _, _, (closing ++ [InitDriver true] ++ mid ++ [CheckSession _]).
      split; [by rewrite <- !app_assoc|].
      rewrite !logins_app, Hc, (Hone true eq_refl).
      change (logins [InitDriver true]) with 0%nat.
      change (logins [CheckSession ?x]) with 0%nat.
      split; [lia|]. split; [intros _; split; [lia|done]|].
      split; [done|]. intros code H. discriminate H.
    + unfold_sm. unfold_m.
      destruct (push_to_Lark_Channel w _ _); unfold Raise; cbn beta iota;
        (eexists _, _, (closing ++ [InitDriver true] ++ mid ++ [LarkPush _ _]);
         split; [by rewrite <- !app_assoc|];
         rewrite !logins_app, Hc, (Hone false eq_refl);
         change (logins [InitDriver true]) with 0%nat;
         change (logins [LarkPush ?c ?x]) with 0%nat;
         split; [lia|]; split; [intros H; discriminate H|];
         split; [done|]; intros code H; discriminate H).
    + eexists _, _, (closing ++ [InitDriver true] ++ mid).
      split; [by rewrite <- !app_assoc|].
      rewrite !logins_app, Hc. change (logins [InitDriver true]) with 0%nat.
      split; [lia|]. split; [intros H; discriminate H|].
      split; [intros H; discriminate H|].
      intros code [= ->]. by destruct (Hne code).
  - rewrite (sm_bind_err _ _ _ _ _ _ _ Hi).
    eexists _, _, (closing ++ [InitDriver false]).
    split; [by rewrite <- !app_assoc|].
    rewrite !logins_app, Hc. change (logins [InitDriver false]) with 0%nat.
    split; [lia|]. split; [intros H; discriminate H|].
    split; [intros H; discriminate H|]. intros code [= <-]. done.
Qed.

(** X28. An [Exception] that reaches the handler of the loop costs three minutes
    and one restart. The handler pauses three times sixty seconds with no
    login in between, then calls [restart_session] once: at most one login
    is started. When the handler returns, a session was set up by exactly
    one login and the session timer is reset; when the restart returns
    [False] or cannot set up a driver, the process exits with status 1 with
    no session held; otherwise the exception of the restart leaves the
    loop. *)
Theorem loop_error_waits_then_restarts_once (w : world) (s : sched)
  (tr : list event) :
  recovery_in_progress s = false →
  let waited := tr ++ [Sleep 60000; Sleep 60000; Sleep 60000] in
  ∃ (r : res unit) (s' : sched) (evs : list event),
    loop_error_handler w s tr = (r, s', waited ++ evs) ∧
    clock w waited = clock w tr + 180000 ∧
    logins waited = logins tr ∧
    (logins evs ≤ 1)%nat ∧
    (r = Ok tt →
     logins evs = 1%nat ∧ webdriver_instance s' = true ∧
     session_start_time s' = clock w (waited ++ evs)) ∧
    (∀ e, r = Err e →
          e = Exception ∨ (e = SystemExit 1 ∧ webdriver_instance s' = false)).
Proof.
  intros Hflag waited.
  assert (clock w waited = clock w tr + 180000) as Hclock.
  { unfold clock, waited. rewrite elapsed_app.
    change (elapsed [Sleep 60000; Sleep 60000; Sleep 60000]) with 180000.
    lia. }
  assert (logins waited = logins tr) as Hl.
  { unfold waited. rewrite logins_app.
    change (logins [Sleep 60000; Sleep 60000; Sleep 60000]) with 0%nat. lia. }
  assert (loop_error_handler w s tr
          = (restarted ← restart_session w;
             if restarted : bool then
               t ← now w;
               update (set_session_start t)
             else shutdown_environment w true;; exit 1) s waited) as ->.
  { unfold loop_error_handler.
    unfold mbind at 1 2, SM_bind at 1 2, sm_bind at 1 2, run at 1.
    rewrite sleeps_three. unfold get_vars. by rewrite Hflag. }
  destruct (restart_session_trace w s waited)
    as (r & s1 & evs & Hrun & Hle & Htrue & Hfalse & Hexit).
  destruct r as [[|]|e].
  - rewrite (sm_bind_ok _ _ _ _ _ _ _ Hrun). unfold_sm.
    destruct (Htrue eq_refl) as [H1 Hw].
    eexists _, _, evs. split; [done|]. split; [done|]. split; [done|].
    split; [done|]. split; [done|]. intros e H. discriminate H.
  - rewrite (sm_bind_ok _ _ _ _ _ _ _ Hrun).
    unfold mbind, SM_bind, sm_bind. rewrite shutdown_environment_forced.
    destruct (shutdown_events_quiet w (webdriver_instance s1) (waited ++ evs))
      as [Hq _].
    unfold exit.
    eexists _, _, (evs ++ shutdown_events w (webdriver_instance s1)
                            (waited ++ evs)).
    split; [by rewrite app_assoc|]. split; [done|]. split; [done|].
    rewrite logins_app, Hq. split; [lia|]. split; [intros H; discriminate H|].
    intros e [= <-]. right. split; [done|].
    by destruct (webdriver_instance s1) eqn:Hheld.
  - rewrite (sm_bind_err _ _ _ _ _ _ _ Hrun).
    eexists _, _, evs. split; [done|]. split; [done|]. split; [done|].
    split; [done|]. split; [intros H; discriminate H|].
    intros e' [= <-]. destruct e as [|code]; [by left|].
    destruct (Hexit code eq_refl) as [-> Hw]. by right.
Qed.

Lemma loop_error_waits_then_restarts_once_witness :
  let w := Samples.calm in
  let waited := [Sleep 60000; Sleep 60000; Sleep 60000] in
  ∃ (r : res unit) (s' : sched) (evs : list event),
    loop_error_handler w Samples.running [] = (r, s', waited ++ evs) ∧
    clock w waited = clock w [] + 180000 ∧
    logins waited = logins [] ∧
    (logins evs ≤ 1)%nat ∧
    (r = Ok tt →
     logins evs = 1%nat ∧ webdriver_instance s' = true ∧
     session_start_time s' = clock w (waited ++ evs)) ∧
    (∀ e, r = Err e →
          e = Exception ∨ (e = SystemExit 1 ∧ webdriver_instance s' = false)).
Proof.
  apply (loop_error_waits_then_restarts_once Samples.calm Samples.running []).
  reflexivity.
Defined.

End SchedulerMore.

(** ** Persisting a batch: the other files *)

Section StoreMore.

Import Watermark Store Glob.

Lemma temp_not_test (L : lib) (data_dir : string) (now : Z) :
  temp_of (batch_filename L data_dir now) ≠ test_file data_dir.
Proof.
  unfold temp_of, test_file, batch_filename, join. intros H.
  rewrite !app_string_assoc in H. apply app_string_inv in H. discriminate H.
Qed.

Lemma record_batch_leaves (L : lib) (data_dir : string) (now : Z)
  (files : fs) (transaction_data : value) (p : string) :
  p ≠ batch_filename L data_dir now →
  p ≠ temp_of (batch_filename L data_dir now) →
  p ≠ test_file data_dir →
  Forall (leaves p) (record_batch L data_dir now files transaction_data).
Proof.
  intros Hf Ht Hp. unfold record_batch.
  assert (Forall (leaves p)
            [Makedirs data_dir; OpenW (test_file data_dir);
             WriteChunk (test_file data_dir) "test";
             RemoveFile (test_file data_dir)]) as Hprobe
    by (repeat constructor; simpl; congruence).
  assert (∀ data, Forall (leaves p)
                    (write_json L (temp_of (batch_filename L data_dir now))
                       data)) as Hw
    by (intros data; apply write_json_leaves; congruence).
  assert (Forall (leaves p)
            [Rename (temp_of (batch_filename L data_dir now))
               (batch_filename L data_dir now)]) as Hr
    by (repeat constructor; simpl; congruence).
  destruct (_ || _).
  - unfold save_empty_marker. apply Forall_cons. split; [done|].
    apply Forall_app. by split.
  - destruct transaction_data as [| | | | |d]; try by constructor.
    unfold save_transactions_to_file.
    destruct (negb _); [by constructor|].
    destruct (len _); [|done].
    apply Forall_app. split; [done|]. apply Forall_app. split; [done|].
    apply Forall_app. split; [|done].
    case_bool_decide; repeat constructor; simpl; congruence.
Qed.

(** X15. Persisting a batch touches three names only: the batch, its temporary
    file and the probe of the write test. Wherever the operations stop,
    every other file of the directory is as it was. And when the operations
    run to their end after a list of transactions was fetched, neither the
    temporary file nor the probe is left behind. *)
Theorem persist_leaves_other_files (L : lib) (data_dir : string) (now : Z)
  (files : fs) (transaction_data : value) :
  let ops := record_batch L data_dir now files transaction_data in
  let filename := batch_filename L data_dir now in
  (∀ p done,
     p ≠ filename → p ≠ temp_of filename → p ≠ test_file data_dir →
     done `prefix_of` ops →
     run_ops done files !! p = files !! p)
  ∧ (∀ d l, transaction_data = VDict d →
            d !! Dedup.TRANSACTIONS = Some (VList l) →
            run_ops ops files !! temp_of filename = None
            ∧ (l ≠ [] → run_ops ops files !! test_file data_dir = None)).
Proof.
  intros ops filename. split.
  - intros p done Hf Ht Hp Hdone. apply run_leaves.
    apply (Forall_prefix _ _ _ Hdone). by apply record_batch_leaves.
  - intros d l -> Hl. subst ops filename.
    pose proof (temp_of_fresh (batch_filename L data_dir now)) as Hfresh.
    pose proof (temp_not_test L data_dir now) as Htest.
    pose proof (test_file_not_batch L data_dir now) as Htb.
    assert (∀ pre files',
              run_ops (pre ++ [Rename (temp_of (batch_filename L data_dir now))
                                 (batch_filename L data_dir now)]) files'
              !! temp_of (batch_filename L data_dir now) = None) as Hgone.
    { intros pre files'. rewrite run_ops_app. unfold run_ops at 1. simpl.
      destruct (run_ops pre files' !! temp_of _) eqn:Hx; [|done].
      rewrite lookup_insert_ne by done. apply lookup_delete_eq. }
    assert (truthy (VDict d) = true) as Hd.
    { simpl. apply negb_true_iff, bool_decide_eq_false. intros ->.
      by rewrite lookup_empty in Hl. }
    unfold record_batch. rewrite Hd. unfold get. rewrite Hl.
    destruct l as [|v l]; cbn [truthy negb orb].
    + unfold save_empty_marker. split; [|done].
      apply (Hgone (Makedirs data_dir :: write_json L _ _)).
    + unfold save_transactions_to_file. cbn [truthy negb len]. split.
      * rewrite !app_assoc. apply Hgone.
      * intros _. rewrite run_ops_app.
        rewrite run_leaves.
        { unfold run_ops. simpl. apply lookup_delete_eq. }
        apply Forall_app. split.
        { apply write_json_leaves. congruence. }
        apply Forall_app. split.
        { case_bool_decide; repeat constructor; simpl; congruence. }
        repeat constructor; simpl; congruence.
Qed.


Lemma ends_with_app (suffix x : string) :
  ends_with suffix (x +:+ suffix) = true.
Proof.
  induction x as [|c x IH].
  - destruct suffix; simpl; [done|]. by rewrite Ascii.eqb_refl, String.eqb_refl.
  - change (String c x +:+ suffix) with (String c (x +:+ suffix)).
    cbn [ends_with]. rewrite IH. apply orb_true_r.
Qed.

Lemma ends_with_longer (suffix tail x : string) :
  (String.length suffix < String.length tail)%nat →
  ends_with suffix tail = false →
  ends_with suffix (x +:+ tail) = false.
Proof.
  intros Hlen Htail. induction x as [|c x IH]; [done|].
  change (String c x +:+ tail) with (String c (x +:+ tail)).
  cbn [ends_with]. rewrite IH, orb_false_r.
  apply String.eqb_neq. intros H. apply (f_equal String.length) in H.
  simpl in H. rewrite length_app_string in H. lia.
Qed.

(** X16. The name a batch is staged under is not a name the readers look for:
    the pattern of [glob] matches the final name of a batch, and matches
    neither its temporary file nor the probe of the write test. *)
Theorem staged_batch_is_not_globbed (L : lib) (data_dir : string) (now : Z) :
  let name :=
    "mb_biz_transactions_" +:+ strftime L now "%Y%m%d_%H%M%S" +:+ ".json" in
  batch_filename L data_dir now = join data_dir name
  ∧ temp_of (batch_filename L data_dir now) = join data_dir (name +:+ ".tmp")
  ∧ matches_batch_pattern name = true
  ∧ matches_batch_pattern (name +:+ ".tmp") = false
  ∧ matches_batch_pattern ".write_test" = false.
Proof.
  intros name. subst name. split; [done|]. split.
  { unfold temp_of, batch_filename, join. by rewrite !app_string_assoc. }
  set (stamp := strftime L now "%Y%m%d_%H%M%S").
  split; [|split; [|done]].
  - unfold matches_batch_pattern. simpl.
    change ("" +:+ stamp +:+ ".json") with (stamp +:+ ".json").
    rewrite ends_with_app. by destruct (stamp +:+ ".json").
  - unfold matches_batch_pattern. rewrite !app_string_assoc. simpl.
    change ("" +:+ stamp +:+ ".json" +:+ ".tmp")
      with (stamp +:+ ".json.tmp").
    rewrite (ends_with_longer ".json" ".json.tmp" stamp); [|simpl; lia|done].
    apply andb_false_r.
Qed.

End StoreMore.

(** ** The watermark: fallbacks *)

Section WatermarkMore.

Import Dedup Watermark.

Context (L : lib).

Lemma latest_loop_stray (txns : list value) :
  Exists (fun v => ∀ txn, v ≠ VDict txn) txns →
  ∀ acc, ∃ e, latest_loop L txns acc = Err e.
Proof.
  induction txns as [|v txns IH]; intros Hex acc.
  - by apply Exists_nil in Hex.
  - apply Exists_cons in Hex as [Hv|Hex].
    + destruct v as [| | | | |txn]; try by eexists.
      by destruct (Hv txn).
    + destruct v as [| | | | |txn]; try by eexists.
      simpl. destruct (str_strip _) as [cell|e]; [|by eexists].
      destruct (nonempty cell); [|by apply IH].
      destruct (parse_transaction_time L cell); [|by apply IH].
      destruct acc as [latest|]; [|by apply IH].
      destruct (_ <? _); by apply IH.
Qed.

(** X18. One entry of the newest batch that is no object discards the dates of
    all the others: the watermark falls back to the start of the current
    day, although [find_unique_transactions_v2] only skips such an entry. *)
Theorem stray_entry_resets_watermark (files : list file) (now : Z)
  (newest_file : file) (data : dict) (txns : list value) :
  newest_of files = Some newest_file →
  file_data newest_file = Some (VDict data) →
  data !! TRANSACTIONS = Some (VList txns) →
  Exists (fun v => ∀ txn, v ≠ VDict txn) txns →
  get_from_date_for_fetch L files now
  = strftime L (now - now mod 86400) FORMAT.
Proof.
  intros Hn Hd Ht Hex.
  unfold get_from_date_for_fetch, get_last_fetch_time_from_json.
  rewrite Hn, Hd. unfold get. rewrite Ht.
  destruct txns as [|v txns]; [by apply Exists_nil in Hex|].
  cbn [truthy negb].
  destruct (latest_loop_stray (v :: txns) Hex None) as [e ->]. done.
Qed.

(** X19. When the newest batch is empty and its fetch timestamp cannot be read,
    the current time stands in for it: the watermark is two minutes back
    from now, whatever happened since the last batch that was read. *)
Theorem unreadable_stamp_counts_as_now (files : list file) (now : Z)
  (newest_file : file) (timestamp_str : string) :
  newest_of files = Some newest_file →
  holds_stamped newest_file timestamp_str [] →
  timestamp_str ≠ "" →
  parse_fetch_timestamp L timestamp_str = None →
  get_from_date_for_fetch L files now = strftime L (now - 120) FORMAT.
Proof.
  intros Hn (d & Hd & Hts & Htx) Hne Hp.
  unfold get_from_date_for_fetch, get_last_fetch_time_from_json.
  rewrite Hn, Hd. unfold get. rewrite Hts, Htx. cbn [truthy negb fmap].
  simpl. replace (nonempty timestamp_str) with true
    by (symmetry; by apply nonempty_true).
  by rewrite Hp.
Qed.

End WatermarkMore.

Section WatermarkMoreExamples.

Import Dedup Watermark.

Lemma stray_entry_resets_watermark_witness :
  get_from_date_for_fetch Samples.strict Cases.stray_entry 1793700000
  = "03/11/2026 00:00".
Proof.
  rewrite (stray_entry_resets_watermark Samples.strict Cases.stray_entry
             1793700000 _ _ _ eq_refl eq_refl eq_refl).
  - reflexivity.
  - apply Exists_cons_tl, Exists_cons_hd. discriminate.
Defined.

Lemma unreadable_stamp_counts_as_now_witness :
  get_from_date_for_fetch Samples.strict Cases.unread_stamp 1793700000
  = "03/11/2026 09:58".
Proof.
  rewrite (unreadable_stamp_counts_as_now Samples.strict Cases.unread_stamp
             1793700000 _ "03-11-2026 10:00" eq_refl).
  - reflexivity.
  - apply holds_stamped_file.
  - discriminate.
  - reflexivity.
Defined.

End WatermarkMoreExamples.

(** ** Validation *)

Section ValidityFacts.

Import Dedup Validity.

Lemma str_strip_cell (t : transaction) (field : string) :
  str_strip (get (encode_txn t) field (VStr "")) = Ok (cell t field).
Proof.
  unfold encode_txn, cell, get. rewrite lookup_fmap.
  by destruct (t !! field).
Qed.

Lemma any_field_cells (t : transaction) (fields : list string) :
  any_field (encode_txn t) fields
  = Ok (bool_decide (Exists (fun field => cell t field ≠ "") fields)).
Proof.
  induction fields as [|field rest IH]; simpl.
  - reflexivity.
  - rewrite str_strip_cell. destruct (cell t field) eqn:Hc; simpl.
    + rewrite IH. f_equal. apply bool_decide_ext. split.
      * apply Exists_cons_tl.
      * intros H. apply Exists_cons in H as [H|H]; [|done].
        by rewrite Hc in H.
    + f_equal. symmetry. apply bool_decide_eq_true. apply Exists_cons_hd.
      by rewrite Hc.
Qed.

(** X20. On a fetched transaction, whose cells are all texts,
    [is_valid_transaction] never raises. It accepts the transaction exactly
    when its identifier has at least five characters and one of the entity
    or amount fields is not blank. The identifier is the one under the main
    header unless that is blank: a short identifier there is not made up
    for by a longer one under the alternative header. *)
Theorem valid_transaction_iff (t : transaction) :
  is_valid_transaction (encode_txn t)
  = Ok (bool_decide
          (5 ≤ Store.code_points (valid_id t)
           ∧ Exists (fun field => cell t field ≠ "")
               (don_vi_fields ++ amount_fields))).
Proof.
  unfold is_valid_transaction, valid_id.
  rewrite !str_strip_cell, !any_field_cells.
  case_bool_decide as Hempty.
  - apply (f_equal (fun d : dict => d !! SO_BUT_TOAN)) in Hempty as Hm.
    apply (f_equal (fun d : dict => d !! SO_BUT_TOAN_ALT)) in Hempty as Ha.
    unfold encode_txn in Hm, Ha. rewrite lookup_fmap, lookup_empty in Hm, Ha.
    unfold cell. destruct (t !! SO_BUT_TOAN); [done|].
    destruct (t !! SO_BUT_TOAN_ALT); [done|]. reflexivity.
  - set (id := if nonempty (cell t SO_BUT_TOAN) then cell t SO_BUT_TOAN
               else cell t SO_BUT_TOAN_ALT).
    destruct (nonempty id) eqn:Hid; cbn [negb].
    + destruct (Store.code_points id <? 5) eqn:Hlen.
      * apply Z.ltb_lt in Hlen. f_equal. symmetry.
        apply bool_decide_eq_false. lia.
      * apply Z.ltb_ge in Hlen. f_equal. symmetry.
        destruct (bool_decide (Exists _ don_vi_fields)) eqn:He;
          [|destruct (bool_decide (Exists _ amount_fields)) eqn:Ha].
        -- apply bool_decide_eq_true in He. apply bool_decide_eq_true.
           split; [done|]. apply Exists_app. by left.
        -- apply bool_decide_eq_true in Ha. apply bool_decide_eq_true.
           split; [done|]. apply Exists_app. by right.
        -- apply bool_decide_eq_false in He, Ha. apply bool_decide_eq_false.
           intros [_ H]. apply Exists_app in H as [H|H]; done.
    + f_equal. symmetry. apply bool_decide_eq_false.
      destruct id; [simpl; lia|done].
Qed.

End ValidityFacts.

(** ** The order system *)

Section WooFacts.

Import Woo.

Lemma prefix_skip (a s : string) :
  String.prefix a s = true → s = a +:+ skip (String.length a) s.
Proof.
  revert s. induction a as [|c a IH]; intros s H; [done|].
  destruct s as [|c' s]; [done|]. simpl in H.
  destruct (ascii_dec c c') as [->|]; [|done].
  change (String c' a +:+ ?x) with (String c' (a +:+ x)). simpl.
  f_equal. by apply IH.
Qed.

Lemma split_one_inv (alphabet : list string) (s d rest : string) :
  split_one alphabet s = Some (d, rest) → d ∈ alphabet ∧ s = d +:+ rest.
Proof.
  induction alphabet as [|a alphabet IH]; simpl; [done|].
  destruct (String.prefix a s) eqn:Hp.
  - intros [= <- <-]. split; [apply list_elem_of_here|by apply prefix_skip].
  - intros H. destruct (IH H) as [Hin Hs]. split; [|done].
    by apply list_elem_of_further.
Qed.

Lemma drop_one_inv (ws : list string) (s rest : string) :
  drop_one ws s = Some rest → ∃ w, w ∈ ws ∧ s = w +:+ rest.
Proof.
  induction ws as [|a ws IH]; simpl; [done|].
  destruct (String.prefix a s) eqn:Hp.
  - intros [= <-]. exists a. split; [apply list_elem_of_here|].
    by apply prefix_skip.
  - intros H. destruct (IH H) as (w & Hin & Hs). exists w. split; [|done].
    by apply list_elem_of_further.
Qed.

Lemma digits_at_inv (digits : list string) (n : nat) :
  ∀ s t, digits_at digits n s = Some t →
         digit_run digits n t ∧ ∃ rest, s = t +:+ rest.
Proof.
  induction n as [|n IH]; intros s t; simpl.
  - intros [= <-]. split; [by exists []|]. by exists s.
  - destruct (split_one digits s) as [[d rest]|] eqn:Hs; [|done].
    destruct (digits_at digits n rest) as [t'|] eqn:Ht; [|done].
    intros [= <-]. apply split_one_inv in Hs as [Hd ->].
    destruct (IH _ _ Ht) as [(ds & Hlen & Hall & ->) [rest' ->]].
    split.
    + exists (d :: ds). simpl. split; [by rewrite Hlen|].
      split; [by constructor|done].
    + exists rest'. by rewrite app_string_assoc.
Qed.

Lemma order_id_at_inv (digits : list string) (s order_id : string) :
  order_id_at digits s = Some order_id →
  ∃ six rest, digit_run digits 6 six ∧ order_id = "GH" +:+ six
              ∧ s = order_id +:+ rest.
Proof.
  unfold order_id_at. destruct (String.prefix "GH" s) eqn:Hp; [|done].
  apply prefix_skip in Hp. change (String.length "GH") with 2%nat in Hp.
  destruct (digits_at digits 6 (skip 2 s)) as [six|] eqn:Hsix; [|done].
  intros [= <-]. destruct (digits_at_inv _ _ _ _ Hsix) as [Hrun [rest Hr]].
  exists six, rest. split; [done|]. split; [done|].
  rewrite Hp at 1. rewrite Hr. by rewrite app_string_assoc.
Qed.

Lemma search_after_boundary_inv (digits : list string) (s order_id : string) :
  search_after_boundary digits s = Some order_id →
  ∃ before b rest,
    b ∈ boundary ∧ s = before +:+ b +:+ order_id +:+ rest ∧
    order_id_at digits (order_id +:+ rest) = Some order_id.
Proof.
  induction s as [|c s IH]; cbn [search_after_boundary]; [done|].
  assert (search_after_boundary digits s = Some order_id →
          ∃ before b rest,
            b ∈ boundary ∧ String c s = before +:+ b +:+ order_id +:+ rest ∧
            order_id_at digits (order_id +:+ rest) = Some order_id) as Hnext.
  { intros H. destruct (IH H) as (before & b & rest & Hb & -> & Ho).
    by exists (String c before), b, rest. }
  destruct (drop_one boundary (String c s)) as [after|] eqn:Hd; [|done].
  destruct (order_id_at digits after) as [o|] eqn:Ho; [|done].
  intros [= ->]. apply drop_one_inv in Hd as (b & Hb & Hs).
  destruct (order_id_at_inv _ _ _ Ho) as (six & rest & _ & _ & ->).
  exists "", b, rest. by rewrite Hs.
Qed.

(** X21. What [detect_woo_order] finds is [GH] and six decimal digits, taken
    from the description where it stands at the very start or right after a
    blank, a full stop, a comma or a hyphen. Nothing is asked of what
    follows the sixth digit; and a description that is empty or [None] holds
    no order. *)
Theorem detected_order_is_in_the_description (digits : list string)
  (description order_id : string) :
  detect_woo_order digits (VStr description) = Ok (Some order_id) →
  ∃ six before rest,
    digit_run digits 6 six ∧ order_id = "GH" +:+ six ∧
    description = before +:+ order_id +:+ rest ∧
    (before = "" ∨ ∃ before' b, b ∈ boundary ∧ before = before' +:+ b).
Proof.
  unfold detect_woo_order. destruct description as [|c s]; [done|].
  cbn [Watermark.truthy nonempty negb]. unfold re_search.
  destruct (order_id_at digits (String c s)) as [o|] eqn:Ho.
  - intros [= ->].
    destruct (order_id_at_inv _ _ _ Ho) as (six & rest & Hrun & Hid & Hs).
    exists six, "", rest. split; [done|]. split; [done|]. split; [done|].
    by left.
  - intros H.
    assert (search_after_boundary digits (String c s) = Some order_id) as H'
      by congruence.
    clear H.
    destruct (search_after_boundary_inv _ _ _ H')
      as (before & b & rest & Hb & Hs & Ho').
    destruct (order_id_at_inv _ _ _ Ho') as (six & rest' & Hrun & Hid & _).
    exists six, (before +:+ b), rest. split; [done|]. split; [done|].
    split; [by rewrite app_string_assoc|]. right. by exists before, b.
Qed.

Lemma detected_order_is_in_the_description_witness :
  ∃ six before rest,
    digit_run ascii_digits 6 six ∧ "GH123456" = "GH" +:+ six ∧
    "CK tu A den B-GH1234567 thanh toan" = before +:+ "GH123456" +:+ rest ∧
    (before = "" ∨ ∃ before' b, b ∈ boundary ∧ before = before' +:+ b).
Proof.
  apply (detected_order_is_in_the_description ascii_digits
           "CK tu A den B-GH1234567 thanh toan" "GH123456").
  reflexivity.
Defined.


(** X22. The sixth digit ends the match: what comes after it is not looked at,
    so a longer run of digits is cut down to its first six. *)
Theorem longer_digit_run_is_truncated (digits : list string)
  (six rest : string) :
  digits_at digits 6 (six +:+ rest) = Some six →
  detect_woo_order digits (VStr ("GH" +:+ six +:+ rest))
  = Ok (Some ("GH" +:+ six)).
Proof.
  intros H. unfold detect_woo_order, re_search, order_id_at.
  change (skip 2 ("GH" +:+ six +:+ rest)) with (six +:+ rest).
  change (String.prefix "GH" ("GH" +:+ six +:+ rest))
    with (String.prefix "" (six +:+ rest)).
  rewrite H. by destruct (six +:+ rest).
Qed.

Lemma longer_digit_run_is_truncated_witness :
  detect_woo_order ascii_digits (VStr "GH1234567 thanh toan")
  = Ok (Some "GH123456").
Proof.
  apply (longer_digit_run_is_truncated ascii_digits "123456" "7 thanh toan").
  reflexivity.
Defined.

Lemma orders_posted_app (tr evs : list woo_call) :
  orders_posted (tr ++ evs) = orders_posted tr ++ orders_posted evs.
Proof. apply omap_app. Qed.

(** X23. [process_woo_transaction] posts an order only for a transaction whose
    description holds an order identifier, and only when the URL is set; it
    posts one order at most, before any other woo_call; the status is
    ["success"] exactly when that post returned an order, whatever the
    confirmation and the webhook did afterwards. *)
Theorem orders_follow_detection (sh : shop) (url secure_token : option string)
  (transaction_data : dict) (tr : list woo_call) :
  ∃ (o : outcome) (evs : list woo_call),
    process_woo_transaction sh url secure_token transaction_data tr
    = (o, tr ++ evs) ∧
    (length (orders_posted evs) ≤ 1)%nat ∧
    (evs ≠ [] →
     (∃ order_id,
        detect_woo_order (digits sh)
          (get transaction_data Forwarder.NOI_DUNG (VStr ""))
        = Ok (Some order_id)) ∧
     url ≠ None ∧
     ∃ customer_name amount_str r rest,
       evs = PostOrder customer_name amount_str r :: rest) ∧
    (status o = "success" ↔ ∃ v, orders_posted evs = [Created v]).
Proof.
  unfold process_woo_transaction.
  destruct (detect_woo_order _ _) as [[order_id|]|e] eqn:Hd.
  2,3: eexists _, []; rewrite app_nil_r; split; [done|];
       split; [simpl; lia|]; split; [done|]; split; [done|];
       by intros [v Hv].
  unfold create_woocommerce_order.
  destruct (str_strip _) as [customer_name|e].
  2:{ eexists _, []. rewrite app_nil_r. split; [done|].
      split; [simpl; lia|]. split; [done|]. split; [done|].
      by intros [v Hv]. }
  destruct (get transaction_data Forwarder.PHAT_SINH_CO (VStr "0"))
    as [| | |amount| |];
    try (eexists _, []; rewrite app_nil_r; split; [done|];
         split; [simpl; lia|]; split; [done|]; split; [done|];
         by intros [v Hv]).
  destruct url as [u|].
  2:{ eexists _, []. rewrite app_nil_r. split; [done|].
      split; [simpl; lia|]. split; [done|]. split; [done|].
      by intros [v Hv]. }
  set (amount_str := strip (remove_commas amount)).
  destruct (post_order sh tr customer_name amount_str) as [v| |] eqn:Hr.
  - unfold confirm, webhook. destruct (_ && _).
    + eexists _, [PostOrder customer_name amount_str (Created v);
                  PostConfirm v _; SendWebhook order_id _].
      rewrite <- !app_assoc. split; [done|]. split; [simpl; lia|].
      split; [|split; [by exists v|done]].
      intros _. split; [by exists order_id|]. split; [done|].
      by eexists _, _, _, _.
    + eexists _, [PostOrder customer_name amount_str (Created v);
                  PostConfirm v _].
      rewrite <- !app_assoc. split; [done|]. split; [simpl; lia|].
      split; [|split; [by exists v|done]].
      intros _. split; [by exists order_id|]. split; [done|].
      by eexists _, _, _, _.
  - eexists _, [PostOrder customer_name amount_str RequestFailed].
    split; [done|]. split; [simpl; lia|].
    split; [|split; [done|by intros [v Hv]]].
    intros _. split; [by exists order_id|]. split; [done|].
    by eexists _, _, _, _.
  - eexists _, [PostOrder customer_name amount_str Unexpected].
    split; [done|]. split; [simpl; lia|].
    split; [|split; [done|by intros [v Hv]]].
    intros _. split; [by exists order_id|]. split; [done|].
    by eexists _, _, _, _.
Qed.

End WooFacts.

(** ** The chat channel *)

Section LarkFacts.

Import Watermark Forwarder Lark.

(** X24. Without a tenant access token no message is sent, and what
    [push_to_Lark_Channel] returns then is not a success for the forwarder:
    a push counts only when the message request was made, with a token, and
    its answer carries the code 0. At most one message is sent per lark_call. *)
Theorem push_needs_a_token (h : http) (c : content) (tr : list lark_call) :
  ∃ (r : res value) (evs : list lark_call),
    push_to_Lark_Channel h c tr = (r, tr ++ evs) ∧
    (length (messages evs) ≤ 1)%nat ∧
    pushed no_token = false ∧
    (messages evs = [] → ∀ v, r = Ok v → pushed v = false) ∧
    (∀ v, r = Ok v → pushed v = true →
          ∃ d token,
            token_request h tr = Some (VDict d) ∧
            token = get d "tenant_access_token" VNone ∧
            truthy token = true ∧
            evs = [TokenRequest (Ok (VDict d));
                   MessageRequest token c (Ok v)]).
Proof.
  unfold push_to_Lark_Channel.
  destruct (token_request h tr) as [body|] eqn:Ht; simpl.
  2:{ eexists _, [_]. split; [done|]. split; [simpl; lia|].
      split; [done|]. split; by intros. }
  destruct body as [| | | | |d];
    try (eexists _, [_]; split; [done|]; split; [simpl; lia|];
         split; [done|]; split; by intros).
  destruct (truthy (get d "tenant_access_token" VNone)) eqn:Htok; simpl.
  - eexists _, [_; _]. rewrite <- app_assoc. split; [done|].
    split; [simpl; lia|]. split; [done|]. split; [done|].
    intros v Hv Hp. exists d, (get d "tenant_access_token" VNone).
    split; [done|]. split; [done|]. split; [done|]. by rewrite Hv.
  - eexists _, [_]. split; [done|]. split; [simpl; lia|]. split; [done|].
    split.
    + intros _ v [= <-]. done.
    + intros v [= <-] Hp. done.
Qed.

End LarkFacts.

(** ** The browser session *)

Section DriverFacts.

Import Driver.

(** X25. The module [driver] holds one session at most. [init_driver] sets a
    session up only when none is held, and returns the one held otherwise;
    [close_driver] leaves none held, even when [quit] raises; so closing
    and initializing again always asks the hub for a new session. *)
Theorem driver_is_a_singleton (h : hub) (driver : option nat)
  (tr : list hub_call) :
  (∀ session, driver = Some session →
              init_driver h driver tr = (driver, driver, tr))
  ∧ (close_driver h driver tr).1.2 = None
  ∧ (∃ evs,
       (let '(_, d1, tr1) := close_driver h driver tr in init_driver h d1 tr1)
       = (setup_driver h (tr ++ evs), setup_driver h (tr ++ evs),
          tr ++ evs ++ [SetupDriver (setup_driver h (tr ++ evs))])
       ∧ setups evs = []).
Proof.
  split; [by intros session ->|]. split; [by destruct driver|].
  destruct driver as [session|]; simpl.
  - exists [Quit (quit_raises h tr)]. by rewrite <- app_assoc.
  - exists []. by rewrite app_nil_r.
Qed.

End DriverFacts.

(** ** The first run *)

Section FirstRun.

Import Dedup Path.






End FirstRun.

(** ** The forwarder: a push that raises *)

Section ForwarderDefect.

Import Dedup Forwarder.

Ltac unfold_eff :=
  unfold mbind, M_bind, mret, M_ret, bind, ret, call_lark, call_woo, sleep,
    remove, emit, lift, raise, try_except, answer in *.

(** Whatever the channel does, the forwarder pushes in the order of the
    reversed list, from its first element on. *)
Lemma push_transactions_prefix (w : world) (transactions : list dict)
  (tr : list event) :
  ∃ evs : list event,
    (push_transactions_to_lark_v2 w transactions tr).2 = tr ++ evs ∧
    pushes evs `prefix_of` (content_of <$> rev transactions).
Proof.
  destruct transactions as [|txn rest].
  - exists []. simpl. by rewrite app_nil_r.
  - unfold push_transactions_to_lark_v2.
    destruct (push_loop_prefix w (rev (txn :: rest)) 0%nat tr)
      as (evs & Hrun & Hp).
    exists evs. split; [|done]. unfold_eff.
    destruct (push_loop w (rev (txn :: rest)) 0 tr) as [[n|e] tr']; done.
Qed.

(** C7 fails on the code. The pushes are made in the order of the reversed
    list, oldest first, whatever the channel does; but the sequence need not
    be the whole reversed list. With three transactions and a channel whose
    second call raises, it stops after two notifications. *)
Theorem raising_push_cuts_the_sequence :
  (∀ (w : world) (transactions : list dict) (tr : list event),
     ∃ evs : list event,
       (push_transactions_to_lark_v2 w transactions tr).2 = tr ++ evs ∧
       pushes evs `prefix_of` (content_of <$> rev transactions))
  ∧ pushes (push_transactions_to_lark_v2 Samples.second_push_raises
              Samples.three []).2
    = take 2 (content_of <$> rev Samples.three)
  ∧ pushes (push_transactions_to_lark_v2 Samples.second_push_raises
              Samples.three []).2
    ≠ content_of <$> rev Samples.three.
Proof.
  split; [exact push_transactions_prefix|]. split; [reflexivity|].
  intros H. apply (f_equal length) in H. vm_compute in H. discriminate H.
Qed.

(** C8 fails on the code. With three transactions and a channel that accepts
    the first push and raises on the second, the forwarder raises: it has no
    result, although one push succeeded. Its caller takes such a run for a
    failure: on the sample store [find_unique_transactions_v2] returns
    [False]. *)
Theorem accepted_push_then_raise_is_an_error :
  let out :=
    push_transactions_to_lark_v2 Samples.second_push_raises Samples.three []
  in
  Samples.three ≠ []
  ∧ out.2 = [LarkPush (content_of (encode_txn (Samples.tx "FT001" "1")))
               (Ok Samples.accepted);
             Sleep 500;
             LarkPush (content_of (encode_txn (Samples.tx "FT002" "2")))
               Raise]
  ∧ Exists push_ok out.2
  ∧ out.1 = Raise
  ∧ (find_unique_transactions_v2 Samples.second_push_raises Samples.store
       []).1 = Ok false.
Proof.
  cbv zeta. split; [discriminate|]. split; [reflexivity|].
  split; [|split; reflexivity].
  apply Exists_cons_hd. eexists _, _. split; reflexivity.
Qed.

(** C10 fails on the code. Identifiers are compared with those of the older
    batches only: the transactions of the newest batch that carry an
    identifier absent from the older batches are all found new, however
    many there are. But they need not all be forwarded. The newest batch of
    the sample store has two transactions FT002, both found new; with a
    channel whose first call raises one push is attempted, so the second
    FT002 and FT003 are never forwarded, and nothing is pruned. *)
Theorem raising_push_leaves_a_duplicate_unforwarded :
  (∀ (files : list file) (newest_file : file)
     (B1 : list (list transaction)) (B2 : list transaction) (i : string),
     newest_of files = Some newest_file →
     holds_batch newest_file B2 →
     Forall2 holds_batch (old_files_of files newest_file) B1 →
     i ≠ "" → i ∉ idents B1 →
     ∃ unique : list transaction,
       unique_transactions_of files
       = Some (newest_file, encode_txn <$> unique) ∧
       filter (fun t => ident t = i) unique
       = filter (fun t => ident t = i) B2)
  ∧ unique_transactions_of Samples.store
    = Some (Samples.batch_file "mb_biz_transactions_2.json" 20 Samples.newest,
            encode_txn <$> [Samples.tx "FT003" "0"; Samples.tx "FT002" "2,000";
                            Samples.tx "FT002" "2,000"])
  ∧ find_unique_transactions_v2 Failing.first_push_raises Samples.store []
    = (Ok false,
       [LarkPush (content_of (encode_txn (Samples.tx "FT002" "2,000")))
          Raise]).
Proof.
  split; [|split; reflexivity].
  intros files newest_file B1 B2 i Hn Hb Hold Hi Hni.
  exists (new_transactions_spec B1 B2).
  split; [by apply unique_transactions_batches|].
  unfold new_transactions_spec. rewrite list_filter_filter.
  apply list_filter_iff. intros t. split; [by intros [? _]|].
  intros ->. done.
Qed.

End ForwarderDefect.

(** ** The scheduler: a recovery that cannot log in *)

Section RecoveryDefect.

Import Login Scheduler.

(** C4 fails on the code. The cooldown, the single login and the guard are
    there, and a recovery login that returns [False] is followed by the
    alert. But a recovery that fails in another way ends the process
    without a notification. When the portal cannot be reached [log_in_v2]
    raises: the handler shuts the environment down and exits with status 1,
    and nothing is pushed. When no driver can be created
    [initialize_driver] exits at once: nothing is pushed and the forced
    teardown is not run either. *)
Theorem recovery_that_raises_sends_no_alert :
  let raised :=
    health_check_block Failing.dead_and_unreachable 1793674811000
      Samples.running [] in
  let no_driver :=
    health_check_block Failing.dead_and_no_driver 1793674811000
      Samples.running [] in
  let refused :=
    health_check_block Samples.dead_and_locked 1793674811000
      Samples.running [] in
  let whole := run_scheduler Failing.lost_then_unreachable 60 initial [] in
  raised.1.1 = Err (SystemExit 1)
  ∧ raised.2
    = [CheckSession None; Sleep 60000; Sleep 60000; Sleep 60000; LogOut;
       Sleep 2000; CloseDriver; Sleep 5000; InitDriver true; LoginStart;
       Navigate Unreachable; LogOut; CloseDriver; DockerDown DockerOk;
       Sleep 10000]
  ∧ pushes raised.2 = []
  ∧ no_driver.1.1 = Err (SystemExit 1)
  ∧ no_driver.2
    = [CheckSession None; Sleep 60000; Sleep 60000; Sleep 60000; LogOut;
       Sleep 2000; CloseDriver; Sleep 5000; InitDriver false; Sleep 10000]
  ∧ pushes refused.2 = [RecoveryFailedAt 1793674987000]
  ∧ whole.1.1 = Err (SystemExit 1)
  ∧ logins whole.2 = 2%nat
  ∧ pushes whole.2 = [].
Proof. vm_compute. repeat split; reflexivity. Qed.

End RecoveryDefect.

(** ** Pruning, from the glob on *)

Section ListingFacts.

Import Dedup Forwarder Pruning Listing.

Ltac unfold_eff :=
  unfold mbind, M_bind, mret, M_ret, bind, ret, call_lark, call_woo, sleep,
    remove, emit, lift, raise, try_except, answer in *.

Lemma stat_path (e : entry) (f : file) :
  stat e = Some f → path f = entry_path e.
Proof.
  unfold stat. destruct (getmtime e); [|done]. by intros [= <-].
Qed.

(** X4. [find_unique_transactions_v2] raises exactly when a matched path
    cannot be stat'ed, and nothing has been pushed or removed then.
    Otherwise it returns, whatever the collaborators do. Files are removed
    only by a run that returns [True]; they are then the matched files other
    than the newest, removed after everything else the run did; the newest
    file is never removed. *)
Theorem prune_only_after_success (w : world) (transaction_files : list entry)
  (tr : list event) :
  (Exists (fun e => getmtime e = None) transaction_files →
   find_unique_transactions_v2 w transaction_files tr = (Raise, tr))
  ∧ (Forall (fun e => is_Some (getmtime e)) transaction_files →
     ∃ (files : list file) (b : bool) (evs : list event),
       mapM stat transaction_files = Some files ∧
       path <$> files = entry_path <$> transaction_files ∧
       find_unique_transactions_v2 w transaction_files tr
       = (Ok b, tr ++ evs ++ (if b then Remove ∘ path <$> prunable files
                              else [])) ∧
       removals evs = [] ∧
       (∀ newest_file, newest_of files = Some newest_file →
                       path newest_file ∉ path <$> prunable files)).
Proof.
  split.
  { intros Hex. unfold find_unique_transactions_v2.
    destruct transaction_files as [|e rest]; [by apply Exists_nil in Hex|].
    assert (mapM stat (e :: rest) = None) as ->; [|done].
    apply mapM_None. eapply Exists_impl; [exact Hex|].
    intros e' He'. unfold stat. by rewrite He'. }
  intros Hall.
  assert (is_Some (mapM stat transaction_files)) as [files Hfiles].
  { apply mapM_is_Some. eapply Forall_impl; [exact Hall|].
    intros e [m Hm]. unfold compose, stat. rewrite Hm. by eexists. }
  exists files.
  assert (path <$> files = entry_path <$> transaction_files) as Hpaths.
  { apply mapM_Some in Hfiles. clear Hall.
    induction Hfiles as [|e f es fs Hf _ IH]; [done|].
    rewrite !fmap_cons. f_equal; [by apply stat_path|exact IH]. }
  assert (find_unique_transactions_v2 w transaction_files tr
          = Forwarder.find_unique_transactions_v2 w files tr) as ->.
  { unfold find_unique_transactions_v2. rewrite Hfiles.
    destruct transaction_files as [|e rest]; [|done].
    by injection Hfiles as <-. }
  assert (∀ newest_file, newest_of files = Some newest_file →
            path newest_file ∉ path <$> prunable files) as Hkeep.
  { intros nf Hn. unfold prunable, old_files_of. rewrite Hn.
    intros H. apply list_elem_of_fmap in H as (g & Hg & Hin).
    apply list_elem_of_filter in Hin as [Hne _]. by rewrite Hg in Hne. }
  unfold Forwarder.find_unique_transactions_v2, prunable in *.
  destruct (newest_of files) as [nf|].
  2:{ exists false, []. unfold_eff. by rewrite !app_nil_r. }
  unfold process_newest.
  destruct (file_data nf) as [[| | | | |d]|];
    try (exists false, []; unfold_eff; by rewrite !app_nil_r).
  destruct (transactions_of d) as [| | | |new_transactions|];
    try (exists false, []; unfold_eff; by rewrite !app_nil_r).
  destruct (unique_loop _ new_transactions []) as [u|e] eqn:Hu.
  2:{ apply unique_loop_exception in Hu as ->.
      exists false, []. unfold_eff. by rewrite !app_nil_r. }
  destruct (forward_any w u tr) as (r & evs & Hrun & [-> | ->] & Hrem).
  - exists false, evs. unfold try_except.
    change ((lift (Ok u) ≫= ?k) tr) with (k u tr). cbv beta.
    unfold mbind, M_bind, bind at 1. unfold mbind, M_bind in Hrun.
    rewrite Hrun. unfold ret. by rewrite app_nil_r.
  - exists true, evs. unfold try_except.
    change ((lift (Ok u) ≫= ?k) tr) with (k u tr). cbv beta.
    unfold mbind, M_bind, bind at 1. unfold mbind, M_bind in Hrun.
    rewrite Hrun. unfold bind. rewrite cleanup_data_directory_trace.
    unfold mret, M_ret, ret. by rewrite <- app_assoc.
Qed.

(** A link to a file that is gone is matched by the pattern as any file is:
    the run raises at once, whatever the other files hold. *)
Example dangling_link_raises :
  find_unique_transactions_v2 Samples.calm dangling [] = (Raise, []).
Proof. reflexivity. Qed.

End ListingFacts.

(** ** The fetch block and its cycle *)

Section CycleFacts.

Import Scheduler Cycle.

Ltac unfold_sm :=
  unfold mbind, SM_bind, sm_bind, mret, SM_ret, sm_ret, get_vars, update,
    now, exit, run, part, call_check_session in *.

(** The block of the scheduler is this one, with a cycle that is one call to
    the world and assigns nothing. *)
Lemma fetch_block_of_scheduler (w : world) (current_time : Z) :
  Scheduler.fetch_block w current_time
  = (session_id ← call_check_session w;
     s ← get_vars;
     if match session_id with Some _ => true | None => false end
        && fetch_due s current_time && negb (processing_transactions s)
        && negb (recovery_in_progress s)
     then
       t ← now w;
       update (set_last_fetch (Some t));;
       update (set_processing true);;
       try_finally
         (try_except (call_fetch_cycle w)
            (t' ← now w;
             update (set_last_fetch
                       (Some (t' - (transaction_interval s - 5) * 1000)))))
         (update (set_processing false))
     else sm_ret tt).
Proof. reflexivity. Qed.



(** A cycle whose fetcher takes three seconds and whose second half raises:
    the fetch is retried five seconds after the handler ran, that is eight
    seconds after the block was entered. *)
Example slow_cycle_that_raises :
  let out := fetch_block Samples.calm slow_fetch_then_raise 1793674820000
               Samples.running [Sleep 20000] in
  out.1.1 = Ok tt
  ∧ out.2 = [Sleep 20000; CheckSession (Some "session"); Sleep 3000]
  ∧ last_transaction_fetch_time out.1.2 = Some (1793674823000 - 15000)
  ∧ fetch_due out.1.2 1793674827999 = false
  ∧ fetch_due out.1.2 1793674828000 = true.
Proof. vm_compute. repeat split; reflexivity. Qed.

End CycleFacts.

(** ** Writer and readers *)

Section RoundTrip.

Import Dedup Watermark Store Reading.

Lemma run_record_batch (L : lib) (data_dir : string) (now : Z) (files : fs)
  (pre mid : list fs_op) (data : value) :
  Forall (leaves (batch_filename L data_dir now)) pre →
  Forall (fun op => ∀ src dst, op ≠ Rename src dst) pre →
  mid = [] ∨ mid = [RemoveFile (batch_filename L data_dir now)] →
  run_ops (pre ++ write_json L (temp_of (batch_filename L data_dir now)) data
               ++ mid
               ++ [Rename (temp_of (batch_filename L data_dir now))
                     (batch_filename L data_dir now)]) files
  !! batch_filename L data_dir now = Some (dumped L data).
Proof.
  intros Hpre Hren Hmid.
  destruct (staged_write L (temp_of (batch_filename L data_dir now))
              (batch_filename L data_dir now) data pre mid files
              (temp_of_fresh _) Hpre Hren Hmid)
    as [_ (staged & _ & _ & _ & _ & H)].
  exact H.
Qed.

(** X17. What the writer writes, the readers read. After the file operations
    of a fetch cycle that fetched the transactions [txs], the name of the
    batch holds the dump of a dictionary whose count is their number, as
    [len] gave it, and whose status tells an empty batch from the others.
    A reader whose [json.load] gives that dictionary back gets a batch in
    the sense of both readers, with the transactions that were fetched and
    the time of the save as its fetch timestamp; alone in the store, it has
    all its identified transactions found new, and when it is empty the
    watermark is read from its fetch timestamp. *)
Theorem saved_batch_is_read_back (L : lib)
  (json_load : string → option value) (data_dir : string) (now m : Z)
  (files : fs) (fetched : dict) (txs : list transaction) :
  fetched !! TRANSACTIONS = Some (VList ((VDict ∘ encode_txn) <$> txs)) →
  let filename := batch_filename L data_dir now in
  let after :=
    run_ops (record_batch L data_dir now files (VDict fetched)) files in
  let stamp := strftime L now "%Y-%m-%d %H:%M:%S" in
  ∃ data : dict,
    after !! filename = Some (dumped L (VDict data)) ∧
    data !! "count" = Some (VInt (Z.of_nat (length txs))) ∧
    data !! "status"
    = Some (VStr (match txs with [] => "no_transactions" | _ => "success" end))
    ∧ (json_load (dumped L (VDict data)) = Some (VDict data) →
       let f := read_file json_load after filename m in
       holds_stamped f stamp txs ∧
       holds_batch f txs ∧
       unique_transactions_of [f]
       = Some (f, encode_txn <$> filter (fun t => ident t ≠ "") txs) ∧
       (txs = [] →
        ∀ now', get_last_fetch_time_from_json L [f] now'
                = if nonempty stamp
                  then Some (default now' (parse_fetch_timestamp L stamp))
                  else None)).
Proof.
  intros Hf filename after stamp.
  assert (truthy (VDict fetched) = true) as Hd.
  { simpl. apply negb_true_iff, bool_decide_eq_false. intros ->.
    by rewrite lookup_empty in Hf. }
  assert (∃ data : dict,
            after !! filename = Some (dumped L (VDict data)) ∧
            data !! "count" = Some (VInt (Z.of_nat (length txs))) ∧
            data !! "status"
            = Some (VStr (match txs with
                          | [] => "no_transactions" | _ => "success" end)) ∧
            data !! TIMESTAMP = Some (VStr stamp) ∧
            data !! TRANSACTIONS
            = Some (VList ((VDict ∘ encode_txn) <$> txs)))
    as (data & Hafter & Hcount & Hstatus & Hstamp & Htxs).
  { subst after. unfold record_batch. rewrite Hd. unfold get. rewrite Hf.
    destruct txs as [|t txs]; cbn [truthy negb orb fmap list_fmap].
    - unfold save_empty_marker, empty_data. eexists. split.
      + apply (run_record_batch L data_dir now files [Makedirs data_dir] []);
          [by repeat constructor|by repeat constructor|by left].
      + repeat split; reflexivity.
    - unfold save_transactions_to_file. cbn [truthy negb len]. 
      unfold data_to_save. eexists. split.
      + apply (run_record_batch L data_dir now files
                 [Makedirs data_dir; OpenW (test_file data_dir);
                  WriteChunk (test_file data_dir) "test";
                  RemoveFile (test_file data_dir)]);
          [apply probe_leaves|by repeat constructor|].
        case_bool_decide; [by right|by left].
      + split.
        { rewrite length_cons, length_fmap. reflexivity. }
        repeat split; reflexivity. }
  exists data. split; [done|]. split; [done|]. split; [done|].
  intros Hload f.
  assert (file_data f = Some (VDict data)) as Hfile.
  { unfold f, read_file. simpl. by rewrite Hafter. }
  assert (holds_batch f txs) as Hb by (by exists data).
  split; [by exists data|]. split; [done|]. split.
  - rewrite (unique_transactions_batches [f] f [] txs); first last.
    + unfold old_files_of. rewrite filter_cons, decide_False by (by intros ?).
      constructor.
    + done.
    + done.
    + do 3 f_equal. apply list_filter_iff. intros t. unfold idents. simpl.
      split; [by intros [? _]|]. intros ?. split; [done|].
      apply not_elem_of_nil.
  - intros -> now'. unfold get_last_fetch_time_from_json.
    change (newest_of [f]) with (Some f). cbv iota beta. rewrite Hfile.
    unfold get. rewrite Htxs, Hstamp. simpl.
    destruct (nonempty stamp); [|done].
    by destruct (parse_fetch_timestamp L stamp).
Qed.

Lemma saved_batch_is_read_back_witness :
  let fetched : dict :=
    {[ TRANSACTIONS := VList ((VDict ∘ encode_txn) <$> Samples.newest) ]} in
  ∃ data : dict,
    run_ops (record_batch Samples.strict "data" 1793700000 ∅ (VDict fetched)) ∅
    !! "data/mb_biz_transactions_20261103_100000.json"
    = Some (dumped Samples.strict (VDict data)) ∧
    data !! "count" = Some (VInt 5) ∧
    data !! "status" = Some (VStr "success").
Proof.
  intros fetched.
  destruct (saved_batch_is_read_back Samples.strict (fun _ => None) "data"
              1793700000 0 ∅ fetched Samples.newest eq_refl)
    as (data & H1 & H2 & H3 & _).
  exists data. split; [exact H1|]. split; [exact H2|exact H3].
Defined.

End RoundTrip.
